(** * staruml-postgresql: the DDL generator of [generator.js]

  A shallow embedding of class [DDLGenerator] and the properties of the
  SQL text it assembles.

  Conventions of the embedding.
  - A JavaScript string is a [string]; each character stands for one
    code unit below 256 (Latin-1), which fixes what [toLowerCase] and
    [trim] do on every character of the type.
  - A property that may be absent ([undefined]) is an [option].
  - [app.toast], [app.dialogs], [console.log] and [fs.writeFileSync] are
    the host's sinks: a call is recorded as an [Event], in call order.
  - A JavaScript exception is an [Outcome] [Throw]; events emitted before
    the throw stay emitted.
  - The members an object inherits are modelled where the generator
    uses an object as a map: in [dataType], which looks a column type up
    in its table, and in [writeUserIndexes], which groups the index
    definitions on an array. *)

From Stdlib Require Import String Ascii List ZArith NArith Lia Bool.
From Stdlib Require Import DecimalString.
From Stdlib Require Import Sorted Permutation.
Import ListNotations.
Open Scope list_scope.
Open Scope string_scope.

Set Implicit Arguments.

(* ================================================================== *)
(** ** JavaScript built-ins used by the generator *)

Module JS.

(** Values a call in [dataType] can return besides a string. *)
Inductive Value :=
| VString (s : string)
| VFalse
| VUndefined
| VObject.

Inductive Exn :=
| TypeError (what : string).

Inductive Outcome (A : Type) :=
| Normal (a : A)
| Throw (e : Exn).
Arguments Normal {A} a.
Arguments Throw {A} e.

(** [String.prototype.toLowerCase] on one code unit below 256. *)
Definition lower_char (c : ascii) : ascii :=
  let n := nat_of_ascii c in
  if (((65 <=? n) && (n <=? 90)) || ((192 <=? n) && (n <=? 214))
      || ((216 <=? n) && (n <=? 222)))%nat
  then ascii_of_nat (n + 32) else c.

Fixpoint toLowerCase (s : string) : string :=
  match s with
  | EmptyString => EmptyString
  | String c r => String (lower_char c) (toLowerCase r)
  end.

(** White space and line terminators below 256. *)
Definition is_white (c : ascii) : bool :=
  let n := nat_of_ascii c in
  (((9 <=? n) && (n <=? 13)) || (n =? 32) || (n =? 160))%nat.

Fixpoint trimStart (s : string) : string :=
  match s with
  | EmptyString => EmptyString
  | String c r => if is_white c then trimStart r else s
  end.

(** [trimEnd] keeps a character when it is not white space or when
    something is left after it. *)
Fixpoint trimEnd (s : string) : string :=
  match s with
  | EmptyString => EmptyString
  | String c r =>
      match trimEnd r with
      | EmptyString => if is_white c then EmptyString else String c EmptyString
      | r' => String c r'
      end
  end.

Definition trim (s : string) : string := trimEnd (trimStart s).

(** [s.split(sep)] for a one-character separator: never an empty array. *)
Fixpoint split (sep : ascii) (s : string) : list string :=
  match s with
  | EmptyString => [EmptyString]
  | String c r =>
      if Ascii.eqb c sep then EmptyString :: split sep r
      else match split sep r with
           | [] => [String c EmptyString]
           | h :: t => String c h :: t
           end
  end.

(** [arr.join(sep)]. *)
Fixpoint join (sep : string) (l : list string) : string :=
  match l with
  | [] => EmptyString
  | [x] => x
  | x :: r => x ++ sep ++ join sep r
  end.

(** [s.indexOf(pat)]: position of the first occurrence, or -1. *)
Fixpoint indexOf_from (pat s : string) (i : Z) : Z :=
  if String.prefix pat s then i
  else match s with
       | EmptyString => (-1)%Z
       | String _ r => indexOf_from pat r (i + 1)%Z
       end.

Definition indexOf (s pat : string) : Z := indexOf_from pat s 0%Z.

(** The digits of an integer. *)
Definition decimal (z : Z) : string := NilZero.string_of_int (Z.to_int z).

(** The number a non-negative integer is as a JavaScript value: itself
    when it has at most 53 bits, and otherwise the nearest integer with
    a 53-bit significand, ties to the even one. *)
Definition to_double (n : Z) : Z :=
  let b := Z.log2 n in
  if (b <? 53)%Z then n
  else
    let sh := (b - 52)%Z in
    let q := Z.shiftr n sh in
    let r := (n - Z.shiftl q sh)%Z in
    let half := Z.shiftl 1 (sh - 1) in
    let q := if (half <? r)%Z || ((r =? half)%Z && Z.odd q)
             then (q + 1)%Z else q in
    Z.shiftl q sh.

(** The decimal with the fewest significant digits that reads back as
    the number [x] of [nd] digits: with [k] digits, the multiples of
    [10^(nd-k)] next to [x] are tried, the nearer first and of two
    equally near the even one; then [k + 1] digits, and so on. *)
Fixpoint shortest (x : Z) (nd k fuel : nat) : Z :=
  match fuel with
  | O => x
  | S fuel' =>
      let p := (10 ^ Z.of_nat (nd - k))%Z in
      let lo := (x / p * p)%Z in
      let hi := (lo + p)%Z in
      let oklo := (to_double lo =? x)%Z in
      let okhi := (to_double hi =? x)%Z in
      if oklo && okhi then
        if (x - lo <? hi - x)%Z then lo
        else if (hi - x <? x - lo)%Z then hi
        else if Z.even (lo / p) then lo else hi
      else if oklo then lo
      else if okhi then hi
      else shortest x nd (S k) fuel'
  end.

Fixpoint dropZeros (s : string) : string :=
  match s with
  | EmptyString => EmptyString
  | String c r =>
      match dropZeros r with
      | EmptyString => if Ascii.eqb c "0" then EmptyString
                       else String c EmptyString
      | r' => String c r'
      end
  end.

(** [d.ddde+n]: the form of a number from 10^21 on. *)
Definition exponential (v : Z) : string :=
  match dropZeros (decimal v) with
  | EmptyString => "0"
  | String d EmptyString =>
      String d ("e+" ++ decimal (Z.of_nat (String.length (decimal v) - 1)))
  | String d r =>
      String d ("." ++ r ++ "e+"
                ++ decimal (Z.of_nat (String.length (decimal v) - 1)))
  end.

Definition unsafe_to_string (n : Z) : string :=
  let x := to_double n in
  if (2 ^ 1024 <=? x)%Z then "Infinity"
  else
    let nd := String.length (decimal x) in
    let v := shortest x nd 1 nd in
    if (String.length (decimal v) <=? 21)%nat then decimal v
    else exponential v.

(** Rendering of an integer, as string concatenation does it
    ([Number::toString]): an integer up to 2^53 - 1 in absolute value is
    written digit by digit; a larger one stands for the nearest number
    there is and is written with the fewest digits that distinguish
    that number, in exponent form from 10^21 on. *)
Definition number_to_string (z : Z) : string :=
  if (Z.abs z <=? 9007199254740991)%Z then decimal z
  else if (z <? 0)%Z then "-" ++ unsafe_to_string (Z.abs z)
  else unsafe_to_string z.

(** [ToString] of a property that may be absent. *)
Definition opt_number_to_string (l : option Z) : string :=
  match l with
  | Some z => number_to_string z
  | None => "undefined"
  end.

(** Truthiness of a string. *)
Definition truthy (s : string) : bool :=
  match s with EmptyString => false | _ => true end.

Definition truthy_opt (s : option string) : bool :=
  match s with Some t => truthy t | None => false end.

(** A property key that is an array index: the canonical decimal
    spelling of an integer below 2^32 - 1. *)
Definition array_index (key : string) : option N :=
  match NilZero.int_of_string key with
  | Some (Decimal.Pos d) =>
      let n := N.of_uint d in
      if String.eqb (NilZero.string_of_uint (N.to_uint n)) key
         && (n <? 4294967295)%N
      then Some n else None
  | _ => None
  end.

End JS.

(* ================================================================== *)
(** ** The host's sinks and the effect of a call *)

Inductive Event :=
| ToastInfo (msg : string)
| ToastWarning (msg : string)
| ToastError (msg : string)
| WriteFile (file data : string)
| InfoDialog (msg : string)
| ErrorDialog (ex : JS.Exn)
| ConsoleLog (ex : JS.Exn).

(** [arr.push(x)]. *)
Definition push {A : Type} (l : list A) (x : A) : list A := (l ++ [x])%list.

(** A call returns or throws, and leaves the events it emitted. *)
Definition M (A : Type) : Type := (JS.Outcome A * list Event)%type.

Definition ret {A} (a : A) : M A := (JS.Normal a, []).

Definition bind {A B} (m : M A) (f : A -> M B) : M B :=
match m with
| (JS.Normal a, ev) => let (r, ev') := f a in (r, (ev ++ ev')%list)
| (JS.Throw e, ev) => (JS.Throw e, ev)
end.

Definition emit (e : Event) : M unit := (JS.Normal tt, [e]).

Definition throw {A} (e : JS.Exn) : M A := (JS.Throw e, []).

Definition lift {A} (o : JS.Outcome A) : M A := (o, []).

Notation "x <- m ;; k" := (bind m (fun x => k))
(at level 61, m at next level, right associativity).
Notation "m ;;; k" := (bind m (fun _ => k))
(at level 61, right associativity).

(** [arr.forEach] with a callback that threads the state [S]. *)
Fixpoint forEach {A S} (f : S -> A -> M S) (l : list A) (s : S) : M S :=
match l with
| [] => ret s
| a :: r => s' <- f s a ;; forEach f r s'
end.

(* ================================================================== *)
(** ** codegen-utils: the helpers the generator imports *)

Module codegen.

Inductive TagKind := TK_STRING | TK_REFERENCE | TK_BOOLEAN | TK_NUMBER | TK_HIDDEN.

(** What the generator reads of the element a reference tag points to:
    its name, its value and the name of the element it refers to. *)
Record TagRef := {
  ref_name : string;
  ref_value : string;
  ref_reference : option string
}.

Record Tag := {
  tag_name : string;
  tag_kind : TagKind;
  tag_value : string;
  tag_reference : option TagRef;
  tag_checked : bool;
  tag_number : Z
}.

Definition kind_eqb (a b : TagKind) : bool :=
  match a, b with
  | TK_STRING, TK_STRING | TK_REFERENCE, TK_REFERENCE
  | TK_BOOLEAN, TK_BOOLEAN | TK_NUMBER, TK_NUMBER
  | TK_HIDDEN, TK_HIDDEN => true
  | _, _ => false
  end.

(** Modelled from the spec: [codegen.tag], absent from the sources; the
    first annotation of the element that matches the key, or none. *)
Definition tag (key : string) (tags : list Tag) : option Tag :=
  find (fun t => String.eqb (tag_name t) key) tags.

(** Modelled from the spec: [codegen.stringTag], absent from the
    sources; the value of the string annotation of that name, the empty
    string when there is none. *)
Definition stringTag (key : string) (tags : list Tag) : string :=
  match tag key tags with
  | Some t => tag_value t
  | None => ""
  end.

(** Modelled from the spec: [codegen.tagsByValue], absent from the
    sources; all the annotations that match, the key being compared
    with the annotation's value as the function's name says. *)
Definition tagsByValue (key : string) (tags : list Tag) : list Tag :=
  filter (fun t => String.eqb (tag_value t) key) tags.

(** Modelled from the spec: [codegen.tagByValue], absent from the
    sources; the first of [tagsByValue]. *)
Definition tagByValue (key : string) (tags : list Tag) : option Tag :=
  find (fun t => String.eqb (tag_value t) key) tags.

(** Modelled from the spec: [codegen.addStringTag], absent from the
    sources; writes a new string annotation back onto the element. *)
Definition addStringTag (key : string) (tags : list Tag) (v : string) : list Tag :=
  push tags ({| tag_name := key; tag_kind := TK_STRING; tag_value := v;
                tag_reference := None; tag_checked := false;
                tag_number := 0 |}).

(** Modelled from the spec: [codegen.replaceAll], absent from the
    sources; every occurrence of one character replaced by another
    (the generator replaces spaces, and dashes, with underscores). *)
Fixpoint replaceAll (s : string) (from to : ascii) : string :=
  match s with
  | EmptyString => EmptyString
  | String c r =>
      String (if Ascii.eqb c from then to else c) (replaceAll r from to)
  end.

Definition identifier_char (c : ascii) : bool :=
  let n := nat_of_ascii c in
  (((48 <=? n) && (n <=? 57)) || ((65 <=? n) && (n <=? 90))
   || ((97 <=? n) && (n <=? 122)) || (n =? 95))%nat.

Fixpoint all_chars (p : ascii -> bool) (s : string) : bool :=
  match s with
  | EmptyString => true
  | String c r => p c && all_chars p r
  end.

(** Modelled from the spec: [codegen.isValidIdentifier], absent from the
    sources; true iff the name is non-empty and made of letters, digits
    and underscores only. *)
Definition isValidIdentifier (s : string) : bool :=
  JS.truthy s && all_chars identifier_char s.

(** [codegen.asComment] and [codegen.enumAsList] are absent from the
    sources and the spec does not say how they quote their argument:
    they stay abstract. *)
Class Quoting := {
  asComment : string -> string;
  enumAsList : string -> string
}.

(** Modelled from the spec: [codegen.CodeWriter], absent from the
    sources; an indentation-tracking line accumulator. *)
Record CodeWriter := {
  lines : list string;
  indentString : string;
  indentations : list string
}.

Definition newCodeWriter (indent : string) : CodeWriter :=
  {| lines := []; indentString := indent; indentations := [] |}.

Definition indent (w : CodeWriter) : CodeWriter :=
  {| lines := lines w; indentString := indentString w;
     indentations := push (indentations w) (indentString w) |}.

Definition outdent (w : CodeWriter) : CodeWriter :=
  {| lines := lines w; indentString := indentString w;
     indentations := removelast (indentations w) |}.

Definition margin (w : CodeWriter) : string := JS.join "" (indentations w).

(** [writeLine(line)]. *)
Definition writeLine (line : string) (w : CodeWriter) : CodeWriter :=
  {| lines := push (lines w) (margin w ++ line); indentString := indentString w;
     indentations := indentations w |}.

(** [writeLine()]: an empty line. *)
Definition writeEmpty (w : CodeWriter) : CodeWriter :=
  {| lines := push (lines w) ""; indentString := indentString w;
     indentations := indentations w |}.

Definition hasContent (w : CodeWriter) : bool :=
  match lines w with [] => false | _ => true end.

Definition nl : string := String (ascii_of_nat 10) EmptyString.

Definition getData (w : CodeWriter) : string := JS.join nl (lines w).

End codegen.

(* ================================================================== *)
(** ** The model graph, as the generator reads it *)

Module Model.
Import codegen.

(** [_parent] of an entity: a diagram (with its own [_parent], a data
    model or not), a data model, or something else. The annotations are
    all the generator reads of them. *)
Inductive Owner :=
| OwnerDiagram (diagramTags : list Tag) (dataModelTags : option (list Tag))
| OwnerDataModel (dataModelTags : list Tag)
| OwnerOther.

(** [referenceTo]: the referenced column, its entity ([_parent]) and
    that entity's owner. *)
Record Reference := {
  refCol_name : string;
  refCol_tags : list Tag;
  refTable_name : string;
  refTable_tags : list Tag;
  refTable_parent : Owner
}.

Record Column := {
  col_name : string;
  col_type : string;
  col_length : option Z;
  col_primaryKey : bool;
  col_nullable : bool;
  col_unique : bool;
  col_foreignKey : bool;
  col_referenceTo : option Reference;
  col_documentation : option string;
  col_tags : list Tag;
  (** whether the generator's marker [is_enum] is defined *)
  col_is_enum : bool
}.

Definition set_type (c : Column) (t : string) (enum : bool) : Column :=
  {| col_name := col_name c; col_type := t; col_length := col_length c;
     col_primaryKey := col_primaryKey c; col_nullable := col_nullable c;
     col_unique := col_unique c; col_foreignKey := col_foreignKey c;
     col_referenceTo := col_referenceTo c;
     col_documentation := col_documentation c; col_tags := col_tags c;
     col_is_enum := enum |}.

Record Entity := {
  ent_name : string;
  ent_documentation : option string;
  ent_tags : list Tag;
  ent_columns : list Column
}.

(** A diagram groups entities. *)
Record Diagram := {
  dia_name : string;
  dia_tags : list Tag;
  dia_ownedElements : list Entity
}.

Inductive DataModelElement :=
| OwnedDiagram (d : Diagram)
| OwnedEntity (e : Entity)
| OwnedOther.

Record DataModel := {
  dm_name : string;
  dm_documentation : option string;
  dm_tags : list Tag;
  dm_ownedElements : list DataModelElement
}.

Inductive RootElement :=
| OwnedDataModel (m : DataModel)
| OwnedElse.

(** The element handed to [generate]: a project or not. *)
Record Root := {
  root_isProject : bool;
  root_name : string;
  root_author : string;
  root_documentation : option string;
  root_tags : list Tag;
  root_ownedElements : list RootElement
}.

Record Options := {
  opt_useTab : bool;
  opt_indentSpaces : Z;
  opt_owner : string;
  opt_encoding : string;
  opt_tablespace : string;
  opt_collation : string;
  opt_dropStatements : bool;
  opt_foreignKeyConstraint : bool;
  opt_tableInserts : bool;
  opt_trigger : string;
  opt_function : string;
  opt_procedure : string
}.

End Model.

(* ================================================================== *)
(** ** class DDLGenerator *)

Module DDLGenerator.
Import JS codegen Model.

Definition tab : string := String (ascii_of_nat 9) EmptyString.

Definition getIndentString (options : Options) : string :=
  if opt_useTab options then tab
  else JS.join "" (repeat " " (Z.to_nat (opt_indentSpaces options))).

Definition getIndexColumns (elem : Entity) : list Column :=
  filter (fun col => match tagByValue "index" (col_tags col) with
                     | Some _ => true
                     | None => false
                     end) (ent_columns elem).

(** *** dataType *)

Inductive LenFunc := varLenFunc | noLenFunc.

Definition lenFunc_apply (f : LenFunc) (elem : Column) : string :=
  match f with
  | varLenFunc => "(" ++ opt_number_to_string (col_length elem) ++ ")"
  | noLenFunc => ""
  end.

Inductive Mapping :=
| typeOf (type : string) (lenFunc : LenFunc)
| typeOfWithOverride (type override : string) (lenFunc : LenFunc).

(** [elem.length == -1]. *)
Definition length_is_sentinel (elem : Column) : bool :=
  match col_length elem with
  | Some z => (z =? -1)%Z
  | None => false
  end.

Definition Mapping_apply (m : Mapping) (elem : Column) : string :=
  match m with
  | typeOf type lenFunc => type ++ lenFunc_apply lenFunc elem
  | typeOfWithOverride type override lenFunc =>
      if length_is_sentinel elem then override ++ lenFunc_apply lenFunc elem
      else type ++ lenFunc_apply lenFunc elem
  end.

Definition dataType_map : list (string * Mapping) :=
  [ ("VARCHAR", typeOf "varchar" varLenFunc);
    ("BOOLEAN", typeOf "boolean" noLenFunc);
    ("INTEGER", typeOfWithOverride "integer" "serial" noLenFunc);
    ("CHAR", typeOf "char" varLenFunc);
    ("BINARY", typeOf "bytea" noLenFunc);
    ("VARBINARY", typeOf "bytea" noLenFunc);
    ("BLOB", typeOf "bytea" noLenFunc);
    ("TEXT", typeOf "text" noLenFunc);
    ("SMALLINT", typeOfWithOverride "smallint" "smallserial" noLenFunc);
    ("BIGINT", typeOfWithOverride "bigint" "bigserial" noLenFunc);
    ("DECIMAL", typeOf "numeric" varLenFunc);
    ("NUMERIC", typeOf "numeric" varLenFunc);
    ("FLOAT", typeOf "real" noLenFunc);
    ("DOUBLE", typeOf "double precision" noLenFunc);
    ("BIT", typeOf "bit" varLenFunc);
    ("DATE", typeOf "date" noLenFunc);
    ("TIME", typeOf "time without time zone" noLenFunc);
    ("DATETIME", typeOf "timestamp with time zone" noLenFunc);
    ("TIMESTAMPTZ", typeOf "timestamp with time zone" noLenFunc);
    ("TIMESTAMP", typeOf "timestamp without time zone" noLenFunc);
    ("POINT", typeOf "point" noLenFunc);
    ("POLYGON", typeOf "polygon" noLenFunc);
    ("CIDR", typeOf "cidr" noLenFunc);
    ("INET", typeOf "inet" noLenFunc) ].

(** [map] is an object literal, so [map[elem.type]] also finds what
    every object inherits. Called as [map[elem.type](elem, options)]:
    [constructor] returns [elem], [valueOf] returns [map], the two
    [toString]s return the object tag, the predicates return false on a
    key [map] does not own, the getter lookups return undefined, the two
    definers reject [options] as an accessor, and [__proto__] is an
    object that cannot be called. *)
Definition inherited : list (string * Outcome Value) :=
  [ ("constructor", Normal VObject);
    ("valueOf", Normal VObject);
    ("toString", Normal (VString "[object Object]"));
    ("toLocaleString", Normal (VString "[object Object]"));
    ("hasOwnProperty", Normal VFalse);
    ("isPrototypeOf", Normal VFalse);
    ("propertyIsEnumerable", Normal VFalse);
    ("__lookupGetter__", Normal VUndefined);
    ("__lookupSetter__", Normal VUndefined);
    ("__defineGetter__", Throw (TypeError "getter is not a function"));
    ("__defineSetter__", Throw (TypeError "setter is not a function"));
    ("__proto__", Throw (TypeError "map[elem.type] is not a function")) ].

Fixpoint lookup {V : Type} (key : string) (l : list (string * V)) : option V :=
  match l with
  | [] => None
  | (k, v) :: r => if String.eqb k key then Some v else lookup key r
  end.

Definition dataType (elem : Column) : Outcome Value :=
  match lookup (col_type elem) dataType_map with
  | Some f => Normal (VString (Mapping_apply f elem))
  | None =>
      match lookup (col_type elem) inherited with
      | Some r => r
      | None => Normal (VString (col_type elem))
      end
  end.

Section Generator.
Context {Q : Quoting}.

Record Comment := { cm_col : string; cm_doc : string }.

(** *** columnDeclaration

    Returns the line, the comment list after the push and the column
    after the assignment to [elem.type]. A mapped type that is not a
    string has no [indexOf]. *)
Definition columnDeclaration (columnName : string) (elem : Column)
    (comments : list Comment) (defaultValue : string)
  : Outcome (string * list Comment * Column) :=
  match dataType elem with
  | Throw e => Throw e
  | Normal (VString _type) =>
      let line := columnName in
      let line := line ++ " " ++ _type in
      let line := if col_primaryKey elem || negb (col_nullable elem)
                  then line ++ " NOT NULL" else line in
      let line := if (indexOf _type "serial" =? -1)%Z
                  then line ++ defaultValue else line in
      let comments :=
        match col_documentation elem with
        | Some documentation =>
            if truthy documentation
            then push comments ({| cm_col := columnName;
                                   cm_doc := asComment documentation |})
            else comments
        | None => comments
        end in
      let elem := if col_is_enum elem then set_type elem "enum" true else elem in
      Normal (line, comments, elem)
  | Normal _ => Throw (TypeError "_type.indexOf is not a function")
  end.

(** *** Name resolution *)

Definition space : ascii := " "%char.
Definition underscore : ascii := "_"%char.
Definition dash : ascii := "-"%char.

Definition tableName (name : string) (tags : list Tag) : M string :=
  let dbName := match tag "table" tags with
                | Some t => tag_value t
                | None => ""
                end in
  let dbName := if truthy dbName then dbName
                else replaceAll name space underscore in
  if negb (isValidIdentifier dbName) then
    emit (ToastError ("Table name is not valid: " ++ dbName
                      ++ ", please edit the table tag for " ++ name)) ;;;
    ret ""
  else ret (toLowerCase dbName).

Definition routineName (t : Tag) : M string :=
  let routineName := tag_name t in
  let routineName :=
    if negb (truthy routineName)
    then replaceAll (replaceAll routineName space underscore) dash underscore
    else routineName in
  if negb (isValidIdentifier routineName) then
    emit (ToastError ("Routine name is not valid: " ++ routineName
                      ++ ", please edit the name for " ++ tag_name t)) ;;;
    ret ""
  else ret (toLowerCase routineName).

Definition columnName (name : string) (tags : list Tag) : M string :=
  let dbName := match tag "column" tags with
                | Some t => tag_value t
                | None => ""
                end in
  let dbName := if truthy dbName then dbName
                else replaceAll name space underscore in
  if negb (isValidIdentifier dbName) then
    emit (ToastError ("Column name is not valid: " ++ dbName
                      ++ ", please edit the column tag for " ++ name)) ;;;
    ret ""
  else ret (toLowerCase dbName).

Definition columnDefault (elem : Column) : string :=
  match tag "default" (col_tags elem) with
  | None => ""
  | Some t => " DEFAULT " ++ tag_value t
  end.

(** [schemaName(elem)]: a diagram answers for its parent; anything but
    a data model is in schema public. *)
Definition schemaName (elem : Owner) : M string :=
  let dataModel := match elem with
                   | OwnerDiagram _ parent => parent
                   | OwnerDataModel tags => Some tags
                   | OwnerOther => None
                   end in
  match dataModel with
  | None => ret "public"
  | Some tags =>
      let dbName := stringTag "schema" tags in
      if negb (truthy dbName) then ret "public"
      else if negb (isValidIdentifier dbName) then
        emit (ToastWarning ("Schema name not valid: " ++ dbName)) ;;;
        ret dbName
      else ret dbName
  end.

(** *** writeUserIndexes *)

Record IdxDef := {
  idx_column : string;
  idx_idxName : string;
  idx_seq : Z;
  idx_desc : bool
}.

(** The inner [idxTags.forEach]: one definition per index tag. *)
Definition idxDefs_of_tags (colName : string) (idxTags : list Tag) : list IdxDef :=
  List.map (fun t => {| idx_column := colName; idx_idxName := tag_name t;
                        idx_seq := tag_number t; idx_desc := tag_checked t |})
           idxTags.

(** The outer [idxCols.forEach]. *)
Definition collectIdxDefs (idxCols : list Column) : M (list IdxDef) :=
  forEach (fun idxDef col =>
             let idxTags := tagsByValue "index" (col_tags col) in
             colName <- columnName (col_name col) (col_tags col) ;;
             ret (idxDef ++ idxDefs_of_tags colName idxTags)%list)
          idxCols [].

(** The accumulator of the [reduce] is an array, [[]], indexed by the
    index name: the properties the reduce has put on it, in creation
    order, and what it has pushed onto [Array.prototype], which the
    array reaches under the name [__proto__]. *)
Definition PropArray := list (string * list IdxDef).

Record Accumulator := {
  properties : PropArray;
  onPrototype : list IdxDef
}.

(** The string-keyed members an array inherits from [Array.prototype]
    and [Object.prototype] besides [__proto__] (ECMAScript 2023); all of
    them are functions. *)
Definition arrayMembers : list string :=
  [ "at"; "concat"; "constructor"; "copyWithin"; "entries"; "every";
    "fill"; "filter"; "find"; "findIndex"; "findLast"; "findLastIndex";
    "flat"; "flatMap"; "forEach"; "includes"; "indexOf"; "join"; "keys";
    "lastIndexOf"; "map"; "pop"; "push"; "reduce"; "reduceRight";
    "reverse"; "shift"; "slice"; "some"; "sort"; "splice";
    "toLocaleString"; "toReversed"; "toSorted"; "toSpliced"; "toString";
    "unshift"; "values"; "with";
    "hasOwnProperty"; "isPrototypeOf"; "propertyIsEnumerable"; "valueOf";
    "__defineGetter__"; "__defineSetter__"; "__lookupGetter__";
    "__lookupSetter__" ].

Definition ownProperty (acc : PropArray) (key : string) : bool :=
  existsb (fun kv => String.eqb (fst kv) key) acc.

(** [length] of the array: one more than its greatest index. *)
Definition arrayLength (acc : PropArray) : N :=
  fold_right (fun kv m => match array_index (fst kv) with
                          | Some n => N.max (n + 1) m
                          | None => m
                          end) 0%N acc.

(** [(acc[k] = acc[k] || []).push(idx)] when [acc[k]] is the array's
    own group, or nothing at all: the group grows, or is created. *)
Fixpoint store (acc : PropArray) (idx : IdxDef) : PropArray :=
  match acc with
  | [] => [(idx_idxName idx, [idx])]
  | (k, o) :: r =>
      if String.eqb k (idx_idxName idx) then (k, push o idx) :: r
      else (k, o) :: store r idx
  end.

Definition notAFunction : Exn :=
  TypeError "(intermediate value).push is not a function".

(** One step of the reduce. Where the array has no group of that name,
    [acc[idx.idxName]] is what the array has or inherits under it:
    - [length], zero on an array without elements, is falsy: the
      definition is pushed on a fresh array that [acc.length = []]
      does not keep; a length above zero has no [push];
    - [__proto__] is [Array.prototype], itself an array: the definition
      becomes an element of it;
    - an inherited member is a function, which has no [push];
    - an index below the length of [Array.prototype] is an element
      pushed there, an index definition, which has no [push];
    - any other name is undefined: the group is created. *)
Definition groupPush (acc : Accumulator) (idx : IdxDef) : Outcome Accumulator :=
  let key := idx_idxName idx in
  if ownProperty (properties acc) key then
    Normal {| properties := store (properties acc) idx;
              onPrototype := onPrototype acc |}
  else if String.eqb key "length" then
    if (arrayLength (properties acc) =? 0)%N then Normal acc
    else Throw notAFunction
  else if String.eqb key "__proto__" then
    Normal {| properties := properties acc;
              onPrototype := push (onPrototype acc) idx |}
  else if existsb (String.eqb key) arrayMembers then Throw notAFunction
  else if match array_index key with
          | Some n => (n <? N.of_nat (List.length (onPrototype acc)))%N
          | None => false
          end
  then Throw notAFunction
  else Normal {| properties := store (properties acc) idx;
                 onPrototype := onPrototype acc |}.

(** [idxDef.reduce(..., [])]. [Array.prototype] is taken as the engine
    made it when the reduce starts; what the reduce leaves on it
    outlives the call, which the model does not follow. *)
Fixpoint reduce (idxDef : list IdxDef) (acc : Accumulator) : Outcome Accumulator :=
  match idxDef with
  | [] => Normal acc
  | idx :: r =>
      match groupPush acc idx with
      | Normal acc' => reduce r acc'
      | Throw e => Throw e
      end
  end.

Definition groupByName (idxDef : list IdxDef) : Outcome Accumulator :=
  reduce idxDef {| properties := []; onPrototype := [] |}.

(** What [forEach] finds at an index of the array: a group of its own,
    or an index definition inherited from [Array.prototype]. *)
Inductive Element :=
| Group (o : list IdxDef)
| Inherited (d : IdxDef).

Fixpoint insertByIndex (e : N * Element) (l : list (N * Element))
  : list (N * Element) :=
  match l with
  | [] => [e]
  | h :: r => if (fst e <=? fst h)%N then e :: h :: r
              else h :: insertByIndex e r
  end.

(** The groups under a key that is an array index. *)
Definition ownElements (acc : PropArray) : list (N * Element) :=
  flat_map (fun kv => match array_index (fst kv) with
                      | Some n => [(n, Group (snd kv))]
                      | None => []
                      end) acc.

(** The elements of [Array.prototype] that show through the holes of
    the array, below its length. *)
Definition inheritedElements (acc : Accumulator) : list (N * Element) :=
  flat_map (fun e : N * IdxDef =>
              if (fst e <? arrayLength (properties acc))%N
                 && negb (existsb (fun o : N * Element => (fst o =? fst e)%N)
                                  (ownElements (properties acc)))
              then [(fst e, Inherited (snd e))] else [])
           (combine (List.map N.of_nat (seq 0 (List.length (onPrototype acc))))
                    (onPrototype acc)).

(** What [forEach] visits of such an array: the properties whose key is
    an array index, own or inherited, by increasing index; a property
    under any other key is not an element. *)
Definition arrayElements (acc : Accumulator) : list Element :=
  List.map snd
    (fold_right insertByIndex []
       (ownElements (properties acc) ++ inheritedElements acc)).

(** [o.sort] with the comparator on [seq]: a stable sort. *)
Fixpoint insertBySeq (x : IdxDef) (l : list IdxDef) : list IdxDef :=
  match l with
  | [] => [x]
  | y :: r => if (idx_seq x <=? idx_seq y)%Z then x :: y :: r
              else y :: insertBySeq x r
  end.

Definition sortBySeq (o : list IdxDef) : list IdxDef :=
  fold_right insertBySeq [] o.

Definition idxCols_render (o : list IdxDef) : list string :=
  List.map (fun obj => if idx_desc obj then idx_column obj ++ " DESC"
                       else idx_column obj) o.

Definition writeIndex (tableName : string) (codeWriter : CodeWriter)
    (o : list IdxDef) : CodeWriter :=
  let o := sortBySeq o in
  let cols := idxCols_render o in
  let idxName := match o with x :: _ => idx_idxName x | [] => "" end in
  let codeWriter := writeLine (" -- Index: " ++ idxName) codeWriter in
  let codeWriter := writeLine ("CREATE INDEX ON " ++ tableName) codeWriter in
  let codeWriter := indent codeWriter in
  let codeWriter := writeLine ("(" ++ join ", " cols ++ ");") codeWriter in
  outdent codeWriter.

(** The callback of [idxDef.forEach]: an index definition found where
    a group was expected has no [sort]. *)
Definition writeElement (tableName : string) (codeWriter : CodeWriter)
    (e : Element) : M CodeWriter :=
  match e with
  | Group o => ret (writeIndex tableName codeWriter o)
  | Inherited _ => throw (TypeError "o.sort is not a function")
  end.

Definition writeUserIndexes (codeWriter : CodeWriter) (tableName : string)
    (elem : Entity) : M CodeWriter :=
  let idxCols := getIndexColumns elem in
  idxDef <- collectIdxDefs idxCols ;;
  idxDef <- lift (groupByName idxDef) ;;
  codeWriter <- forEach (writeElement tableName) (arrayElements idxDef)
                  codeWriter ;;
  ret (writeEmpty codeWriter).

(** *** generateTable *)

(** The writers and the deferred foreign-key statements a caller hands
    to [generateTable], which updates them in place. *)
Record Buffers := {
  codeWriter : CodeWriter;
  dropWriter : CodeWriter;
  refs : list string
}.

(** The first loop: the enum types, the statements that drop them and
    the columns with their rewritten type. *)
Record EnumState := {
  en_writer : CodeWriter;
  en_drop : list string;
  en_columns : list Column
}.

Definition en_keep (st : EnumState) (col : Column) : EnumState :=
  {| en_writer := en_writer st; en_drop := en_drop st;
     en_columns := push (en_columns st) col |}.

Definition createEnum (table : string) (st : EnumState) (col : Column)
  : M EnumState :=
  _type <- lift (dataType col) ;;
  match _type with
  | VString t =>
      if String.eqb (toLowerCase t) "enum" then
        let enums := stringTag t (col_tags col) in
        if truthy enums then
          column <- columnName (col_name col) (col_tags col) ;;
          let typeName := table ++ "_" ++ column in
          let enumDecl := enumAsList enums in
          let w := writeLine ("CREATE TYPE " ++ typeName ++ " AS ENUM("
                              ++ enumDecl ++ ");" ++ nl) (en_writer st) in
          let w := writeLine ("CREATE CAST (CHARACTER VARYING AS " ++ typeName
                              ++ ") WITH INOUT AS IMPLICIT;" ++ nl) w in
          ret {| en_writer := w;
                 en_drop := push (en_drop st) ("DROP TYPE " ++ typeName ++ " CASCADE;");
                 en_columns := push (en_columns st) (set_type col typeName true) |}
        else ret (en_keep st col)
      else ret (en_keep st col)
  | VFalse | VUndefined => ret (en_keep st col)
  | VObject => throw (TypeError "_type.toLowerCase is not a function")
  end.

(** The second loop: the arrays filled while the columns are scanned. *)
Record Scan := {
  lines : list string;
  primaryKeys : list string;
  foreignKeys : list string;
  foreignKeyCtr : list Column;
  uniques : list string;
  comments : list Comment;
  scanned : list Column
}.

Definition emptyScan : Scan :=
  {| lines := []; primaryKeys := []; foreignKeys := []; foreignKeyCtr := [];
     uniques := []; comments := []; scanned := [] |}.

(** The classification of a column whose name resolved. *)
Definition classify (options : Options) (column : string) (col : Column)
    (st : Scan) : Scan :=
  let st :=
    if col_primaryKey col then
      {| lines := lines st; primaryKeys := push (primaryKeys st) column;
         foreignKeys := foreignKeys st; foreignKeyCtr := foreignKeyCtr st;
         uniques := uniques st; comments := comments st;
         scanned := scanned st |}
    else if col_unique col then
      {| lines := lines st; primaryKeys := primaryKeys st;
         foreignKeys := foreignKeys st; foreignKeyCtr := foreignKeyCtr st;
         uniques := push (uniques st) column; comments := comments st;
         scanned := scanned st |}
    else if truthy column && col_foreignKey col && negb (col_primaryKey col) then
      {| lines := lines st; primaryKeys := primaryKeys st;
         foreignKeys := push (foreignKeys st) column;
         foreignKeyCtr := foreignKeyCtr st;
         uniques := uniques st; comments := comments st;
         scanned := scanned st |}
    else st in
  if opt_foreignKeyConstraint options
     && match col_referenceTo col with Some _ => true | None => false end
  then
    {| lines := lines st; primaryKeys := primaryKeys st;
       foreignKeys := foreignKeys st;
       foreignKeyCtr := push (foreignKeyCtr st) col;
       uniques := uniques st; comments := comments st;
       scanned := scanned st |}
  else st.

Definition scanColumn (options : Options) (st : Scan) (col : Column) : M Scan :=
  column <- columnName (col_name col) (col_tags col) ;;
  let st := if truthy column then classify options column col st else st in
  let defaultValue := columnDefault col in
  if truthy column then
    r <- lift (columnDeclaration column col (comments st) defaultValue) ;;
    let '(line, comments', col') := r in
    ret {| lines := push (lines st) line; primaryKeys := primaryKeys st;
           foreignKeys := foreignKeys st; foreignKeyCtr := foreignKeyCtr st;
           uniques := uniques st; comments := comments';
           scanned := push (scanned st) col' |}
  else
    ret {| lines := lines st; primaryKeys := primaryKeys st;
           foreignKeys := foreignKeys st; foreignKeyCtr := foreignKeyCtr st;
           uniques := uniques st; comments := comments st;
           scanned := push (scanned st) col |}.

Definition withPrimaryKey (st : Scan) : list string :=
  match primaryKeys st with
  | [] => lines st
  | _ => push (lines st) ("PRIMARY KEY (" ++ join ", " (primaryKeys st) ++ ")")
  end.

(** "Write lines": a comma after every line but the last. *)
Fixpoint writeBody (lines : list string) (w : CodeWriter) : CodeWriter :=
  match lines with
  | [] => w
  | [l] => writeLine l w
  | l :: r => writeBody r (writeLine (l ++ ",") w)
  end.

Definition writeUniques (table : string) (uniques : list string)
    (w : CodeWriter) : CodeWriter :=
  match uniques with
  | [] => w
  | _ =>
      let w := writeLine ("ALTER TABLE " ++ table) w in
      let w := indent w in
      let w := writeLine ("ADD UNIQUE (" ++ join ", " uniques ++ ");") w in
      let w := outdent w in
      writeEmpty w
  end.

(** One deferred constraint, pushed on [refs]. *)
Definition pushForeignKey (table tblName : string) (refs : list string)
    (col : Column) : M (list string) :=
  match col_referenceTo col with
  | None => throw (TypeError "Cannot read properties of undefined")
  | Some refCol =>
      colName <- columnName (col_name col) (col_tags col) ;;
      refColName <- columnName (refCol_name refCol) (refCol_tags refCol) ;;
      refTableName <- tableName (refTable_name refCol) (refTable_tags refCol) ;;
      let refTableName :=
        match refTable_parent refCol with
        | OwnerDiagram diagramTags _ =>
            let prefix := stringTag "prefix" diagramTags in
            prefix ++ refTableName
        | _ => refTableName
        end in
      refSchemaName <- schemaName (refTable_parent refCol) ;;
      ret (push refs ("ALTER TABLE " ++ table ++ " ADD CONSTRAINT FK_" ++ tblName
                    ++ "__" ++ colName ++ " FOREIGN KEY (" ++ colName
                    ++ ") REFERENCES " ++ refSchemaName ++ "." ++ refTableName
                    ++ "(" ++ refColName ++ ");"))
  end.

Definition writeForeignKeyIndex (table : string) (w : CodeWriter)
    (foreignKey : string) : CodeWriter :=
  let w := writeLine ("CREATE INDEX ON " ++ table) w in
  let w := indent w in
  let w := writeLine ("(" ++ foreignKey ++ ");") w in
  outdent w.

Definition writeForeignKeyIndexes (table : string) (foreignKeys : list string)
    (w : CodeWriter) : CodeWriter :=
  match foreignKeys with
  | [] => w
  | _ => writeEmpty (fold_left (writeForeignKeyIndex table) foreignKeys w)
  end.

Definition writeTableComment (options : Options) (table : string)
    (documentation : option string) (w : CodeWriter) : CodeWriter :=
  match documentation with
  | Some d =>
      if truthy d && negb (opt_tableInserts options) then
        let w := writeLine ("COMMENT ON TABLE " ++ table) w in
        let w := indent w in
        let w := writeLine ("IS " ++ asComment d ++ ";") w in
        outdent w
      else w
  | None => w
  end.

Definition writeColumnComment (table : string) (w : CodeWriter)
    (comment : Comment) : CodeWriter :=
  let w := writeLine ("COMMENT ON COLUMN " ++ table ++ "." ++ cm_col comment) w in
  let w := indent w in
  let w := writeLine ("IS " ++ cm_doc comment ++ ";") w in
  outdent w.

Definition isTrigger (options : Options) (t : Tag) : option TagRef :=
  match tag_kind t, tag_reference t with
  | TK_REFERENCE, Some r =>
      match ref_reference r with
      | Some n => if String.eqb n (opt_trigger options) then Some r else None
      | None => None
      end
  | _, _ => None
  end.

Definition writeTrigger (options : Options) (tableName table : string)
    (w : CodeWriter) (t : Tag) : M CodeWriter :=
  match isTrigger options t with
  | Some r =>
      rn <- routineName t ;;
      let w := writeLine ("CREATE TRIGGER " ++ tableName ++ "_" ++ rn ++ "  "
                          ++ ref_value r ++ " ON " ++ table) w in
      let w := indent w in
      let w := writeLine (tag_value t) w in
      let w := writeEmpty w in
      let w := writeEmpty w in
      ret (outdent w)
  | None => ret w
  end.

(** The seed inserts. [insertColumns] is the loop that appends the
    column names to [insertInto]. *)
Definition insertColumns (insertInto : string) (columns : list Column)
  : M string :=
  r <- forEach (fun (st : string * nat) col =>
                  let (insertInto, idx) := st in
                  column <- columnName (col_name col) (col_tags col) ;;
                  ret (insertInto ++ column
                       ++ (if (idx <? List.length columns - 1)%nat then ","
                           else ""),
                       S idx))
               columns (insertInto, 0%nat) ;;
  ret (fst r).

(** [for (var i = 0; i < colLength; i++)], with [n] iterations left. *)
Fixpoint insertValues (insertData : list string) (colLength i n : nat)
    (insertIntoLine : string) : string :=
  match n with
  | O => insertIntoLine
  | S n' =>
      let insertIntoLine :=
        match nth_error insertData i with
        | Some d => if truthy d then insertIntoLine ++ " '" ++ d ++ "' "
                    else insertIntoLine ++ " null "
        | None => insertIntoLine ++ " null "
        end in
      let insertIntoLine :=
        if (i <? colLength - 1)%nat then insertIntoLine ++ "," else insertIntoLine in
      insertValues insertData colLength (S i) n' insertIntoLine
  end.

Definition pipe : ascii := "|"%char.
Definition newline : ascii := ascii_of_nat 10.

Definition insertLine (insertInto : string) (colLength : nat) (e : string)
  : string :=
  let insertData := split pipe e in
  insertValues insertData colLength 0 colLength insertInto ++ " ); ".

Definition writeInsert (insertInto : string) (colLength : nat) (w : CodeWriter)
    (e : string) : CodeWriter :=
  writeEmpty (writeLine (insertLine insertInto colLength e) w).

Definition generateInserts (options : Options) (table : string) (elem : Entity)
    (w : CodeWriter) : M CodeWriter :=
  if opt_tableInserts options then
    match ent_documentation elem with
    | None =>
        throw (TypeError "Cannot read properties of undefined (reading 'trim')")
    | Some documentation =>
        let text := trim documentation in
        if (0 <? String.length text)%nat then
          let w := writeEmpty w in
          let insertInto := "INSERT INTO " ++ table ++ " (" in
          let colLength := List.length (ent_columns elem) in
          insertInto <- insertColumns insertInto (ent_columns elem) ;;
          let insertInto := insertInto ++ " ) VALUES ( " in
          let insertLines := split newline text in
          let w := fold_left (writeInsert insertInto colLength) insertLines w in
          ret (writeEmpty w)
        else ret w
    end
  else ret w.

(** What [generateTable] leaves: the buffers, and the entity's columns
    as the two loops rewrote them. *)
Record Generated := {
  buffers : Buffers;
  columnsAfter : list Column
}.

Definition generateTable (b : Buffers) (elem : Entity) (options : Options)
    (schema prefix : string) : M Generated :=
  name <- tableName (ent_name elem) (ent_tags elem) ;;
  let tblName := prefix ++ name in
  let table := schema ++ "." ++ tblName in
  (* create enums *)
  en <- forEach (createEnum table) (ent_columns elem)
          {| en_writer := codeWriter b; en_drop := []; en_columns := [] |} ;;
  (* Table *)
  let cw := writeLine ("CREATE TABLE " ++ table ++ " (") (en_writer en) in
  let cw := indent cw in
  let dw := writeLine ("DROP TABLE IF EXISTS " ++ table ++ " CASCADE;")
                      (dropWriter b) in
  let dw := fold_left (fun w l => writeLine l w) (en_drop en) dw in
  (* Columns *)
  sc <- forEach (scanColumn options) (en_columns en) emptyScan ;;
  (* Primary Keys, Write lines *)
  let cw := writeBody (withPrimaryKey sc) cw in
  let cw := outdent cw in
  let cw := writeLine ");" cw in
  let cw := writeEmpty cw in
  let cw := writeUniques table (uniques sc) cw in
  refs' <- forEach (pushForeignKey table tblName) (foreignKeyCtr sc) (refs b) ;;
  let cw := writeForeignKeyIndexes table (foreignKeys sc) cw in
  cw <- writeUserIndexes cw table elem ;;
  let cw := writeTableComment options table (ent_documentation elem) cw in
  let cw := fold_left (writeColumnComment table) (comments sc) cw in
  cw <- forEach (writeTrigger options tblName table) (ent_tags elem) cw ;;
  cw <- generateInserts options table elem cw ;;
  let cw := if negb (truthy_opt (ent_documentation elem))
               && match comments sc with [] => true | _ => false end
            then cw else writeEmpty cw in
  ret {| buffers := {| codeWriter := cw; dropWriter := dw; refs := refs' |};
         columnsAfter := scanned sc |}.

(** *** generateDatabase

    Returns its boolean and the element, on which it may have written
    a database annotation. *)
Definition with_tags (elem : Root) (tags : list Tag) : Root :=
  {| root_isProject := root_isProject elem; root_name := root_name elem;
     root_author := root_author elem;
     root_documentation := root_documentation elem; root_tags := tags;
     root_ownedElements := root_ownedElements elem |}.

Definition generateDatabase (elem : Root) (path : string) (options : Options)
  : M (bool * Root) :=
  if root_isProject elem then
    let tag := codegen.tag "database" (root_tags elem) in
    let has_tag := match tag with Some _ => true | None => false end in
    let dbName := match tag with Some t => tag_value t | None => "" end in
    let dbName := if truthy dbName then dbName
                  else replaceAll (root_name elem) space underscore in
    let elem' :=
      if negb has_tag && negb (isValidIdentifier (root_name elem))
      then with_tags elem (addStringTag "database" (root_tags elem)
                                        (toLowerCase dbName))
      else elem in
    let elem' :=
      if negb has_tag
      then with_tags elem' (addStringTag "database" (root_tags elem')
                                         (toLowerCase dbName))
      else elem' in
    if negb (isValidIdentifier dbName) then
      emit (ToastWarning ("Database name is not valid: " ++ dbName
                          ++ ", please edit the database tag for "
                          ++ root_name elem)) ;;;
      ret (false, elem')
    else
      let w := newCodeWriter (getIndentString options) in
      let w := writeLine ("-- Database: " ++ root_name elem) w in
      let w := writeLine ("-- Author: " ++ root_author elem) w in
      let w := writeLine ("CREATE DATABASE " ++ toLowerCase dbName) w in
      let w := indent w in
      let w := writeLine ("WITH OWNER = " ++ opt_owner options) w in
      let w := indent w in
      let w := writeLine ("ENCODING = '" ++ opt_encoding options ++ "'") w in
      let w := writeLine ("TABLESPACE = " ++ opt_tablespace options) w in
      let collation := opt_collation options in
      let w := if negb (String.eqb collation "default") then
                 writeLine ("LC_CTYPE = '" ++ collation ++ "'")
                   (writeLine ("LC_COLLATE = '" ++ collation ++ "'") w)
               else w in
      let w := writeLine "CONNECTION LIMIT = -1;" w in
      let w := outdent w in
      let w := outdent w in
      let w := match root_documentation elem with
               | Some d =>
                   if truthy d then
                     let w := writeEmpty w in
                     let w := writeLine ("COMMENT ON DATABASE "
                                         ++ toLowerCase dbName) w in
                     let w := indent w in
                     writeLine ("IS " ++ asComment d ++ ";") w
                   else w
               | None => w
               end in
      emit (WriteFile (path ++ "/db_create.sql") (getData w)) ;;;
      let w := newCodeWriter (getIndentString options) in
      let w := writeLine ("DROP DATABASE " ++ toLowerCase dbName ++ ";") w in
      (if opt_dropStatements options
       then emit (WriteFile (path ++ "/db_drop.sql") (getData w))
       else ret tt) ;;;
      ret (true, elem')
  else
    emit (ToastError
            "No project found, database DDL generator expects a main project") ;;;
    ret (false, elem).

(** *** generateFunctions, generateProcedures *)

Definition isRoutine (marker : string) (t : Tag) : bool :=
  match tag_kind t, tag_reference t with
  | TK_REFERENCE, Some r => String.eqb (ref_name r) marker
  | _, _ => false
  end.

Definition writeRoutine (what marker : string) (st : CodeWriter * CodeWriter)
    (t : Tag) : M (CodeWriter * CodeWriter) :=
  let (cw, dw) := st in
  if isRoutine marker t then
    emit (ToastInfo ("Generate " ++ toLowerCase what ++ " DDL for "
                     ++ tag_name t)) ;;;
    let cw := writeEmpty cw in
    let cw := writeEmpty cw in
    let cw := writeLine ("CREATE OR REPLACE " ++ what ++ " " ++ tag_name t ++ " ") cw in
    let cw := writeLine (tag_value t) cw in
    let dw := writeLine ("DROP " ++ what ++ " IF EXISTS " ++ tag_name t
                         ++ " () CASCADE;") dw in
    ret (cw, dw)
  else ret (cw, dw).

(** The tail both routine generators and the table generators share:
    the create file, and the drop file when drop scripts are wanted. *)
Definition writeFiles (options : Options) (create drop : string)
    (cw dw : CodeWriter) : M unit :=
  emit (WriteFile create (getData cw)) ;;;
  if opt_dropStatements options then emit (WriteFile drop (getData dw))
  else ret tt.

Definition generateRoutines (what marker suffix : string) (elem : DataModel)
    (path : string) (options : Options) (dataModelName : string) : M bool :=
  let cw := newCodeWriter (getIndentString options) in
  let dw := newCodeWriter (getIndentString options) in
  st <- forEach (writeRoutine what marker) (dm_tags elem) (cw, dw) ;;
  (if hasContent (fst st) then
     writeFiles options
       (path ++ "/" ++ dataModelName ++ "_" ++ suffix ++ "_create.sql")
       (path ++ "/" ++ dataModelName ++ "_" ++ suffix ++ "_drop.sql")
       (fst st) (snd st)
   else ret tt) ;;;
  ret true.

Definition generateFunctions (elem : DataModel) (path : string)
    (options : Options) (schema dataModelName : string) : M bool :=
  generateRoutines "FUNCTION" (opt_function options) "function"
                   elem path options dataModelName.

Definition generateProcedures (elem : DataModel) (path : string)
    (options : Options) (schema dataModelName : string) : M bool :=
  generateRoutines "PROCEDURE" (opt_procedure options) "procedure"
                   elem path options dataModelName.

(** *** generateTables *)

(** What lives across the iterations over a data model's owned
    elements: the flat group's writers, [refs] and [tableRefs]. *)
Record TablesState := {
  tableCodeWriter : CodeWriter;
  tableDropWriter : CodeWriter;
  diagramRefs : list string;
  tableRefs : list string
}.

(** The callback of [diagram.ownedElements.forEach]. [generateTable]
    returns nothing, so the callback's [return false] is always taken
    and only ends that call. *)
Definition generateDiagramEntity (options : Options) (schema prefix : string)
    (b : Buffers) (entity : Entity) : M Buffers :=
  emit (ToastInfo ("Generate table DDL for " ++ ent_name entity)) ;;;
  g <- generateTable b entity options schema prefix ;;
  ret (buffers g).

Definition generateTablesElement (path : string) (options : Options)
    (schema dataModelName : string) (st : TablesState)
    (diagram : DataModelElement) : M TablesState :=
  match diagram with
  | OwnedDiagram diagram =>
      let cw := newCodeWriter (getIndentString options) in
      let dw := newCodeWriter (getIndentString options) in
      let prefix := stringTag "prefix" (dia_tags diagram) in
      b <- forEach (generateDiagramEntity options schema prefix)
             (dia_ownedElements diagram)
             {| codeWriter := cw; dropWriter := dw; refs := diagramRefs st |} ;;
      (* add the references *)
      let cw := fold_left (fun w r => writeLine r w) (refs b) (codeWriter b) in
      (if hasContent cw then
         let diagName := toLowerCase (replaceAll (dia_name diagram) space underscore) in
         writeFiles options
           (path ++ "/" ++ dataModelName ++ "_" ++ diagName ++ "_create.sql")
           (path ++ "/" ++ dataModelName ++ "_" ++ diagName ++ "_drop.sql")
           cw (dropWriter b)
       else ret tt) ;;;
      ret {| tableCodeWriter := tableCodeWriter st;
             tableDropWriter := tableDropWriter st;
             diagramRefs := refs b; tableRefs := tableRefs st |}
  | OwnedEntity entity =>
      emit (ToastInfo ("Generate table DDL for " ++ ent_name entity)) ;;;
      g <- generateTable {| codeWriter := tableCodeWriter st;
                            dropWriter := tableDropWriter st;
                            refs := tableRefs st |}
                         entity options schema "" ;;
      ret {| tableCodeWriter := codeWriter (buffers g);
             tableDropWriter := dropWriter (buffers g);
             diagramRefs := diagramRefs st; tableRefs := refs (buffers g) |}
  | OwnedOther => ret st
  end.

Definition generateTables (elem : DataModel) (path : string)
    (options : Options) (schema dataModelName : string) : M bool :=
  st <- forEach (generateTablesElement path options schema dataModelName)
          (dm_ownedElements elem)
          {| tableCodeWriter := newCodeWriter (getIndentString options);
             tableDropWriter := newCodeWriter (getIndentString options);
             diagramRefs := []; tableRefs := [] |} ;;
  (if hasContent (tableCodeWriter st) then
     let cw := fold_left (fun w r => writeLine r w) (tableRefs st)
                         (tableCodeWriter st) in
     writeFiles options
       (path ++ "/" ++ dataModelName ++ "_table_create.sql")
       (path ++ "/" ++ dataModelName ++ "_table_drop.sql")
       cw (tableDropWriter st)
   else ret tt) ;;;
  ret true.

(** *** generateSchema *)

Record SchemaState := {
  schemaWriter : CodeWriter;
  schemaDropWriter : CodeWriter;
  schemas : list string
}.

Definition generateSchemaElement (path : string) (options : Options)
    (st : SchemaState) (e : RootElement) : M SchemaState :=
  match e with
  | OwnedDataModel e =>
      name <- schemaName (OwnerDataModel (dm_tags e)) ;;
      let schema := toLowerCase name in
      let dataModelName := toLowerCase (replaceAll (dm_name e) space underscore) in
      generateFunctions e path options schema dataModelName ;;;
      generateProcedures e path options schema dataModelName ;;;
      generateTables e path options schema dataModelName ;;;
      if negb (String.eqb schema "public")
         && negb (existsb (String.eqb schema) (schemas st))
      then
        let w := writeLine ("-- Schema for: " ++ dm_name e) (schemaWriter st) in
        let w := writeLine ("CREATE SCHEMA " ++ schema) w in
        let w := indent w in
        let w := writeLine ("AUTHORIZATION " ++ opt_owner options ++ ";") w in
        let w := outdent w in
        let w := match dm_documentation e with
                 | Some d =>
                     if truthy d then
                       let w := writeEmpty w in
                       let w := writeLine ("COMMENT ON SCHEMA " ++ schema) w in
                       let w := indent w in
                       let w := writeLine ("IS " ++ asComment d ++ ";") w in
                       outdent w
                     else w
                 | None => w
                 end in
        ret {| schemaWriter := w;
               schemaDropWriter := writeLine ("DROP SCHEMA " ++ schema ++ ";")
                                             (schemaDropWriter st);
               schemas := push (schemas st) schema |}
      else ret st
  | OwnedElse => ret st
  end.

Definition generateSchema (elem : Root) (path : string) (options : Options)
  : M bool :=
  st <- forEach (generateSchemaElement path options) (root_ownedElements elem)
          {| schemaWriter := newCodeWriter (getIndentString options);
             schemaDropWriter := newCodeWriter (getIndentString options);
             schemas := [] |} ;;
  (if hasContent (schemaWriter st) then
     writeFiles options (path ++ "/schema_create.sql")
                (path ++ "/schema_drop.sql")
                (schemaWriter st) (schemaDropWriter st)
   else ret tt) ;;;
  ret true.

(** *** generate *)

(** [try { ... } catch (ex) { ... }]. *)
Definition try_catch (body : M unit) (handler : Exn -> M unit) : M unit :=
  match body with
  | (Normal a, ev) => (Normal a, ev)
  | (Throw ex, ev) => let (r, ev') := handler ex in (r, (ev ++ ev')%list)
  end.

Definition generate (elem : Root) (path : string) (options : Options) : M unit :=
  try_catch
    (r <- generateDatabase elem path options ;;
     (if fst r then emit (ToastInfo "Database creation files completed.")
      else ret tt) ;;;
     generateSchema (snd r) path options ;;;
     emit (InfoDialog ("Project DDL files generated in " ++ path)))
    (fun ex => emit (ErrorDialog ex) ;;; emit (ConsoleLog ex)).

End Generator.
End DDLGenerator.

Unset Implicit Arguments.

(* ================================================================== *)
(** ** Definitions the statements use *)

Import JS codegen Model DDLGenerator.

Definition integer_kinds : list (string * (string * string)) :=
[ ("INTEGER", ("integer", "serial"));
  ("SMALLINT", ("smallint", "smallserial"));
  ("BIGINT", ("bigint", "bigserial")) ].

Definition auto_increment (s : string) : bool :=
existsb (String.eqb s) ["serial"; "smallserial"; "bigserial"].

Definition occurs (pat s : string) : Prop :=
exists pre post, s = pre ++ pat ++ post.

Definition not_null_clause (elem : Column) : string :=
if col_primaryKey elem || negb (col_nullable elem) then " NOT NULL" else "".

Definition outcome {A} (m : M A) : Outcome A := fst m.

Definition events {A} (m : M A) : list Event := snd m.

Definition resolved (m : M string) : string :=
match outcome m with Normal v => v | Throw _ => "" end.

Definition colName (c : Column) : string :=
resolved (columnName (col_name c) (col_tags c)).

Definition named (c : Column) : bool := truthy (colName c).

Definition primary_key_names (cols : list Column) : list string :=
List.map colName (filter (fun c => named c && col_primaryKey c) cols).

Definition unique_names (cols : list Column) : list string :=
List.map colName
  (filter (fun c => named c && negb (col_primaryKey c) && col_unique c) cols).

Definition string_typed (c : Column) : bool :=
match dataType c with Normal (VString _) => true | _ => false end.

Definition well_typed (elem : Entity) : bool :=
forallb string_typed (ent_columns elem).

Definition extends (w w' : CodeWriter) : Prop :=
indentString w' = indentString w /\ indentations w' = indentations w
/\ exists rest, codegen.lines w' = (codegen.lines w ++ rest)%list.

(** A type with a dot in it, as the name of an enum type has. *)
Definition has_dot (s : string) : bool :=
  negb (all_chars (fun c => negb (Ascii.eqb c "."%char)) s).

(** A column with a reference target. *)
Definition has_reference (c : Column) : Prop := col_referenceTo c <> None.

(** Lines 306-346 of the source, on the create buffer. *)
Definition tableStatement (table : string) (body : list string)
    (w : CodeWriter) : CodeWriter :=
  writeEmpty
    (writeLine ");"
       (outdent (writeBody body
                   (indent (writeLine ("CREATE TABLE " ++ table ++ " (") w))))).

Definition qualifiedName (elem : Entity) (schema prefix : string) : string :=
  schema ++ "." ++ prefix ++ resolved (tableName (ent_name elem) (ent_tags elem)).

Definition seedable (options : Options) (elem : Entity) : bool :=
  negb (opt_tableInserts options)
  || match ent_documentation elem with Some _ => true | None => false end.

(** A field of a seed row as the spec words it: quoted when present
    and non-empty, [null] when missing. *)
Definition value_sql (field : option string) : string :=
  match field with
  | Some v => if truthy v then " '" ++ v ++ "' " else " null "
  | None => " null "
  end.

(** One seed row as the spec words it: the fields of the line, split
    at the pipes, taken by column position. *)
Definition insert_row (table : string) (columns : list Column) (e : string)
  : string :=
  "INSERT INTO " ++ table ++ " (" ++ join "," (List.map colName columns)
  ++ " ) VALUES ( "
  ++ join "," (List.map (fun i => value_sql (nth_error (split pipe e) i))
                        (seq 0 (List.length columns)))
  ++ " ); ".

Definition names_so_far (n : nat) (pre : list Column) : string :=
  match pre with
  | [] => ""
  | _ => join "," (List.map colName pre)
         ++ if (List.length pre <? n)%nat then "," else ""
  end.

(** *** The lines of the table statement and of the unique constraint *)
Fixpoint commas (lines : list string) : list string :=
  match lines with
  | [] => []
  | [l] => [l]
  | l :: r => (l ++ ",") :: commas r
  end.

Definition primary_key_clause (margin : string) (names : list string)
: list string :=
match names with
| [] => []
| _ => [margin ++ "PRIMARY KEY (" ++ join ", " names ++ ")"]
end.

Definition unique_statement (margin indentString table : string)
  (names : list string) : list string :=
match names with
| [] => []
| _ => [margin ++ "ALTER TABLE " ++ table;
        margin ++ indentString ++ "ADD UNIQUE (" ++ join ", " names ++ ");";
        ""]
end.

Definition requestedName (c : Column) : string :=
let v := match tag "column" (col_tags c) with
         | Some t => tag_value t
         | None => ""
         end in
if truthy v then v else replaceAll (col_name c) space underscore.

Definition throws {A} (m : M A) : Prop := exists ex, outcome m = Throw ex.

(** The lines of the create buffer a call of [generateTable] returns. *)
Definition createLines (m : M Generated) : option (list string) :=
  match outcome m with
  | Normal g => Some (codegen.lines (codeWriter (buffers g)))
  | Throw _ => None
  end.

(** *** Further definitions *)

(** The types whose length is written in parentheses, with their
    spelling. *)
Definition length_kinds : list (string * string) :=
  [ ("VARCHAR", "varchar"); ("CHAR", "char"); ("DECIMAL", "numeric");
    ("NUMERIC", "numeric"); ("BIT", "bit") ].

(** The diagnostic of a rejected routine name. *)
Definition routineError (name : string) : Event :=
  ToastError ("Routine name is not valid: " ++ name
              ++ ", please edit the name for " ++ name).

Definition referenceTag (name : string) (value : string) (target : string) : Tag :=
  {| tag_name := name; tag_kind := TK_REFERENCE; tag_value := value;
     tag_reference := Some {| ref_name := target; ref_value := "";
                              ref_reference := None |};
     tag_checked := false; tag_number := 0 |}.

(** The order of an index group after its sort. *)
Definition by_seq (a b : IdxDef) : Prop := (idx_seq a <= idx_seq b)%Z.

(** The definitions of one index name. *)
Definition named_like (key : string) (d : IdxDef) : bool :=
  String.eqb (idx_idxName d) key.

(** What the reduce of [writeUserIndexes] builds from the definitions
    [l]: one property per index name, holding the definitions of that
    name in their order. *)
Definition groups_of (l : list IdxDef) (acc : PropArray) : Prop :=
  NoDup (List.map fst acc)
  /\ (forall k o, In (k, o) acc -> o <> [] /\ o = filter (named_like k) l)
  /\ (forall d, In d l -> In (idx_idxName d) (List.map fst acc)).

Definition ends_with (suffix s : string) : Prop := exists p, s = p ++ suffix.

(** What a generator may leave on the host's sinks: notifications, and
    files whose name ends in [_create.sql] or, when drop scripts are
    wanted, in [_drop.sql]; never a dialog. *)
Definition generator_event (drop : bool) (e : Event) : Prop :=
  match e with
  | ToastInfo _ | ToastWarning _ | ToastError _ => True
  | WriteFile f _ =>
      ends_with "_create.sql" f \/ (drop = true /\ ends_with "_drop.sql" f)
  | InfoDialog _ | ErrorDialog _ | ConsoleLog _ => False
  end.

(** A diagnostic: a warning or an error notification. *)
Definition diagnostic (e : Event) : Prop :=
  match e with
  | ToastWarning _ | ToastError _ => True
  | _ => False
  end.

Definition all_events {A} (P : Event -> Prop) (m : M A) : Prop :=
  Forall P (events m).

(** The lines one routine adds to the create buffer, and its line of
    the drop buffer. *)
Definition routineText (what : string) (t : Tag) : list string :=
  [ ""; ""; "CREATE OR REPLACE " ++ what ++ " " ++ tag_name t ++ " "; tag_value t ].

Definition routineDrop (what : string) (t : Tag) : string :=
  "DROP " ++ what ++ " IF EXISTS " ++ tag_name t ++ " () CASCADE;".

(** What a routine generator leaves on the sinks for the routines [rs]
    it found. *)
Definition routineEvents (what suffix path dataModelName : string)
    (drop : bool) (rs : list Tag) : list Event :=
  (List.map (fun t => ToastInfo ("Generate " ++ toLowerCase what ++ " DDL for "
                                 ++ tag_name t)) rs
   ++ match rs with
      | [] => []
      | _ =>
          WriteFile (path ++ "/" ++ dataModelName ++ "_" ++ suffix ++ "_create.sql")
                    (join nl (flat_map (routineText what) rs))
          :: (if drop
              then [WriteFile (path ++ "/" ++ dataModelName ++ "_" ++ suffix
                               ++ "_drop.sql")
                              (join nl (List.map (routineDrop what) rs))]
              else [])
      end)%list.

(** Whether the scan queues a column for a deferred constraint. *)
Definition referencing (options : Options) (c : Column) : bool :=
  named c && opt_foreignKeyConstraint options
  && match col_referenceTo c with Some _ => true | None => false end.

(** The table a reference points to, with the prefix of the diagram
    that owns it. *)
Definition referencedTable (r : Reference) : string :=
  match refTable_parent r with
  | OwnerDiagram diagramTags _ => stringTag "prefix" diagramTags
  | _ => ""
  end ++ resolved (tableName (refTable_name r) (refTable_tags r)).

(** The deferred constraint of a column. *)
Definition foreignKeyStatement (table tblName : string) (c : Column)
  : list string :=
  match col_referenceTo c with
  | Some r =>
      [ "ALTER TABLE " ++ table ++ " ADD CONSTRAINT FK_" ++ tblName ++ "__"
        ++ colName c ++ " FOREIGN KEY (" ++ colName c ++ ") REFERENCES "
        ++ resolved (schemaName (refTable_parent r)) ++ "."
        ++ referencedTable r ++ "("
        ++ resolved (columnName (refCol_name r) (refCol_tags r)) ++ ");" ]
  | None => []
  end.

(** The allowed literals of an enum column: the value of the annotation
    named like its type when that type reads [enum], in any case. *)
Definition enumValues (c : Column) : string :=
  match dataType c with
  | Normal (VString t) =>
      if String.eqb (toLowerCase t) "enum" then stringTag t (col_tags c) else ""
  | _ => ""
  end.

Definition isEnum (c : Column) : bool := truthy (enumValues c).

Definition enumType (table : string) (c : Column) : string :=
  table ++ "_" ++ colName c.

Definition dropType (table : string) (c : Column) : string :=
  "DROP TYPE " ++ enumType table c ++ " CASCADE;".

(** The two statements that declare an enum type. *)
Definition enumStatement {Q : Quoting} (table : string) (c : Column)
  : list string :=
  [ "CREATE TYPE " ++ enumType table c ++ " AS ENUM("
    ++ enumAsList (enumValues c) ++ ");" ++ nl;
    "CREATE CAST (CHARACTER VARYING AS " ++ enumType table c
    ++ ") WITH INOUT AS IMPLICIT;" ++ nl ].

(** The data models among the elements a root owns. *)
Definition dataModels (els : list RootElement) : list DataModel :=
  flat_map (fun e => match e with
                     | OwnedDataModel m => [m]
                     | OwnedElse => []
                     end) els.

(** The schema of a data model, as [generateSchema] spells it. *)
Definition schemaOf (m : DataModel) : string :=
  toLowerCase (resolved (schemaName (OwnerDataModel (dm_tags m)))).

Definition dropSchema (schema : string) : string :=
  "DROP SCHEMA " ++ schema ++ ";".

Definition noSchemas (options : Options) : SchemaState :=
  {| schemaWriter := newCodeWriter (getIndentString options);
     schemaDropWriter := newCodeWriter (getIndentString options);
     schemas := [] |}.

(** A column as a run of [generateTable] leaves it: a column whose name
    resolves ends with the type [enum] when it is an enum or carries
    the marker of an earlier run; one whose name does not resolve keeps
    the name of the enum type the first loop gave it. *)
Definition afterRun (table : string) (c : Column) : Column :=
  if named c then
    if isEnum c || col_is_enum c then set_type c "enum" true else c
  else
    if isEnum c then set_type c (enumType table c) true else c.

(** The schema annotation that answers for an element: that of the
    data model it is, or of the data model a diagram is part of; empty
    when there is no such data model. *)
Definition schemaAnnotation (elem : Owner) : string :=
  match elem with
  | OwnerDiagram _ (Some tags) | OwnerDataModel tags => stringTag "schema" tags
  | _ => ""
  end.

(** The annotation [generateDatabase] adds to a project. *)
Definition databaseTag (v : string) : Tag :=
  {| tag_name := "database"; tag_kind := TK_STRING; tag_value := v;
     tag_reference := None; tag_checked := false; tag_number := 0 |}.

(** The name [generateDatabase] derives from the name of a project. *)
Definition derivedName (elem : Root) : string :=
  toLowerCase (replaceAll (root_name elem) space underscore).

(** Neither a dialog nor a log entry. *)
Definition silent (e : Event) : Prop :=
  match e with
  | InfoDialog _ | ErrorDialog _ | ConsoleLog _ => False
  | _ => True
  end.

(** *** The script of a table

    What [generateTable] appends to the create buffer, part by part, for
    the margin [m] and the indentation unit [i] of the buffer. *)

(** The names of the index annotations of an entity. *)
Definition index_names (elem : Entity) : list string :=
  flat_map (fun c => List.map tag_name (tagsByValue "index" (col_tags c)))
           (ent_columns elem).

(** A name under which an empty array has or inherits something. *)
Definition inherited_name (key : string) : bool :=
  String.eqb key "length" || String.eqb key "__proto__"
  || existsb (String.eqb key) arrayMembers.

(** No index annotation of the entity is named like something an array
    has of its own accord. *)
Definition plain_indexes (elem : Entity) : bool :=
  forallb (fun key => negb (inherited_name key)) (index_names elem).

(** The index definitions of an entity, column by column. *)
Definition index_definitions (elem : Entity) : list IdxDef :=
  flat_map (fun c => idxDefs_of_tags (colName c)
                       (tagsByValue "index" (col_tags c)))
           (ent_columns elem).

Fixpoint insertKey (k : N) (l : list N) : list N :=
  match l with
  | [] => [k]
  | h :: r => if (k <? h)%N then k :: h :: r
              else if (k =? h)%N then h :: r
              else h :: insertKey k r
  end.

(** The index names that are array indices, each once, in increasing
    order. *)
Definition index_keys (elem : Entity) : list N :=
  fold_right insertKey []
    (flat_map (fun key => match array_index key with
                          | Some n => [n]
                          | None => []
                          end) (index_names elem)).

(** The definitions of the index named by the array index [k]. *)
Definition index_group (elem : Entity) (k : N) : list IdxDef :=
  filter (fun d => match array_index (idx_idxName d) with
                   | Some n => (n =? k)%N
                   | None => false
                   end) (index_definitions elem).

Definition key_name (k : N) : string :=
  NilZero.string_of_uint (N.to_uint k).

(** The statement of one index: its columns by sequence number. *)
Definition indexStatement (m i table : string) (k : N) (o : list IdxDef)
  : list string :=
  [ m ++ " -- Index: " ++ key_name k;
    m ++ "CREATE INDEX ON " ++ table;
    m ++ i ++ "("
      ++ join ", " (List.map (fun d => if idx_desc d
                                       then idx_column d ++ " DESC"
                                       else idx_column d) (sortBySeq o))
      ++ ");" ].

(** What the type mapper answers for a column. *)
Definition typeText (c : Column) : string :=
  match dataType c with
  | Normal (VString t) => t
  | _ => ""
  end.

(** The type a column is declared with: the enum type created for it,
    or what the type mapper answers. *)
Definition columnType (table : string) (c : Column) : string :=
  if isEnum c then enumType table c else typeText c.

(** The declaration of a column of the type [t]. *)
Definition declare (c : Column) (t : string) : string :=
  colName c ++ " " ++ t ++ not_null_clause c
  ++ if (indexOf t "serial" =? -1)%Z then columnDefault c else "".

Definition declaration (table : string) (c : Column) : string :=
  declare c (columnType table c).

(** An enum column as the first loop of [generateTable] leaves it. *)
Definition rewritten (table : string) (c : Column) : Column :=
  if isEnum c then set_type c (enumType table c) true else c.

(** A column as [columnDeclaration] leaves it. *)
Definition restored (c : Column) : Column :=
  if named c && col_is_enum c then set_type c "enum" true else c.

(** The comment [columnDeclaration] queues for a column. *)
Definition comment_of {Q : Quoting} (c : Column) : list Comment :=
  match col_documentation c with
  | Some d => if truthy d
              then [{| cm_col := colName c; cm_doc := asComment d |}]
              else []
  | None => []
  end.

Definition enumPart {Q : Quoting} (m table : string) (cols : list Column)
  : list string :=
  List.map (fun l => m ++ l)
           (flat_map (enumStatement table) (filter isEnum cols)).

(** The lines between the parentheses of the table statement, before
    the commas are added. *)
Definition tableBody (table : string) (cols : list Column) : list string :=
  (List.map (declaration table) (filter named cols)
   ++ primary_key_clause "" (primary_key_names cols))%list.

Definition tablePart (m i table : string) (cols : list Column) : list string :=
  ([(m ++ "CREATE TABLE " ++ table ++ " (")%string]
   ++ List.map (fun l => (m ++ i ++ l)%string) (commas (tableBody table cols))
   ++ [(m ++ ");")%string; ""])%list.

(** The columns that get an index of their own as foreign keys. *)
Definition foreign_key_names (cols : list Column) : list string :=
  List.map colName
    (filter (fun c => named c && negb (col_primaryKey c)
                      && negb (col_unique c) && col_foreignKey c) cols).

Definition foreignKeyIndexPart (m i table : string) (names : list string)
  : list string :=
  match names with
  | [] => []
  | _ => (flat_map (fun n => [(m ++ "CREATE INDEX ON " ++ table)%string;
                              (m ++ i ++ "(" ++ n ++ ");")%string]) names
          ++ [""])%list
  end.

Definition userIndexPart (m i table : string) (elem : Entity) : list string :=
  (flat_map (fun k => indexStatement m i table k (index_group elem k))
            (index_keys elem)
   ++ [""])%list.

Definition tableCommentPart {Q : Quoting} (m i table : string)
    (options : Options) (elem : Entity) : list string :=
  match ent_documentation elem with
  | Some d =>
      if truthy d && negb (opt_tableInserts options)
      then [m ++ "COMMENT ON TABLE " ++ table;
            m ++ i ++ "IS " ++ asComment d ++ ";"]
      else []
  | None => []
  end.

(** A column that gets a comment: its name resolves and it has a
    documentation. *)
Definition commented (c : Column) : bool :=
  named c && truthy_opt (col_documentation c).

Definition columnCommentPart {Q : Quoting} (m i table : string)
    (cols : list Column) : list string :=
  flat_map (fun c => [m ++ "COMMENT ON COLUMN " ++ table ++ "." ++ colName c;
                      m ++ i ++ "IS "
                        ++ asComment (match col_documentation c with
                                      | Some d => d
                                      | None => ""
                                      end) ++ ";"])
           (filter commented cols).

Definition triggerPart (m i table tblName : string) (options : Options)
    (tags : list Tag) : list string :=
  flat_map (fun t => match isTrigger options t with
                     | Some r =>
                         [m ++ "CREATE TRIGGER " ++ tblName ++ "_"
                            ++ resolved (routineName t) ++ "  "
                            ++ ref_value r ++ " ON " ++ table;
                          m ++ i ++ tag_value t; ""; ""]
                     | None => []
                     end) tags.

(** The seed rows: one statement and one empty line per line of the
    trimmed documentation, between two empty lines. *)
Definition insertPart (m table : string) (options : Options) (elem : Entity)
  : list string :=
  if opt_tableInserts options then
    match ent_documentation elem with
    | Some d =>
        if truthy (trim d)
        then ([""]
              ++ flat_map (fun e =>
                             [(m ++ insert_row table (ent_columns elem) e)%string;
                              ""])
                          (split newline (trim d))
              ++ [""])%list
        else []
    | None => []
    end
  else [].

Definition closingPart (elem : Entity) : list string :=
  if negb (truthy_opt (ent_documentation elem))
     && match filter commented (ent_columns elem) with
        | [] => true
        | _ => false
        end
  then [] else [""].

(** The unqualified name of the table. *)
Definition shortName (elem : Entity) (prefix : string) : string :=
  prefix ++ resolved (tableName (ent_name elem) (ent_tags elem)).

(** What follows the unique constraint. *)
Definition afterUniques {Q : Quoting} (m i schema prefix : string)
    (options : Options) (elem : Entity) : list string :=
  let table := qualifiedName elem schema prefix in
  (foreignKeyIndexPart m i table (foreign_key_names (ent_columns elem))
   ++ userIndexPart m i table elem
   ++ tableCommentPart m i table options elem
   ++ columnCommentPart m i table (ent_columns elem)
   ++ triggerPart m i table (shortName elem prefix) options (ent_tags elem)
   ++ insertPart m table options elem
   ++ closingPart elem)%list.

(** What follows the table statement. *)
Definition afterTable {Q : Quoting} (m i schema prefix : string)
    (options : Options) (elem : Entity) : list string :=
  (unique_statement m i (qualifiedName elem schema prefix)
                    (unique_names (ent_columns elem))
   ++ afterUniques m i schema prefix options elem)%list.

Definition tableScript {Q : Quoting} (m i schema prefix : string)
    (options : Options) (elem : Entity) : list string :=
  (enumPart m (qualifiedName elem schema prefix) (ent_columns elem)
   ++ tablePart m i (qualifiedName elem schema prefix) (ent_columns elem)
   ++ afterTable m i schema prefix options elem)%list.

(** The script up to the seed rows. *)
Definition beforeInserts {Q : Quoting} (m i schema prefix : string)
    (options : Options) (elem : Entity) : list string :=
  let table := qualifiedName elem schema prefix in
  (enumPart m table (ent_columns elem)
   ++ tablePart m i table (ent_columns elem)
   ++ unique_statement m i table (unique_names (ent_columns elem))
   ++ foreignKeyIndexPart m i table (foreign_key_names (ent_columns elem))
   ++ userIndexPart m i table elem
   ++ tableCommentPart m i table options elem
   ++ columnCommentPart m i table (ent_columns elem)
   ++ triggerPart m i table (shortName elem prefix) options (ent_tags elem))%list.

(** The declarations of the columns as they stand in the table
    statement: each is followed by a comma, but for the last when no
    primary key clause follows. *)
Definition declarationLines (m i table : string) (cols : list Column)
  : list string :=
  List.map (fun l => m ++ i ++ l)
    (match primary_key_names cols with
     | [] => commas (List.map (declaration table) (filter named cols))
     | _ => List.map (fun l => l ++ ",")
                     (List.map (declaration table) (filter named cols))
     end).

(** An entity on which [generateTable] returns: its columns map to
    types that are strings, it has a documentation when seed rows are
    wanted, and no index annotation of it is named like a member that
    arrays have of their own accord. *)
Definition generable (options : Options) (elem : Entity) : bool :=
  well_typed elem && seedable options elem && plain_indexes elem.

(** What [generateTable] appends to the drop buffer. *)
Definition dropScript (m schema prefix : string) (elem : Entity) : list string :=
  (m ++ "DROP TABLE IF EXISTS " ++ qualifiedName elem schema prefix ++ " CASCADE;")
  :: List.map (fun c => m ++ dropType (qualifiedName elem schema prefix) c)
              (filter isEnum (ent_columns elem)).

(** The deferred constraints [generateTable] pushes on [refs]. *)
Definition constraints (schema prefix : string) (options : Options)
    (elem : Entity) : list string :=
  flat_map (foreignKeyStatement (qualifiedName elem schema prefix)
                                (shortName elem prefix))
           (filter (referencing options) (ent_columns elem)).

(** [w'] is [w] with the lines [ls] appended. *)
Definition appends (w w' : CodeWriter) (ls : list string) : Prop :=
  codegen.lines w' = (codegen.lines w ++ ls)%list
  /\ indentString w' = indentString w
  /\ indentations w' = indentations w.

(** One seed row from its fields, taken by column position. *)
Definition insert_statement (table : string) (columns : list Column)
    (fields : list string) : string :=
  "INSERT INTO " ++ table ++ " (" ++ join "," (List.map colName columns)
  ++ " ) VALUES ( "
  ++ join "," (List.map (fun i => value_sql (nth_error fields i))
                        (seq 0 (List.length columns)))
  ++ " ); ".

(** A text of rows: the fields of a row joined by pipes, the rows by
    line feeds; no field holds a pipe or a line feed. *)
Definition has_char (c : ascii) (s : string) : bool :=
  negb (all_chars (fun x => negb (Ascii.eqb x c)) s).

Definition well_formed_rows (rows : list (list string)) : bool :=
  match rows with
  | [] => false
  | _ => forallb (fun fields =>
                    match fields with
                    | [] => false
                    | _ => forallb (fun f => negb (has_char pipe f)
                                             && negb (has_char newline f))
                                   fields
                    end) rows
  end.

Definition rows_text (rows : list (list string)) : string :=
  join nl (List.map (join "|") rows).

(** A quoting for the sample runs. *)
#[export] Instance sampleQuoting : Quoting :=
  {| asComment := fun s => "'" ++ s ++ "'"; enumAsList := fun s => s |}.

Definition sampleOptions (tableInserts : bool) : Options :=
  {| opt_useTab := false; opt_indentSpaces := 4; opt_owner := "postgres";
     opt_encoding := "UTF8"; opt_tablespace := "pg_default";
     opt_collation := "default"; opt_dropStatements := true;
     opt_foreignKeyConstraint := true; opt_tableInserts := tableInserts;
     opt_trigger := "trigger"; opt_function := "function";
     opt_procedure := "procedure" |}.

Definition column (name type : string) (length : option Z)
    (primaryKey unique : bool) (tags : list Tag) : Column :=
  {| col_name := name; col_type := type; col_length := length;
     col_primaryKey := primaryKey; col_nullable := true; col_unique := unique;
     col_foreignKey := false; col_referenceTo := None;
     col_documentation := None; col_tags := tags; col_is_enum := false |}.

Definition references (c : Column) (r : Reference) : Column :=
  {| col_name := col_name c; col_type := col_type c; col_length := col_length c;
     col_primaryKey := col_primaryKey c; col_nullable := col_nullable c;
     col_unique := col_unique c; col_foreignKey := true;
     col_referenceTo := Some r; col_documentation := col_documentation c;
     col_tags := col_tags c; col_is_enum := col_is_enum c |}.

Definition entity (name : string) (documentation : option string)
    (columns : list Column) : Entity :=
  {| ent_name := name; ent_documentation := documentation; ent_tags := [];
     ent_columns := columns |}.

Definition stringTagOf (name value : string) : Tag :=
  {| tag_name := name; tag_kind := TK_STRING; tag_value := value;
     tag_reference := None; tag_checked := false; tag_number := 0 |}.

(** An index annotation: the index name, the position and the
    descending flag. *)
Definition indexTag (name : string) (seq : Z) (desc : bool) : Tag :=
  {| tag_name := name; tag_kind := TK_STRING; tag_value := "index";
     tag_reference := None; tag_checked := desc; tag_number := seq |}.

Definition emptyBuffers : Buffers :=
  {| codeWriter := newCodeWriter "    "; dropWriter := newCodeWriter "    ";
     refs := [] |}.

(** Two diagrams of one data model; [order_item.order_id] references
    [orders.id]. *)
Definition ordersId : Reference :=
  {| refCol_name := "id"; refCol_tags := []; refTable_name := "orders";
     refTable_tags := []; refTable_parent := OwnerDiagram [] (Some []) |}.

Definition orderItem : Entity :=
  entity "order_item" (Some "")
    [ column "id" "INTEGER" (Some (-1)%Z) true false [];
      references (column "order_id" "INTEGER" None false false []) ordersId ].

Definition orders : Entity :=
  entity "orders" (Some "") [ column "id" "INTEGER" (Some (-1)%Z) true false [] ].

Definition product : Entity :=
  entity "product" (Some "") [ column "id" "INTEGER" (Some (-1)%Z) true false [] ].

Definition shop : DataModel :=
  {| dm_name := "Shop"; dm_documentation := Some ""; dm_tags := [];
     dm_ownedElements :=
       [ OwnedDiagram {| dia_name := "Orders"; dia_tags := [];
                         dia_ownedElements := [orderItem; orders] |};
         OwnedDiagram {| dia_name := "Catalog"; dia_tags := [];
                         dia_ownedElements := [product] |} ] |}.

(** Columns A(seq 2) and B(seq 1, descending) of one index. *)
Definition indexed (idxName : string) : Entity :=
  entity "t" (Some "")
    [ column "A" "INTEGER" None false false [indexTag idxName 2 false];
      column "B" "INTEGER" None false false [indexTag idxName 1 true] ].

Definition serialTyped : Column := column "n" "serial" None false false [].

Definition orderItemBang : Entity :=
  entity "Order Item!" (Some "") [ column "id" "INTEGER" None false false [] ].

Definition notAProject : Root :=
  {| root_isProject := false; root_name := "Model"; root_author := "";
     root_documentation := Some ""; root_tags := [];
     root_ownedElements :=
       [ OwnedDataModel {| dm_name := "Shop"; dm_documentation := Some "";
                           dm_tags := [];
                           dm_ownedElements := [OwnedEntity product] |} ] |}.

Definition badKey : Entity :=
  entity "account" (Some "")
    [ column "id!" "INTEGER" None true false [];
      column "name" "TEXT" None false false [] ].

Definition badUnique : Entity :=
  entity "account" (Some "")
    [ column "id" "INTEGER" None true false [];
      column "code!" "TEXT" None false true [] ].

Definition account : Entity :=
  entity "account" (Some "")
    [ column "id" "INTEGER" (Some (-1)%Z) true true [];
      column "email" "VARCHAR" (Some 80%Z) false true [];
      column "phone" "VARCHAR" (Some 20%Z) false true
             [stringTagOf "default" "'n/a'"] ].

Definition person (documentation : option string) : Entity :=
  entity "Person" documentation
    [ column "name" "VARCHAR" (Some 20%Z) false false [];
      column "age" "INTEGER" None false false [] ].

Definition seedText : string :=
  "Alice|30" ++ nl ++ "Bob|".

(** *** Sample inputs of the further properties *)

(** The sample options without the drop scripts. *)
Definition createOnly : Options :=
  {| opt_useTab := false; opt_indentSpaces := 4; opt_owner := "postgres";
     opt_encoding := "UTF8"; opt_tablespace := "pg_default";
     opt_collation := "default"; opt_dropStatements := false;
     opt_foreignKeyConstraint := true; opt_tableInserts := false;
     opt_trigger := "trigger"; opt_function := "function";
     opt_procedure := "procedure" |}.

(** A data model of the schema [Sales], with nothing in it. *)
Definition sales (name : string) : DataModel :=
  {| dm_name := name; dm_documentation := None;
     dm_tags := [stringTagOf "schema" "Sales"]; dm_ownedElements := [] |}.

(** A project of three data models, two of them of one schema. *)
Definition shopProject : Root :=
  {| root_isProject := true; root_name := "My Shop"; root_author := "";
     root_documentation := None; root_tags := [];
     root_ownedElements :=
       [ OwnedDataModel (sales "Front"); OwnedDataModel shop;
         OwnedDataModel (sales "Back") ] |}.

(** A table with an enum column, and one whose enum column has a name
    that does not resolve. *)
Definition mood : Entity :=
  entity "person" (Some "")
    [ column "id" "INTEGER" None true false [];
      column "mood" "Enum" None false false [stringTagOf "Enum" "'sad','ok'"];
      column "mood!" "ENUM" None false false [stringTagOf "ENUM" "'a','b'"] ].

(** A table with the indexes [2] and [1], annotated in that order, and
    an index with a name of letters. *)
Definition numbered : Entity :=
  entity "t" (Some "")
    [ column "a" "INTEGER" None false false [indexTag "2" 1 false];
      column "b" "INTEGER" None false false [indexTag "1" 2 true];
      column "c" "INTEGER" None false false [indexTag "1" 1 false];
      column "d" "INTEGER" None false false [indexTag "by_name" 1 false] ].

(* ================================================================== *)
(** ** Lemmas and theorems *)

Lemma append_assoc (a b c : string) : (a ++ b) ++ c = a ++ b ++ c.
Proof. induction a as [|x a IH]; simpl; [reflexivity | now rewrite IH]. Qed.

Lemma append_nil_r (a : string) : a ++ "" = a.
Proof. induction a as [|x a IH]; simpl; [reflexivity | now rewrite IH]. Qed.

Lemma lookup_In {V : Type} (key : string) (l : list (string * V)) (v : V) :
lookup key l = Some v -> In (key, v) l.
Proof.
induction l as [|[k w] r IH]; simpl; [discriminate|].
destruct (String.eqb_spec k key) as [->|_].
- intros [= ->]. now left.
- intro H. right. now apply IH.
Qed.

Lemma sentinel_iff (elem : Column) :
length_is_sentinel elem = true <-> col_length elem = Some (-1)%Z.
Proof.
unfold length_is_sentinel. destruct (col_length elem) as [z|].
- rewrite Z.eqb_eq. split; [now intros -> | now intros [= ->]].
- split; discriminate.
Qed.

Lemma dataType_integer_kinds (elem : Column) (plain auto : string) :
lookup (col_type elem) integer_kinds = Some (plain, auto) ->
dataType elem = Normal (VString (if length_is_sentinel elem then auto else plain)).
Proof.
intro H. apply lookup_In in H. unfold dataType.
simpl in H. destruct H as [H|[H|[H|[]]]]; injection H as Ht Hp Ha;
  rewrite <- Ht, <- Hp, <- Ha; simpl; destruct (length_is_sentinel elem);
  reflexivity.
Qed.

Lemma table_not_auto (elem : Column) (k : string) (f : Mapping) :
In (k, f) dataType_map -> lookup k integer_kinds = None ->
auto_increment (Mapping_apply f elem) = false.
Proof.
intros H Hk. simpl in H.
repeat (destruct H as [H|H];
        [ inversion H; subst; clear H; try discriminate Hk; reflexivity | ]).
destruct H.
Qed.

Lemma inherited_not_auto (k s : string) :
In (k, Normal (VString s)) inherited -> auto_increment s = false.
Proof.
intro H. simpl in H.
repeat (destruct H as [H|H]; [ inversion H; subst; reflexivity | ]).
destruct H.
Qed.

(** C3, amended. For a column of type INTEGER, SMALLINT or BIGINT the
  mapper returns serial, smallserial or bigserial exactly when the
  length is -1, and integer, smallint or bigint for any other length,
  an absent one included. No other type of the table maps to one of
  the three auto-increment spellings; a type the table does not know is
  returned as it is, so it gives such a spelling only when the type
  string is that spelling itself. *)
Theorem dataType_auto_increment (elem : Column) :
(forall plain auto,
    lookup (col_type elem) integer_kinds = Some (plain, auto) ->
    dataType elem
    = Normal (VString (if length_is_sentinel elem then auto else plain))
    /\ (length_is_sentinel elem = true <-> col_length elem = Some (-1)%Z)
    /\ auto_increment auto = true /\ auto_increment plain = false)
/\ (lookup (col_type elem) integer_kinds = None ->
    forall s, dataType elem = Normal (VString s) ->
              auto_increment s = true -> s = col_type elem).
Proof.
split.
- intros plain auto H. split; [now apply dataType_integer_kinds|].
  split; [apply sentinel_iff|].
  apply lookup_In in H. simpl in H.
  destruct H as [H|[H|[H|[]]]]; inversion H; subst; split; reflexivity.
- intros Hk s Hs Ha. unfold dataType in Hs.
  destruct (lookup (col_type elem) dataType_map) as [f|] eqn:Hf.
  + apply lookup_In in Hf. injection Hs as <-.
    rewrite (table_not_auto elem _ _ Hf Hk) in Ha. discriminate.
  + destruct (lookup (col_type elem) inherited) as [r|] eqn:Hr.
    * apply lookup_In in Hr. subst r.
      rewrite (inherited_not_auto _ _ Hr) in Ha. discriminate.
    * now injection Hs as <-.
Qed.

Lemma prefix_iff (p s : string) :
String.prefix p s = true <-> exists r, s = p ++ r.
Proof.
revert s. induction p as [|a p IH]; intro s.
- split; [intros _; now exists s | intros _; now destruct s].
- destruct s as [|b s]; simpl.
  + split; [discriminate | intros [r H]; discriminate].
  + destruct (ascii_dec a b) as [->|Hab].
    * rewrite IH. split; intros [r H]; exists r; [now rewrite H | now injection H].
    * split; [discriminate | intros [r H]; injection H as H1 _; congruence].
Qed.

Lemma occurs_cons (pat : string) (c : ascii) (r : string) :
occurs pat (String c r) <-> String.prefix pat (String c r) = true \/ occurs pat r.
Proof.
split.
- intros [pre [post H]]. destruct pre as [|a pre]; simpl in H.
  + left. apply prefix_iff. now exists post.
  + right. injection H as _ H. now exists pre, post.
- intros [H|[pre [post H]]].
  + apply prefix_iff in H as [post H]. now exists "", post.
  + exists (String c pre), post. simpl. now rewrite H.
Qed.

(** [indexOf] decides whether the pattern occurs. *)
Lemma indexOf_from_spec (pat s : string) (i : Z) :
(0 <= i)%Z ->
(indexOf_from pat s i = (-1)%Z /\ ~ occurs pat s)
\/ (indexOf_from pat s i <> (-1)%Z /\ occurs pat s).
Proof.
revert i. induction s as [|c r IH]; intros i Hi.
- cbn [indexOf_from]. destruct (String.prefix pat "") eqn:Hp.
  + right. split; [lia|].
    apply prefix_iff in Hp as [post Hp]. now exists "", post.
  + left. split; [reflexivity|]. intros [pre [post H]].
    destruct pre; [|discriminate]. simpl in H.
    assert (String.prefix pat "" = true) by (apply prefix_iff; now exists post).
    congruence.
- cbn [indexOf_from]. rewrite occurs_cons.
  destruct (String.prefix pat (String c r)) eqn:Hp.
  + right. split; [lia | now left].
  + destruct (IH (i + 1)%Z ltac:(lia)) as [[E N]|[E O]].
    * left. split; [exact E|]. intros [H|H]; [discriminate | now apply N].
    * right. split; [exact E | now right].
Qed.

Lemma indexOf_absent (s pat : string) :
(indexOf s pat =? -1)%Z = true <-> ~ occurs pat s.
Proof.
unfold indexOf. rewrite Z.eqb_eq.
destruct (indexOf_from_spec pat s 0 ltac:(lia)) as [[E N]|[E O]].
- split; auto.
- split; [intro; contradiction | intro N; now elim N].
Qed.

Lemma indexOf_present (s pat : string) :
(indexOf s pat =? -1)%Z = false <-> occurs pat s.
Proof.
unfold indexOf. rewrite Z.eqb_neq.
destruct (indexOf_from_spec pat s 0 ltac:(lia)) as [[E N]|[E O]].
- split; [intro; contradiction | intro O; now elim N].
- split; auto.
Qed.

Section ColumnLine.
Context {Q : Quoting}.

(** C6. When the mapped type of a column contains "serial" its
    declaration line ends after the type and the NOT NULL clause: no
    DEFAULT clause, whatever default annotation the column carries.
    For any other column with a default annotation the line ends
    with DEFAULT and the annotation's value. *)
Theorem columnDeclaration_default (columnName : string) (elem : Column)
    (comments : list Comment) (_type : string) :
  dataType elem = Normal (VString _type) ->
  exists line comments' elem',
    columnDeclaration columnName elem comments (columnDefault elem)
    = Normal (line, comments', elem')
    /\ (occurs "serial" _type ->
        line = columnName ++ " " ++ _type ++ not_null_clause elem)
    /\ (~ occurs "serial" _type ->
        forall t, tag "default" (col_tags elem) = Some t ->
        line = columnName ++ " " ++ _type ++ not_null_clause elem
               ++ " DEFAULT " ++ tag_value t).
Proof.
  intro Ht. unfold columnDeclaration. rewrite Ht.
  eexists _, _, _. split; [reflexivity|].
  unfold not_null_clause.
  destruct (indexOf _type "serial" =? -1)%Z eqn:Hs.
  - apply indexOf_absent in Hs. split; [intro H; now elim Hs|].
    intros _ t Htag. unfold columnDefault. rewrite Htag.
    destruct (col_primaryKey elem || negb (col_nullable elem));
      now rewrite !append_assoc.
  - apply indexOf_present in Hs. split; [|intro N; now elim N].
    intros _.
    destruct (col_primaryKey elem || negb (col_nullable elem));
      rewrite ?append_assoc, ?append_nil_r; reflexivity.
Qed.
End ColumnLine.

Lemma outcome_bind {A B} (m : M A) (f : A -> M B) :
outcome (bind m f)
= match outcome m with Normal a => outcome (f a) | Throw e => Throw e end.
Proof.
destruct m as [[a|e] ev]; simpl; [|reflexivity].
now destruct (f a).
Qed.

Lemma events_bind {A B} (m : M A) (f : A -> M B) :
events (bind m f)
= (events m ++ match outcome m with Normal a => events (f a) | Throw _ => [] end)%list.
Proof.
destruct m as [[a|e] ev]; simpl; [|now rewrite app_nil_r].
now destruct (f a).
Qed.

Lemma outcome_ret {A} (a : A) : outcome (ret a) = Normal a.
Proof. reflexivity. Qed.

Lemma outcome_lift {A} (o : Outcome A) : outcome (lift o) = o.
Proof. reflexivity. Qed.

(** A loop whose body returns on every element returns, and an invariant
  of the prefix it has processed holds of its final state. *)
Lemma forEach_invariant {A S} (f : S -> A -> M S) (I : list A -> S -> Prop)
  (l : list A) :
forall (pre : list A) (s : S),
  I pre s ->
  (forall p a s, I p s -> (exists q, (pre ++ l = p ++ a :: q)%list) ->
                 exists s', outcome (f s a) = Normal s' /\ I (p ++ [a])%list s') ->
  exists s', outcome (forEach f l s) = Normal s' /\ I (pre ++ l)%list s'.
Proof.
induction l as [|a l IH]; intros pre s HI Hstep.
- exists s. rewrite app_nil_r. now split.
- destruct (Hstep pre a s HI) as [s1 [H1 I1]]; [now exists l|].
  cbn [forEach]. rewrite outcome_bind, H1.
  replace (pre ++ a :: l)%list with ((pre ++ [a]) ++ l)%list
    by now rewrite <- app_assoc.
  apply IH; [exact I1|].
  intros p x s2 Hp [q Hq]. apply Hstep; [exact Hp|].
  exists q. now rewrite <- Hq, <- app_assoc.
Qed.

(** *** Writers *)
Lemma extends_refl w : extends w w.
Proof. repeat split. exists []. now rewrite app_nil_r. Qed.

Lemma extends_trans w1 w2 w3 : extends w1 w2 -> extends w2 w3 -> extends w1 w3.
Proof.
intros (A1 & B1 & r1 & C1) (A2 & B2 & r2 & C2). repeat split; try congruence.
exists (r1 ++ r2)%list. now rewrite C2, C1, app_assoc.
Qed.

Lemma extends_writeLine l w : extends w (writeLine l w).
Proof. repeat split. now exists [margin w ++ l]. Qed.

Lemma extends_writeEmpty w : extends w (writeEmpty w).
Proof. repeat split. now exists [""]. Qed.

Lemma extends_indented (f : CodeWriter -> CodeWriter) w :
extends (indent w) (f (indent w)) -> extends w (outdent (f (indent w))).
Proof.
intros (A & B & r & C). unfold extends. simpl in *.
rewrite A, B, C. unfold push. rewrite removelast_last.
repeat split. now exists r.
Qed.

(* ================================================================== *)
(** ** generateTable *)

(** *** Name resolution never throws *)

Lemma columnName_outcome n t :
  outcome (columnName n t) = Normal (resolved (columnName n t)).
Proof.
  unfold resolved, columnName.
  now destruct (negb (isValidIdentifier _)).
Qed.

Lemma tableName_outcome n t :
  outcome (tableName n t) = Normal (resolved (tableName n t)).
Proof.
  unfold resolved, tableName.
  now destruct (negb (isValidIdentifier _)).
Qed.

Lemma routineName_outcome t :
  outcome (routineName t) = Normal (resolved (routineName t)).
Proof.
  unfold resolved, routineName.
  now destruct (negb (isValidIdentifier _)).
Qed.

Lemma schemaName_outcome o :
  outcome (schemaName o) = Normal (resolved (schemaName o)).
Proof.
  unfold resolved, schemaName.
  destruct o as [d [p|]|p|]; try reflexivity;
    destruct (negb (truthy _)); try reflexivity;
    now destruct (negb (isValidIdentifier _)).
Qed.

(** *** A rewritten enum type is passed through *)

Lemma has_dot_app a b : has_dot (a ++ "." ++ b) = true.
Proof.
  unfold has_dot. induction a as [|x a IH]; simpl; [reflexivity|].
  destruct (Ascii.eqb x "."); simpl; [reflexivity | exact IH].
Qed.

Lemma lookup_undotted {V} (key : string) (l : list (string * V)) :
  forallb (fun kv => negb (has_dot (fst kv))) l = true ->
  has_dot key = true -> lookup key l = None.
Proof.
  intros Hl Hk. induction l as [|[k v] r IH]; simpl in *; [reflexivity|].
  apply andb_true_iff in Hl as [Hk' Hr].
  destruct (String.eqb_spec k key) as [->|_].
  - rewrite Hk in Hk'. discriminate.
  - now apply IH.
Qed.

Lemma dataType_dotted (c : Column) (a b : string) (e : bool) :
  dataType (set_type c (a ++ "." ++ b) e) = Normal (VString (a ++ "." ++ b)).
Proof.
  unfold dataType. cbn [col_type set_type].
  rewrite !lookup_undotted; auto using has_dot_app.
Qed.

(** *** Buffers that grow *)

Lemma appends_refl w : appends w w [].
Proof. unfold appends. now rewrite app_nil_r. Qed.

Lemma appends_trans w1 w2 w3 a b :
  appends w1 w2 a -> appends w2 w3 b -> appends w1 w3 (a ++ b).
Proof.
  intros (A1 & A2 & A3) (B1 & B2 & B3). unfold appends.
  rewrite B1, A1, B2, A2, B3, A3, app_assoc. now repeat split.
Qed.

Lemma appends_as w w' ls ls' : appends w w' ls -> ls = ls' -> appends w w' ls'.
Proof. now intros H <-. Qed.

Lemma appends_margin w w' ls : appends w w' ls -> margin w' = margin w.
Proof. intros (_ & _ & C). unfold margin. now rewrite C. Qed.

Lemma appends_writeLine l w : appends w (writeLine l w) [margin w ++ l].
Proof. now repeat split. Qed.

Lemma appends_writeEmpty w : appends w (writeEmpty w) [""].
Proof. now repeat split. Qed.

Lemma appends_indented (f : CodeWriter -> CodeWriter) w ls :
  appends (indent w) (f (indent w)) ls -> appends w (outdent (f (indent w))) ls.
Proof.
  intros (A & B & C). unfold appends. cbn [outdent codegen.lines indentString
                                             indentations].
  rewrite A, B, C. cbn [indent codegen.lines indentString indentations].
  unfold push. now rewrite removelast_last.
Qed.

Lemma appends_fold {A} (f : CodeWriter -> A -> CodeWriter)
    (g : string -> string -> A -> list string) (l : list A) :
  (forall w a, appends w (f w a) (g (margin w) (indentString w) a)) ->
  forall w, appends w (fold_left f l w)
              (flat_map (g (margin w) (indentString w)) l).
Proof.
  intro H. induction l as [|a r IH]; intro w; [apply appends_refl|].
  cbn [fold_left flat_map]. eapply appends_trans; [apply H|].
  specialize (IH (f w a)).
  rewrite (appends_margin _ _ _ (H w a)) in IH.
  destruct (H w a) as (_ & E & _). now rewrite E in IH.
Qed.

Section Generation.
Context {Q : Quoting}.

(** *** The first loop: the enum types *)

Lemma createEnum_value table st c :
  string_typed c = true ->
  outcome (createEnum table st c)
  = Normal
      {| en_writer :=
           fold_left (fun w l => writeLine l w)
                     (if isEnum c then enumStatement table c else [])
                     (en_writer st);
         en_drop := (en_drop st
                     ++ if isEnum c then [dropType table c] else [])%list;
         en_columns := (en_columns st ++ [rewritten table c])%list |}.
Proof.
  intro Hty. unfold string_typed in Hty. unfold createEnum, rewritten.
  rewrite outcome_bind, outcome_lift.
  unfold isEnum, enumValues, enumStatement, dropType, enumType, colName.
  unfold enumValues.
  destruct (dataType c) as [[t| | |]|ex]; try discriminate.
  destruct (String.eqb (toLowerCase t) "enum").
  - destruct (truthy (stringTag t (col_tags c))) eqn:Ht.
    + rewrite outcome_bind, columnName_outcome, outcome_ret.
      reflexivity.
    + rewrite outcome_ret. unfold en_keep, push. cbn [fold_left].
      now rewrite app_nil_r.
  - rewrite outcome_ret. unfold en_keep, push. cbn [fold_left truthy].
    now rewrite app_nil_r.
Qed.

Lemma createEnums_value table cols :
  forallb string_typed cols = true ->
  forall st,
  exists en,
    outcome (forEach (createEnum table) cols st) = Normal en
    /\ appends (en_writer st) (en_writer en)
         (List.map (fun l => margin (en_writer st) ++ l)
            (flat_map (enumStatement table) (filter isEnum cols)))
    /\ en_drop en
       = (en_drop st ++ List.map (dropType table) (filter isEnum cols))%list
    /\ en_columns en
       = (en_columns st ++ List.map (rewritten table) cols)%list.
Proof.
  induction cols as [|c r IH]; intros Hty st.
  - exists st. cbn. rewrite !app_nil_r. repeat split. apply appends_refl.
  - cbn [forallb] in Hty. apply andb_true_iff in Hty as [Hc Hr].
    cbn [forEach]. rewrite outcome_bind, (createEnum_value table st c Hc).
    destruct (IH Hr {| en_writer :=
                         fold_left (fun w l => writeLine l w)
                           (if isEnum c then enumStatement table c else [])
                           (en_writer st);
                       en_drop := (en_drop st
                                   ++ if isEnum c then [dropType table c]
                                      else [])%list;
                       en_columns := (en_columns st ++ [rewritten table c])%list |})
      as (en & Hen & A & D & C).
    exists en. split; [exact Hen|]. cbn [en_writer en_drop en_columns] in A, D, C.
    cbn [filter List.map].
    split; [|split].
    + destruct (isEnum c).
      * cbn [flat_map List.map enumStatement fold_left] in *.
        eapply appends_as;
          [eapply appends_trans;
           [eapply appends_trans; [apply appends_writeLine|apply appends_writeLine]
           |exact A]|].
        cbn [writeLine margin indentations]. rewrite map_app. reflexivity.
      * cbn [fold_left] in A. exact A.
    + rewrite D. destruct (isEnum c); cbn [List.map];
        now rewrite <- app_assoc.
    + rewrite C. now rewrite <- app_assoc.
Qed.

(** *** The second loop: the declarations and the keys *)

Lemma columnDeclaration_value (c : Column) (cms : list Comment) (t : string) :
  dataType c = Normal (VString t) ->
  columnDeclaration (colName c) c cms (columnDefault c)
  = Normal (declare c t,
            (cms ++ comment_of c)%list,
            if col_is_enum c then set_type c "enum" true else c).
Proof.
  intro Ht. unfold columnDeclaration. rewrite Ht. unfold declare, comment_of.
  unfold not_null_clause.
  f_equal. f_equal. f_equal.
  - destruct (indexOf t "serial" =? -1)%Z,
      (col_primaryKey c || negb (col_nullable c));
      rewrite ?append_assoc, ?append_nil_r; reflexivity.
  - destruct (col_documentation c) as [d|]; [destruct (truthy d)|];
      unfold push; rewrite ?app_nil_r; reflexivity.
Qed.

Lemma scanColumn_value options st c :
  string_typed c = true ->
  outcome (scanColumn options st c)
  = Normal
      {| lines := (lines st
                   ++ if named c then [declare c (typeText c)] else [])%list;
         primaryKeys :=
           (primaryKeys st
            ++ if named c && col_primaryKey c then [colName c] else [])%list;
         foreignKeys :=
           (foreignKeys st
            ++ if named c && negb (col_primaryKey c) && negb (col_unique c)
                  && col_foreignKey c
               then [colName c] else [])%list;
         foreignKeyCtr :=
           (foreignKeyCtr st ++ if referencing options c then [c] else [])%list;
         uniques :=
           (uniques st
            ++ if named c && negb (col_primaryKey c) && col_unique c
               then [colName c] else [])%list;
         comments := (comments st ++ if named c then comment_of c else [])%list;
         scanned := (scanned st ++ [restored c])%list |}.
Proof.
  intro Hty. unfold string_typed in Hty. unfold scanColumn, restored, referencing.
  rewrite outcome_bind, columnName_outcome. fold (colName c). fold (named c).
  unfold typeText.
  destruct (dataType c) as [[t| | |]|ex] eqn:Hd; try discriminate.
  destruct (named c) eqn:Hn.
  - rewrite outcome_bind, outcome_lift.
    assert (Hn' : truthy (colName c) = true) by exact Hn.
    unfold classify. rewrite Hn'. cbn [andb].
    destruct (col_primaryKey c), (col_unique c), (col_foreignKey c),
      (opt_foreignKeyConstraint options), (col_referenceTo c);
      cbn [negb andb lines primaryKeys foreignKeys foreignKeyCtr uniques
             comments scanned];
      rewrite (columnDeclaration_value c _ t Hd), outcome_ret;
      unfold push; rewrite ?app_nil_r; reflexivity.
  - rewrite outcome_ret. unfold push. cbn [andb]. now rewrite !app_nil_r.
Qed.

Lemma scanColumns_value options cols :
  forallb string_typed cols = true ->
  forall st,
    outcome (forEach (scanColumn options) cols st)
    = Normal
        {| lines := (lines st
                     ++ List.map (fun c => declare c (typeText c))
                          (filter named cols))%list;
           primaryKeys := (primaryKeys st ++ primary_key_names cols)%list;
           foreignKeys := (foreignKeys st ++ foreign_key_names cols)%list;
           foreignKeyCtr :=
             (foreignKeyCtr st ++ filter (referencing options) cols)%list;
           uniques := (uniques st ++ unique_names cols)%list;
           comments := (comments st
                        ++ flat_map comment_of (filter named cols))%list;
           scanned := (scanned st ++ List.map restored cols)%list |}.
Proof.
  induction cols as [|c r IH]; intros Hty st.
  - cbn. rewrite !app_nil_r. now destruct st.
  - cbn [forallb] in Hty. apply andb_true_iff in Hty as [Hc Hr].
    cbn [forEach]. rewrite outcome_bind, (scanColumn_value options st c Hc).
    rewrite (IH Hr).
    cbn [lines primaryKeys foreignKeys foreignKeyCtr uniques comments scanned].
    unfold primary_key_names, foreign_key_names, unique_names.
    cbn [filter List.map].
    destruct (named c), (col_primaryKey c), (col_unique c), (col_foreignKey c),
      (referencing options c);
      cbn [negb andb filter List.map flat_map];
      rewrite <- ?app_assoc, ?app_nil_r; reflexivity.
Qed.

(** *** The columns the second loop reads are those the first left *)

Lemma filter_map {A B} (p : B -> bool) (f : A -> B) (l : list A) :
  filter p (List.map f l) = List.map f (filter (fun a => p (f a)) l).
Proof.
  induction l as [|a l IH]; [reflexivity|].
  cbn [List.map filter]. destruct (p (f a)); cbn [List.map]; now rewrite IH.
Qed.

Lemma colName_rewritten table c : colName (rewritten table c) = colName c.
Proof. unfold rewritten. now destruct (isEnum c). Qed.

Lemma named_rewritten table c : named (rewritten table c) = named c.
Proof. unfold named. now rewrite colName_rewritten. Qed.

Lemma typeText_rewritten (a b : string) c :
  string_typed c = true ->
  dataType (rewritten (a ++ "." ++ b) c)
  = Normal (VString (columnType (a ++ "." ++ b) c)).
Proof.
  intro Hty. unfold rewritten, columnType, typeText, enumType.
  destruct (isEnum c).
  - rewrite (append_assoc a), (append_assoc "." b). apply dataType_dotted.
  - unfold string_typed in Hty.
    now destruct (dataType c) as [[t| | |]|ex].
Qed.

Lemma string_typed_rewritten (a b : string) cols :
  forallb string_typed cols = true ->
  forallb string_typed (List.map (rewritten (a ++ "." ++ b)) cols) = true.
Proof.
  intro H. rewrite forallb_forall in *. intros c' Hc'.
  apply in_map_iff in Hc' as (c & <- & Hc).
  unfold string_typed at 1. now rewrite (typeText_rewritten a b c (H c Hc)).
Qed.

Lemma declare_rewritten (a b : string) c :
  string_typed c = true ->
  declare (rewritten (a ++ "." ++ b) c) (typeText (rewritten (a ++ "." ++ b) c))
  = declaration (a ++ "." ++ b) c.
Proof.
  intro Hty. unfold typeText at 1. rewrite (typeText_rewritten a b c Hty).
  unfold declaration, declare. rewrite colName_rewritten.
  unfold rewritten. now destruct (isEnum c).
Qed.

Lemma comment_of_rewritten table c :
  comment_of (rewritten table c) = comment_of c.
Proof.
  unfold comment_of. rewrite colName_rewritten.
  unfold rewritten. now destruct (isEnum c).
Qed.

Lemma referencing_rewritten options table c :
  referencing options (rewritten table c) = referencing options c.
Proof.
  unfold referencing. rewrite named_rewritten.
  unfold rewritten. now destruct (isEnum c).
Qed.

Lemma foreignKeyStatement_rewritten table tbl t c :
  foreignKeyStatement table tbl (rewritten t c) = foreignKeyStatement table tbl c.
Proof.
  unfold foreignKeyStatement. rewrite colName_rewritten.
  unfold rewritten. now destruct (isEnum c).
Qed.

Lemma restored_rewritten table c :
  restored (rewritten table c) = afterRun table c.
Proof.
  unfold restored, afterRun. rewrite named_rewritten.
  unfold rewritten.
  destruct (isEnum c), (named c), (col_is_enum c); reflexivity.
Qed.

Lemma names_rewritten (p : Column -> bool) table cols :
  (forall c, p (rewritten table c) = p c) ->
  List.map colName (filter p (List.map (rewritten table) cols))
  = List.map colName (filter p cols).
Proof.
  intro H. rewrite filter_map, map_map.
  rewrite (filter_ext _ p) by exact H.
  apply map_ext. intro c. apply colName_rewritten.
Qed.

Lemma flags_rewritten table c :
  col_primaryKey (rewritten table c) = col_primaryKey c
  /\ col_unique (rewritten table c) = col_unique c
  /\ col_foreignKey (rewritten table c) = col_foreignKey c.
Proof. unfold rewritten. now destruct (isEnum c). Qed.

Lemma scan_rewritten options (a b : string) cols :
  forallb string_typed cols = true ->
  outcome (forEach (scanColumn options)
             (List.map (rewritten (a ++ "." ++ b)) cols) emptyScan)
  = Normal
      {| lines := List.map (declaration (a ++ "." ++ b)) (filter named cols);
         primaryKeys := primary_key_names cols;
         foreignKeys := foreign_key_names cols;
         foreignKeyCtr :=
           List.map (rewritten (a ++ "." ++ b))
                    (filter (referencing options) cols);
         uniques := unique_names cols;
         comments := flat_map comment_of (filter named cols);
         scanned := List.map (afterRun (a ++ "." ++ b)) cols |}.
Proof.
  intro Hty.
  rewrite (scanColumns_value options _ (string_typed_rewritten a b cols Hty)).
  cbn [emptyScan lines primaryKeys foreignKeys foreignKeyCtr uniques comments
         scanned app].
  set (t := a ++ "." ++ b) in *.
  f_equal. f_equal.
  - rewrite filter_map, map_map.
    rewrite (filter_ext _ named) by (intro c; apply named_rewritten).
    apply map_ext_in. intros c Hc. apply filter_In in Hc as [Hc _].
    rewrite forallb_forall in Hty. apply declare_rewritten. now apply Hty.
  - unfold primary_key_names. apply names_rewritten. intro c.
    destruct (flags_rewritten t c) as (-> & _). now rewrite named_rewritten.
  - unfold foreign_key_names. apply names_rewritten. intro c.
    destruct (flags_rewritten t c) as (-> & -> & ->). now rewrite named_rewritten.
  - rewrite filter_map.
    now rewrite (filter_ext _ (referencing options))
      by (intro c; apply referencing_rewritten).
  - unfold unique_names. apply names_rewritten. intro c.
    destruct (flags_rewritten t c) as (-> & -> & _). now rewrite named_rewritten.
  - rewrite filter_map.
    rewrite (filter_ext _ named) by (intro c; apply named_rewritten).
    rewrite flat_map_concat_map, map_map, <- flat_map_concat_map.
    apply flat_map_ext. intro c. apply comment_of_rewritten.
  - rewrite map_map. apply map_ext. intro c. apply restored_rewritten.
Qed.

(** *** The deferred constraints *)

Lemma pushForeignKeys_value table tbl ctr :
  Forall has_reference ctr ->
  forall refs0,
    outcome (forEach (pushForeignKey table tbl) ctr refs0)
    = Normal (refs0 ++ flat_map (foreignKeyStatement table tbl) ctr)%list.
Proof.
  induction 1 as [|c r Hc _ IH]; intro refs0.
  - cbn. now rewrite app_nil_r.
  - cbn [forEach flat_map]. rewrite outcome_bind.
    unfold has_reference in Hc.
    unfold pushForeignKey at 1, foreignKeyStatement at 1.
    destruct (col_referenceTo c) as [ref|]; [|contradiction].
    rewrite outcome_bind, columnName_outcome.
    rewrite outcome_bind, columnName_outcome.
    rewrite outcome_bind, tableName_outcome.
    rewrite outcome_bind, schemaName_outcome, outcome_ret.
    rewrite IH. unfold push, referencedTable, colName.
    rewrite <- app_assoc. cbn [app]. do 3 f_equal.
    destruct (refTable_parent ref); reflexivity.
Qed.

Lemma referencing_has_reference options cols :
  Forall has_reference (filter (referencing options) cols).
Proof.
  apply Forall_forall. intros c Hc. apply filter_In in Hc as [_ Hc].
  unfold referencing in Hc. unfold has_reference.
  destruct (col_referenceTo c); [discriminate|].
  now rewrite andb_false_r in Hc.
Qed.

(** *** The steps that write on the create buffer *)

Lemma join_snoc sep l x :
  l <> [] -> join sep (l ++ [x]) = join sep l ++ sep ++ x.
Proof.
  induction l as [|a [|b r] IH]; intro H; [contradiction| |].
  - reflexivity.
  - change (join sep ((a :: b :: r) ++ [x]))
      with (a ++ sep ++ join sep ((b :: r) ++ [x])).
    rewrite IH by discriminate.
    change (join sep (a :: b :: r)) with (a ++ sep ++ join sep (b :: r)).
    now rewrite !append_assoc.
Qed.

Lemma insertColumns_outcome (insertInto : string) (columns : list Column) :
  outcome (insertColumns insertInto columns)
  = Normal (insertInto ++ join "," (List.map colName columns)).
Proof.
  unfold insertColumns. rewrite outcome_bind.
  remember (List.length columns) as n eqn:Hn.
  destruct (forEach_invariant
              (fun (st : string * nat) col =>
                 let (insertInto, idx) := st in
                 column <- columnName (col_name col) (col_tags col) ;;
                 ret (insertInto ++ column
                      ++ (if (idx <? n - 1)%nat then "," else ""), S idx))
              (fun pre st => snd st = List.length pre
                             /\ fst st = insertInto ++ names_so_far n pre)
              columns [] (insertInto, 0%nat)) as (st & Hst & I1 & I2).
  - split; [reflexivity|]. simpl. now rewrite append_nil_r.
  - intros p a [acc idx] [Hi Ha] [q Hq]. cbn [fst snd] in *. subst idx acc.
    rewrite outcome_bind, columnName_outcome, outcome_ret.
    fold (colName a).
    eexists. split; [reflexivity|]. cbn [fst snd]. split.
    + rewrite length_app. simpl. lia.
    + assert (Hlen : (List.length p < n)%nat).
      { rewrite Hn. simpl in Hq. rewrite Hq, length_app. simpl. lia. }
      rewrite append_assoc. f_equal.
      unfold names_so_far.
      destruct p as [|x p].
      * simpl. destruct n as [|[|n']]; [lia| reflexivity | reflexivity].
      * assert (E : (List.length (x :: p) <? n)%nat = true)
          by now apply Nat.ltb_lt.
        rewrite E.
        destruct ((x :: p) ++ [a])%list eqn:El; [destruct p; discriminate|].
        rewrite <- El. rewrite map_app. cbn [List.map].
        rewrite join_snoc by discriminate.
        rewrite !append_assoc. do 3 f_equal.
        rewrite length_app. cbn [List.length].
        destruct (Nat.ltb_spec (S (List.length p)) (n - 1)) as [L|L];
          destruct (Nat.ltb_spec (S (List.length p) + 1) n) as [L'|L'];
          try reflexivity; lia.
  - rewrite Hst. cbv beta iota. rewrite outcome_ret, I2. simpl.
    f_equal. f_equal. unfold names_so_far.
    destruct columns as [|c r]; [reflexivity|].
    rewrite Hn, Nat.ltb_irrefl. now rewrite append_nil_r.
Qed.

(** The loop over the column positions joins the rendered fields: the
    comma is left out at position [colLength - 1] only. *)
Lemma insertValues_join (insertData : list string) (colLength : nat) :
  forall (n i : nat) (acc : string),
    (i + n = colLength)%nat ->
    insertValues insertData colLength i n acc
    = acc ++ join "," (List.map (fun j => value_sql (nth_error insertData j))
                                (seq i n)).
Proof.
  induction n as [|n IH]; intros i acc H.
  - simpl. now rewrite append_nil_r.
  - cbn [insertValues]. rewrite IH by lia.
    assert (E : acc ++ value_sql (nth_error insertData i)
                = match nth_error insertData i with
                  | Some d => if truthy d then acc ++ " '" ++ d ++ "' "
                              else acc ++ " null "
                  | None => acc ++ " null "
                  end).
    { unfold value_sql. destruct (nth_error insertData i) as [d|];
        [destruct (truthy d)|]; reflexivity. }
    rewrite <- E. cbn [seq List.map].
    destruct n as [|n].
    + assert (L : (i <? colLength - 1)%nat = false) by (apply Nat.ltb_ge; lia).
      rewrite L. simpl. now rewrite append_nil_r.
    + assert (L : (i <? colLength - 1)%nat = true) by (apply Nat.ltb_lt; lia).
      rewrite L. cbn [seq List.map join]. now rewrite !append_assoc.
Qed.

Lemma insertLine_row (table : string) (columns : list Column) (e : string) :
  insertLine ("INSERT INTO " ++ table ++ " ("
              ++ join "," (List.map colName columns) ++ " ) VALUES ( ")
             (List.length columns) e
  = insert_row table columns e.
Proof.
  unfold insertLine, insert_row.
  rewrite insertValues_join by lia.
  now rewrite !append_assoc.
Qed.

Lemma writeInserts_lines (insertInto : string) (n : nat) (ls : list string) :
  forall w,
    codegen.lines (fold_left (writeInsert insertInto n) ls w)
    = (codegen.lines w
       ++ flat_map (fun e => [(margin w ++ insertLine insertInto n e)%string; ""]) ls)%list
    /\ indentString (fold_left (writeInsert insertInto n) ls w) = indentString w
    /\ indentations (fold_left (writeInsert insertInto n) ls w) = indentations w.
Proof.
  induction ls as [|e r IH]; intro w.
  - simpl. now rewrite app_nil_r.
  - cbn [fold_left flat_map]. destruct (IH (writeInsert insertInto n w e)) as (A & B & C).
    rewrite A, B, C. unfold writeInsert, writeEmpty, writeLine, margin, push.
    cbn. repeat split. now rewrite <- !app_assoc.
Qed.

Lemma commas_snoc ls x :
  commas (ls ++ [x]) = (List.map (fun l => (l ++ ",")%string) ls ++ [x])%list.
Proof.
  induction ls as [|a [|b r] IH]; [reflexivity | reflexivity |].
  change (commas ((a :: b :: r) ++ [x]))
    with ((a ++ ",") :: commas ((b :: r) ++ [x])).
  now rewrite IH.
Qed.

Lemma writeBody_eq ls :
  forall w,
    writeBody ls w
    = {| codegen.lines :=
           (codegen.lines w
            ++ List.map (fun l => (margin w ++ l)%string) (commas ls))%list;
         indentString := indentString w;
         indentations := indentations w |}.
Proof.
  induction ls as [|l [|l' r] IH]; intro w.
  - destruct w. cbn. now rewrite app_nil_r.
  - reflexivity.
  - change (writeBody (l :: l' :: r) w)
      with (writeBody (l' :: r) (writeLine (l ++ ",") w)).
    rewrite IH. cbn [writeLine codegen.lines indentString indentations].
    unfold push. rewrite <- app_assoc. reflexivity.
Qed.

Lemma margin_indent w : margin (indent w) = margin w ++ indentString w.
Proof.
  unfold margin, indent, push. cbn [indentations].
  destruct (indentations w) as [|a r] eqn:E; [reflexivity|].
  rewrite join_snoc by discriminate. reflexivity.
Qed.

Lemma tableStatement_lines table body w :
  codegen.lines (tableStatement table body w)
  = (codegen.lines w
     ++ [(margin w ++ "CREATE TABLE " ++ table ++ " (")%string]
     ++ List.map (fun l => (margin w ++ indentString w ++ l)%string) (commas body)
     ++ [(margin w ++ ");")%string; ""])%list
  /\ indentString (tableStatement table body w) = indentString w
  /\ indentations (tableStatement table body w) = indentations w.
Proof.
  unfold tableStatement. rewrite writeBody_eq. rewrite margin_indent.
  cbn [writeEmpty writeLine outdent indent codegen.lines indentString
         indentations].
  unfold push. rewrite removelast_last.
  repeat split. unfold margin at 4. cbn [indentations].
  rewrite <- !app_assoc. cbn [app].
  do 2 f_equal. f_equal.
  - apply map_ext. intro l. unfold margin. cbn [indentations].
    now rewrite append_assoc.
  - unfold margin, outdent. cbn [indentations].
    now rewrite removelast_last.
Qed.

Lemma writeUniques_lines table uq w :
  codegen.lines (writeUniques table uq w)
  = (codegen.lines w
     ++ match uq with
        | [] => []
        | _ => [(margin w ++ "ALTER TABLE " ++ table)%string;
                (margin w ++ indentString w ++ "ADD UNIQUE ("
                 ++ join ", " uq ++ ");")%string;
                ""]
        end)%list.
Proof.
  destruct uq as [|u r]; [simpl; now rewrite app_nil_r|].
  unfold writeUniques.
  cbn [writeEmpty writeLine outdent codegen.lines].
  rewrite margin_indent.
  cbn [indent writeLine codegen.lines indentString indentations].
  unfold push. rewrite <- !app_assoc. cbn [app]. do 2 f_equal. f_equal.
  unfold margin. cbn [indentations]. now rewrite append_assoc.
Qed.

Lemma appends_tableStatement table body w :
  appends w (tableStatement table body w)
    ([(margin w ++ "CREATE TABLE " ++ table ++ " (")%string]
     ++ List.map (fun l => (margin w ++ indentString w ++ l)%string) (commas body)
     ++ [(margin w ++ ");")%string; ""]).
Proof.
  destruct (tableStatement_lines table body w) as (A & B & C).
  now repeat split.
Qed.

Lemma appends_writeUniques table uq w :
  appends w (writeUniques table uq w)
    (unique_statement (margin w) (indentString w) table uq).
Proof.
  split; [apply writeUniques_lines|].
  destruct uq; [now split|]. unfold writeUniques.
  cbn [writeEmpty writeLine outdent indent indentString indentations].
  unfold push. now rewrite removelast_last.
Qed.

Lemma appends_writeForeignKeyIndex table w n :
  appends w (writeForeignKeyIndex table w n)
    [(margin w ++ "CREATE INDEX ON " ++ table)%string;
     (margin w ++ indentString w ++ "(" ++ n ++ ");")%string].
Proof.
  unfold writeForeignKeyIndex.
  eapply appends_as;
    [eapply appends_trans;
     [apply appends_writeLine
     |apply (appends_indented (writeLine ("(" ++ n ++ ");")));
      apply appends_writeLine]|].
  rewrite margin_indent. cbn [app writeLine margin indentations indentString].
  now rewrite append_assoc.
Qed.

Lemma appends_writeForeignKeyIndexes table fks w :
  appends w (writeForeignKeyIndexes table fks w)
    (foreignKeyIndexPart (margin w) (indentString w) table fks).
Proof.
  unfold writeForeignKeyIndexes, foreignKeyIndexPart.
  destruct fks as [|k r]; [apply appends_refl|].
  eapply appends_trans; [|apply appends_writeEmpty].
  apply (appends_fold (writeForeignKeyIndex table)
           (fun m i n => [(m ++ "CREATE INDEX ON " ++ table)%string;
                          (m ++ i ++ "(" ++ n ++ ");")%string])).
  intros w0 n. apply appends_writeForeignKeyIndex.
Qed.

Lemma appends_writeTableComment options table elem w :
  appends w (writeTableComment options table (ent_documentation elem) w)
    (tableCommentPart (margin w) (indentString w) table options elem).
Proof.
  unfold writeTableComment, tableCommentPart.
  destruct (ent_documentation elem) as [d|]; [|apply appends_refl].
  destruct (truthy d && negb (opt_tableInserts options)); [|apply appends_refl].
  eapply appends_as;
    [eapply appends_trans;
     [apply appends_writeLine
     |apply (appends_indented (writeLine ("IS " ++ asComment d ++ ";")));
      apply appends_writeLine]|].
  rewrite margin_indent. cbn [app writeLine margin indentations indentString].
  now rewrite append_assoc.
Qed.

Lemma appends_writeColumnComment table w cm :
  appends w (writeColumnComment table w cm)
    [(margin w ++ "COMMENT ON COLUMN " ++ table ++ "." ++ cm_col cm)%string;
     (margin w ++ indentString w ++ "IS " ++ cm_doc cm ++ ";")%string].
Proof.
  unfold writeColumnComment.
  eapply appends_as;
    [eapply appends_trans;
     [apply appends_writeLine
     |apply (appends_indented (writeLine ("IS " ++ cm_doc cm ++ ";")));
      apply appends_writeLine]|].
  rewrite margin_indent. cbn [app writeLine margin indentations indentString].
  now rewrite append_assoc.
Qed.

Lemma flat_map_flat_map {A B C} (f : A -> list B) (g : B -> list C) l :
  flat_map g (flat_map f l) = flat_map (fun a => flat_map g (f a)) l.
Proof.
  induction l as [|a l IH]; [reflexivity|].
  cbn [flat_map]. now rewrite flat_map_app, IH.
Qed.

Lemma flat_map_filter {A B} (p : A -> bool) (f : A -> list B) l :
  (forall a, p a = false -> f a = []) ->
  flat_map f l = flat_map f (filter p l).
Proof.
  intro H. induction l as [|a l IH]; [reflexivity|].
  cbn [flat_map filter]. destruct (p a) eqn:E; cbn [flat_map].
  - now rewrite IH.
  - now rewrite (H a E), IH.
Qed.

Lemma flat_map_ext_in {A B} (f g : A -> list B) l :
  (forall a, In a l -> f a = g a) -> flat_map f l = flat_map g l.
Proof.
  induction l as [|a l IH]; intro H; [reflexivity|].
  cbn [flat_map]. rewrite (H a (or_introl eq_refl)), IH; [reflexivity|].
  intros x Hx. apply H. now right.
Qed.

Lemma filter_twice {A} (p q : A -> bool) l :
  filter p (filter q l) = filter (fun a => q a && p a) l.
Proof.
  induction l as [|a l IH]; [reflexivity|].
  cbn [filter]. destruct (q a); cbn [filter andb]; [|exact IH].
  destruct (p a); now rewrite IH.
Qed.

Lemma appends_columnComments table cols w :
  appends w
    (fold_left (writeColumnComment table)
               (flat_map comment_of (filter named cols)) w)
    (columnCommentPart (margin w) (indentString w) table cols).
Proof.
  eapply appends_as.
  - apply (appends_fold (writeColumnComment table)
             (fun m i cm =>
                [(m ++ "COMMENT ON COLUMN " ++ table ++ "." ++ cm_col cm)%string;
                 (m ++ i ++ "IS " ++ cm_doc cm ++ ";")%string])).
    intros w0 cm. apply appends_writeColumnComment.
  - rewrite flat_map_flat_map. unfold columnCommentPart, commented.
    rewrite (flat_map_filter
               (fun c => truthy_opt (col_documentation c))
               _ (filter named cols)).
    + rewrite filter_twice.
      apply flat_map_ext_in. intros c Hc. apply filter_In in Hc as [_ Hc].
      apply andb_true_iff in Hc as [_ Hd]. unfold comment_of.
      destruct (col_documentation c) as [d|]; [|discriminate].
      cbn [truthy_opt] in Hd. rewrite Hd. reflexivity.
    + intros c Hc. unfold comment_of.
      destruct (col_documentation c) as [d|]; [|reflexivity].
      cbn [truthy_opt] in Hc. now rewrite Hc.
Qed.

Lemma comments_empty cols :
  match flat_map comment_of (filter named cols) with [] => true | _ => false end
  = match filter commented cols with [] => true | _ => false end.
Proof.
  induction cols as [|c r IH]; [reflexivity|].
  cbn [filter]. unfold commented at 1. destruct (named c); cbn [andb flat_map].
  - unfold comment_of at 1.
    destruct (col_documentation c) as [d|]; cbn [truthy_opt];
      [destruct (truthy d)|]; cbn [app]; try reflexivity; exact IH.
  - exact IH.
Qed.

Lemma writeTriggers_value options tbl table tags :
  forall w,
  exists w',
    outcome (forEach (writeTrigger options tbl table) tags w) = Normal w'
    /\ appends w w' (triggerPart (margin w) (indentString w) table tbl
                                 options tags).
Proof.
  induction tags as [|t r IH]; intro w.
  - exists w. split; [reflexivity | apply appends_refl].
  - cbn [forEach]. rewrite outcome_bind.
    unfold writeTrigger at 1, triggerPart. cbn [flat_map].
    destruct (isTrigger options t) as [ref|].
    + rewrite outcome_bind, routineName_outcome, outcome_ret.
      remember (outdent
                  (writeEmpty
                     (writeEmpty
                        (writeLine (tag_value t)
                           (indent
                              (writeLine
                                 ("CREATE TRIGGER " ++ tbl ++ "_"
                                  ++ resolved (routineName t) ++ "  "
                                  ++ ref_value ref ++ " ON " ++ table) w))))))
        as w1 eqn:E1.
      assert (S : appends w w1
                    [(margin w ++ "CREATE TRIGGER " ++ tbl ++ "_"
                      ++ resolved (routineName t) ++ "  " ++ ref_value ref
                      ++ " ON " ++ table)%string;
                     (margin w ++ indentString w ++ tag_value t)%string;
                     ""; ""]).
      { subst w1.
        eapply appends_as;
          [eapply appends_trans;
           [apply appends_writeLine
           |apply (appends_indented
                     (fun x => writeEmpty (writeEmpty (writeLine (tag_value t) x))));
            eapply appends_trans;
            [eapply appends_trans; [apply appends_writeLine|apply appends_writeEmpty]
            |apply appends_writeEmpty]]|].
        rewrite margin_indent.
        cbn [app writeLine margin indentations indentString].
        now rewrite append_assoc. }
      clear E1. destruct (IH w1) as (w' & Hw & A).
      exists w'. split; [exact Hw|].
      rewrite (appends_margin _ _ _ S) in A.
      pose proof S as (_ & S2 & _). rewrite S2 in A.
      exact (appends_trans _ _ _ _ _ S A).
    + rewrite outcome_ret. destruct (IH w) as (w' & Hw & A).
      exists w'. now split.
Qed.

Lemma generateInserts_value options table elem w :
  seedable options elem = true ->
  exists w',
    outcome (generateInserts options table elem w) = Normal w'
    /\ appends w w' (insertPart (margin w) table options elem).
Proof.
  intro H. unfold seedable in H. unfold generateInserts, insertPart.
  destruct (opt_tableInserts options) eqn:Hins;
    [|exists w; split; [reflexivity | apply appends_refl]].
  destruct (ent_documentation elem) as [d|] eqn:Hdoc; [|discriminate].
  destruct (trim d) as [|c text] eqn:Et;
    [exists w; split; [reflexivity | apply appends_refl]|].
  cbn [String.length Nat.ltb Nat.leb truthy].
  rewrite outcome_bind, insertColumns_outcome. cbv beta iota zeta.
  rewrite outcome_ret. eexists. split; [reflexivity|].
  match goal with
  | |- context [fold_left (writeInsert ?h ?n) ?ls ?w0] =>
      destruct (writeInserts_lines h n ls w0) as (A & B & C);
      assert (Hh : h = "INSERT INTO " ++ table ++ " ("
                       ++ join "," (List.map colName (ent_columns elem))
                       ++ " ) VALUES ( ")
        by (now rewrite !append_assoc);
      rewrite Hh in *
  end.
  cbn [writeEmpty codegen.lines indentString indentations] in *.
  unfold appends. cbn [writeEmpty codegen.lines indentString indentations].
  split; [|split; [exact B|exact C]].
  unfold push. rewrite A. unfold push. rewrite <- !app_assoc.
  do 2 f_equal. f_equal.
  apply flat_map_ext. intro e. unfold margin. cbn [indentations].
  now rewrite insertLine_row.
Qed.

Lemma generateInserts_throws options table elem w :
  opt_tableInserts options = true ->
  ent_documentation elem = None ->
  outcome (generateInserts options table elem w)
  = Throw (TypeError "Cannot read properties of undefined (reading 'trim')").
Proof.
  intros Hins Hdoc. unfold generateInserts. now rewrite Hins, Hdoc.
Qed.

(** *** The user indexes *)

Lemma insertBySeq_perm (x : IdxDef) (l : list IdxDef) :
  Permutation (x :: l) (insertBySeq x l).
Proof.
  induction l as [|y r IH]; [reflexivity|].
  cbn [insertBySeq]. destruct (idx_seq x <=? idx_seq y)%Z; [reflexivity|].
  rewrite perm_swap. now constructor.
Qed.

Lemma insertBySeq_sorted (x : IdxDef) (l : list IdxDef) :
  StronglySorted by_seq l -> StronglySorted by_seq (insertBySeq x l).
Proof.
  induction 1 as [|y r Hr IH Hy]; [repeat constructor|].
  cbn [insertBySeq]. destruct (Z.leb_spec (idx_seq x) (idx_seq y)) as [L|L].
  - constructor; [now constructor|]. constructor; [exact L|].
    eapply Forall_impl; [|exact Hy]. unfold by_seq. intros; lia.
  - constructor; [exact IH|].
    apply (Permutation_Forall (insertBySeq_perm x r)).
    constructor; [unfold by_seq; lia | exact Hy].
Qed.

Lemma insertBySeq_filter (k : Z) (x : IdxDef) (l : list IdxDef) :
  filter (fun d => (idx_seq d =? k)%Z) (insertBySeq x l)
  = filter (fun d => (idx_seq d =? k)%Z) (x :: l).
Proof.
  induction l as [|y r IH]; [reflexivity|].
  cbn [insertBySeq]. destruct (Z.leb_spec (idx_seq x) (idx_seq y)) as [L|L];
    [reflexivity|].
  cbn [filter] in *. rewrite IH.
  destruct (Z.eqb_spec (idx_seq x) k), (Z.eqb_spec (idx_seq y) k);
    try reflexivity; lia.
Qed.

Lemma store_keys (acc : PropArray) (idx : IdxDef) :
  List.map fst (store acc idx)
  = if existsb (fun kv => String.eqb (fst kv) (idx_idxName idx)) acc
    then List.map fst acc
    else (List.map fst acc ++ [idx_idxName idx])%list.
Proof.
  induction acc as [|[k o] r IH]; [reflexivity|].
  cbn [store existsb fst].
  destruct (String.eqb k (idx_idxName idx)); cbn [orb List.map fst]; [reflexivity|].
  rewrite IH. now destruct (existsb _ r).
Qed.

Lemma store_groups (acc : PropArray) (idx : IdxDef) (k : string)
    (o : list IdxDef) :
  NoDup (List.map fst acc) ->
  In (k, o) (store acc idx) ->
  (k <> idx_idxName idx /\ In (k, o) acc)
  \/ (k = idx_idxName idx
      /\ exists o', o = push o' idx
                    /\ (In (k, o') acc
                        \/ (o' = [] /\ ~ In k (List.map fst acc)))).
Proof.
  induction acc as [|[k' o'] r IH]; cbn [store List.map fst].
  - intros _ [[= <- <-]|[]]. right. split; [reflexivity|].
    exists []. split; [reflexivity|]. right. split; [reflexivity | intros []].
  - intro ND. inversion ND as [|? ? Hk' NDr]; subst.
    destruct (String.eqb_spec k' (idx_idxName idx)) as [E|E].
    + intros [[= <- <-]|H].
      * right. split; [exact E|]. exists o'. split; [reflexivity|]. left. now left.
      * left. split; [|now right].
        intros ->. apply Hk'. rewrite E.
        change (idx_idxName idx) with (fst (idx_idxName idx, o)).
        now apply in_map.
    + intros [[= <- <-]|H].
      * left. split; [exact E | now left].
      * destruct (IH NDr H) as [[N I]|[Ek (o'' & Eo & [I|[En I]])]].
        -- left. split; [exact N | now right].
        -- right. split; [exact Ek|]. exists o''. split; [exact Eo|]. left. now right.
        -- right. split; [exact Ek|]. exists o''. split; [exact Eo|]. right.
           split; [exact En|]. intros [F|F]; [congruence | now apply I].
Qed.

Lemma filter_none {A} (p : A -> bool) (l : list A) :
  (forall a, In a l -> p a = false) -> filter p l = [].
Proof.
  induction l as [|a r IH]; intro H; [reflexivity|].
  cbn [filter]. rewrite (H a (or_introl eq_refl)). apply IH.
  intros b Hb. apply H. now right.
Qed.

Lemma store_step (l : list IdxDef) (acc : PropArray) (idx : IdxDef) :
  groups_of l acc -> groups_of (l ++ [idx]) (store acc idx).
Proof.
  intros (ND & G & K). unfold groups_of. rewrite store_keys.
  assert (Hex : existsb (fun kv => String.eqb (fst kv) (idx_idxName idx)) acc = true
                <-> In (idx_idxName idx) (List.map fst acc)).
  { rewrite existsb_exists, in_map_iff. split.
    - intros ([k o] & I & E). apply String.eqb_eq in E. exists (k, o). now split.
    - intros ([k o] & E & I). exists (k, o). split; [exact I|].
      now apply String.eqb_eq. }
  split; [|split].
  - destruct (existsb _ acc) eqn:E; [exact ND|].
    apply NoDup_app; [exact ND | repeat constructor; intros [] |].
    intros x Hx [<-|[]]. apply Hex in Hx. congruence.
  - intros k o H. rewrite filter_app. cbn [filter]. unfold named_like at 2.
    destruct (store_groups acc idx k o ND H)
      as [[N I]|[-> (o' & -> & [I|[-> I]])]].
    + destruct (G k o I) as [Ho ->]. split; [exact Ho|].
      destruct (String.eqb_spec (idx_idxName idx) k); [congruence|].
      now rewrite app_nil_r.
    + destruct (G _ o' I) as [_ ->]. rewrite String.eqb_refl.
      split; [destruct (filter _ l); discriminate | reflexivity].
    + rewrite String.eqb_refl. split; [discriminate|].
      assert (E : filter (named_like (idx_idxName idx)) l = []).
      { apply filter_none. intros d Hd. unfold named_like.
        destruct (String.eqb_spec (idx_idxName d) (idx_idxName idx)) as [E|E];
          [|reflexivity].
        exfalso. apply I. rewrite <- E. now apply K. }
      now rewrite E.
  - intros d Hd. apply in_app_or in Hd as [Hd|[<-|[]]].
    + destruct (existsb _ acc); [now apply K|].
      apply in_or_app. left. now apply K.
    + destruct (existsb _ acc) eqn:E; [now apply Hex|].
      apply in_or_app. right. now left.
Qed.

Lemma store_invariant (idxDef : list IdxDef) :
  groups_of idxDef (fold_left store idxDef []).
Proof.
  induction idxDef as [|d l IH] using rev_ind.
  - split; [constructor|]. split; [intros k o [] | intros d []].
  - rewrite fold_left_app. cbn [fold_left]. now apply store_step.
Qed.

Lemma sortBySeq_perm o : Permutation o (sortBySeq o).
Proof.
  unfold sortBySeq. induction o as [|x o IH]; cbn [fold_right]; [constructor|].
  rewrite <- insertBySeq_perm. now constructor.
Qed.

(** An array index is spelled in one way. *)
Lemma array_index_name key n : array_index key = Some n -> key = key_name n.
Proof.
  unfold array_index, key_name.
  destruct (NilZero.int_of_string key) as [[d|d]|]; try discriminate.
  destruct (String.eqb_spec (NilZero.string_of_uint (N.to_uint (N.of_uint d))) key)
    as [E|E]; [|discriminate].
  cbn [andb]. destruct (N.of_uint d <? 4294967295)%N; [|discriminate].
  intros [= <-]. now symmetry.
Qed.

Lemma inherited_name_false key :
  inherited_name key = false ->
  String.eqb key "length" = false /\ String.eqb key "__proto__" = false
  /\ existsb (String.eqb key) arrayMembers = false.
Proof.
  unfold inherited_name. intro H.
  apply orb_false_iff in H as [H C]. apply orb_false_iff in H as [A B].
  now repeat split.
Qed.

Lemma groupPush_plain P idx :
  inherited_name (idx_idxName idx) = false ->
  groupPush {| properties := P; onPrototype := [] |} idx
  = Normal {| properties := store P idx; onPrototype := [] |}.
Proof.
  intro H. apply inherited_name_false in H as (A & B & C).
  unfold groupPush. cbn [properties onPrototype].
  destruct (ownProperty P (idx_idxName idx)); [reflexivity|].
  rewrite A, B, C. cbn [List.length N.of_nat].
  destruct (array_index (idx_idxName idx)) as [n|]; [|reflexivity].
  now destruct n.
Qed.

Lemma reduce_plain idxDef :
  forallb (fun d => negb (inherited_name (idx_idxName d))) idxDef = true ->
  forall P,
    reduce idxDef {| properties := P; onPrototype := [] |}
    = Normal {| properties := fold_left store idxDef P; onPrototype := [] |}.
Proof.
  induction idxDef as [|d r IH]; intros H P; [reflexivity|].
  cbn [forallb] in H. apply andb_true_iff in H as [Hd Hr].
  apply negb_true_iff in Hd.
  cbn [reduce fold_left]. rewrite (groupPush_plain P d Hd). now apply IH.
Qed.

Lemma tagsByValue_none key tags :
  tagByValue key tags = None -> tagsByValue key tags = [].
Proof.
  unfold tagByValue, tagsByValue. intro H.
  apply filter_none. intros t Ht. exact (find_none _ _ H t Ht).
Qed.

Lemma collectIdxDefs_value cols :
  forall acc,
    outcome (forEach (fun idxDef col =>
                        colName <- columnName (col_name col) (col_tags col) ;;
                        ret (idxDef ++ idxDefs_of_tags colName
                                         (tagsByValue "index" (col_tags col)))%list)
                     cols acc)
    = Normal (acc ++ flat_map (fun c => idxDefs_of_tags (colName c)
                                          (tagsByValue "index" (col_tags c)))
                              cols)%list.
Proof.
  induction cols as [|c r IH]; intro acc.
  - cbn. now rewrite app_nil_r.
  - cbn [forEach flat_map]. rewrite outcome_bind.
    rewrite outcome_bind, columnName_outcome, outcome_ret.
    rewrite IH. fold (colName c). now rewrite <- app_assoc.
Qed.

Lemma collectIdxDefs_outcome elem :
  outcome (collectIdxDefs (getIndexColumns elem)) = Normal (index_definitions elem).
Proof.
  unfold collectIdxDefs. rewrite collectIdxDefs_value. cbn [app].
  unfold getIndexColumns, index_definitions. f_equal. symmetry.
  apply flat_map_filter. intros c Hc.
  destruct (tagByValue "index" (col_tags c)) eqn:E; [discriminate|].
  now rewrite (tagsByValue_none _ _ E).
Qed.

Lemma index_definitions_names elem :
  List.map idx_idxName (index_definitions elem) = index_names elem.
Proof.
  unfold index_definitions, index_names.
  induction (ent_columns elem) as [|c r IH]; [reflexivity|].
  cbn [flat_map]. rewrite map_app, IH. f_equal.
  unfold idxDefs_of_tags. rewrite map_map. reflexivity.
Qed.

Lemma plain_indexes_definitions elem :
  plain_indexes elem = true ->
  forallb (fun d => negb (inherited_name (idx_idxName d)))
          (index_definitions elem) = true.
Proof.
  unfold plain_indexes. rewrite <- index_definitions_names.
  induction (index_definitions elem) as [|d r IH]; [reflexivity|].
  cbn [List.map forallb]. intro H. apply andb_true_iff in H as [-> H].
  now apply IH.
Qed.

Lemma groupByName_plain elem :
  plain_indexes elem = true ->
  groupByName (index_definitions elem)
  = Normal {| properties := fold_left store (index_definitions elem) [];
              onPrototype := [] |}.
Proof.
  intro H. unfold groupByName.
  now apply reduce_plain, plain_indexes_definitions.
Qed.

(** A list in strictly increasing order of a key is determined by its
    elements. *)
Lemma sorted_unique {A} (f : A -> N) (l1 : list A) :
  forall l2,
    StronglySorted (fun a b => (f a < f b)%N) l1 ->
    StronglySorted (fun a b => (f a < f b)%N) l2 ->
    (forall x, In x l1 <-> In x l2) ->
    l1 = l2.
Proof.
  induction l1 as [|a l1 IH]; intros [|b l2] S1 S2 H.
  - reflexivity.
  - exfalso. apply (proj2 (H b)). now left.
  - exfalso. apply (proj1 (H a)). now left.
  - apply StronglySorted_inv in S1 as [S1 F1].
    apply StronglySorted_inv in S2 as [S2 F2].
    rewrite Forall_forall in F1, F2.
    assert (E : a = b).
    { destruct (proj1 (H a) (or_introl eq_refl)) as [E|Ha]; [now symmetry|].
      destruct (proj2 (H b) (or_introl eq_refl)) as [E|Hb]; [exact E|].
      specialize (F1 b Hb). specialize (F2 a Ha). lia. }
    subst b. f_equal. apply IH; [exact S1 | exact S2|].
    intro x. split; intro Hx.
    + destruct (proj1 (H x) (or_intror Hx)) as [E|I]; [|exact I].
      subst x. specialize (F1 a Hx). lia.
    + destruct (proj2 (H x) (or_intror Hx)) as [E|I]; [|exact I].
      subst x. specialize (F2 a Hx). lia.
Qed.

Lemma insertByIndex_perm e l : Permutation (e :: l) (insertByIndex e l).
Proof.
  induction l as [|h r IH]; [reflexivity|].
  cbn [insertByIndex]. destruct (fst e <=? fst h)%N; [reflexivity|].
  rewrite perm_swap. now constructor.
Qed.

Lemma insertByIndex_sorted e l :
  ~ In (fst e) (List.map fst l) ->
  StronglySorted (fun a b : N * Element => (fst a < fst b)%N) l ->
  StronglySorted (fun a b : N * Element => (fst a < fst b)%N)
                 (insertByIndex e l).
Proof.
  intros N S. induction S as [|h r Sr IH Hh]; [repeat constructor|].
  cbn [insertByIndex]. cbn [List.map In] in N.
  destruct (N.leb_spec (fst e) (fst h)) as [L|L].
  - assert (L' : (fst e < fst h)%N).
    { apply N.le_lteq in L as [L|L]; [exact L|]. exfalso. apply N. now left. }
    constructor; [now constructor|]. constructor; [exact L'|].
    eapply Forall_impl; [|exact Hh]. intros; cbn in *; lia.
  - constructor; [apply IH; tauto|].
    apply (Permutation_Forall (insertByIndex_perm e r)).
    constructor; [exact L | exact Hh].
Qed.

Lemma sortByIndex_sorted (l : list (N * Element)) :
  NoDup (List.map fst l) ->
  StronglySorted (fun a b : N * Element => (fst a < fst b)%N)
                 (fold_right insertByIndex [] l)
  /\ Permutation l (fold_right insertByIndex [] l).
Proof.
  induction l as [|e l IH]; intro ND; [split; constructor|].
  cbn [List.map] in ND. inversion ND as [|? ? Ne NDl]; subst.
  destruct (IH NDl) as [S P]. cbn [fold_right]. split.
  - apply insertByIndex_sorted; [|exact S].
    intro H. apply Ne. apply in_map_iff in H as (x & E & Hx).
    apply in_map_iff. exists x. split; [exact E|].
    now apply (Permutation_in _ (Permutation_sym P)).
  - rewrite <- insertByIndex_perm. now constructor.
Qed.

Lemma insertKey_in k l x : In x (insertKey k l) <-> x = k \/ In x l.
Proof.
  induction l as [|h r IH]; cbn [insertKey In]; [intuition congruence|].
  destruct (N.ltb_spec k h); [cbn [In]; intuition congruence|].
  destruct (N.eqb_spec k h); cbn [In]; [intuition congruence|].
  rewrite IH. intuition congruence.
Qed.

Lemma insertKey_sorted k l :
  StronglySorted N.lt l -> StronglySorted N.lt (insertKey k l).
Proof.
  induction 1 as [|h r Sr IH Hh]; [repeat constructor|].
  cbn [insertKey]. destruct (N.ltb_spec k h) as [L|L].
  - constructor; [now constructor|]. constructor; [exact L|].
    eapply Forall_impl; [|exact Hh]. intros; cbn in *; lia.
  - destruct (N.eqb_spec k h) as [E|E]; [now constructor|].
    constructor; [exact IH|]. apply Forall_forall. intros x Hx.
    apply insertKey_in in Hx as [->|Hx]; [lia|].
    rewrite Forall_forall in Hh. now apply Hh.
Qed.

Lemma index_keys_sorted elem : StronglySorted N.lt (index_keys elem).
Proof.
  unfold index_keys.
  induction (flat_map _ (index_names elem)) as [|k l IH]; [constructor|].
  cbn [fold_right]. now apply insertKey_sorted.
Qed.

Lemma index_keys_in elem n :
  In n (index_keys elem)
  <-> exists key, In key (index_names elem) /\ array_index key = Some n.
Proof.
  unfold index_keys.
  assert (G : forall l, In n (fold_right insertKey [] l) <-> In n l).
  { induction l as [|k l IH]; [reflexivity|].
    cbn [fold_right In]. rewrite insertKey_in, IH. intuition congruence. }
  rewrite G, in_flat_map. split.
  - intros (key & Hk & Hn). exists key. split; [exact Hk|].
    destruct (array_index key) as [m|]; [|contradiction].
    destruct Hn as [->|[]]. reflexivity.
  - intros (key & Hk & Hn). exists key. split; [exact Hk|].
    rewrite Hn. now left.
Qed.

Lemma index_group_named elem key n :
  array_index key = Some n ->
  filter (named_like key) (index_definitions elem) = index_group elem n.
Proof.
  intro H. unfold index_group. apply filter_ext. intro d. unfold named_like.
  destruct (String.eqb_spec (idx_idxName d) key) as [->|E].
  - rewrite H. symmetry. apply N.eqb_refl.
  - destruct (array_index (idx_idxName d)) as [m|] eqn:Hm; [|reflexivity].
    destruct (N.eqb_spec m n) as [->|]; [|reflexivity].
    exfalso. apply E.
    now rewrite (array_index_name _ _ Hm), (array_index_name _ _ H).
Qed.

Lemma groups_of_in l acc k :
  groups_of l acc ->
  In k (List.map idx_idxName l) ->
  In (k, filter (named_like k) l) acc.
Proof.
  intros (_ & G & K) H. apply in_map_iff in H as (d & <- & Hd).
  specialize (K d Hd). apply in_map_iff in K as ([k o] & E & Hko).
  cbn [fst] in E. subst k. now destruct (G _ _ Hko) as [_ <-].
Qed.

Lemma groups_of_names l acc k o :
  groups_of l acc -> In (k, o) acc -> In k (List.map idx_idxName l).
Proof.
  intros (_ & G & _) H. destruct (G k o H) as [Ho ->].
  destruct (filter (named_like k) l) as [|d r] eqn:E; [contradiction|].
  assert (Hd : In d (filter (named_like k) l)) by (rewrite E; now left).
  apply filter_In in Hd as [Hd Hk]. unfold named_like in Hk.
  apply String.eqb_eq in Hk. subst k. now apply in_map.
Qed.

Lemma ownElements_in elem n e :
  In (n, e) (ownElements (fold_left store (index_definitions elem) []))
  <-> In n (index_keys elem) /\ e = Group (index_group elem n).
Proof.
  pose proof (store_invariant (index_definitions elem)) as G.
  unfold ownElements. rewrite in_flat_map, index_keys_in.
  rewrite <- index_definitions_names. split.
  - intros ([k o] & Hko & H). cbn [fst snd] in H.
    destruct (array_index k) as [m|] eqn:Hm; [|contradiction].
    destruct H as [[= <- <-]|[]].
    split; [exists k; split; [exact (groups_of_names _ _ _ _ G Hko) | exact Hm]|].
    destruct G as (_ & G & _). destruct (G k o Hko) as [_ ->].
    now rewrite (index_group_named elem k m Hm).
  - intros ((k & Hk & Hn) & ->).
    exists (k, filter (named_like k) (index_definitions elem)).
    split; [exact (groups_of_in _ _ _ G Hk)|]. cbn [fst snd]. rewrite Hn.
    left. now rewrite (index_group_named elem k n Hn).
Qed.

Lemma ownElements_keys (P : PropArray) :
  NoDup (List.map fst P) -> NoDup (List.map fst (ownElements P)).
Proof.
  induction P as [|[k o] r IH]; intro ND; [constructor|].
  cbn [List.map fst] in ND. inversion ND as [|? ? Nk NDr]; subst.
  unfold ownElements. cbn [flat_map fst snd].
  fold (ownElements r).
  destruct (array_index k) as [n|] eqn:Hn; [|now apply IH].
  cbn [app List.map fst]. constructor; [|now apply IH].
  intro H. apply Nk. apply in_map_iff in H as ([m e] & E & Hm).
  cbn [fst] in E. subst m. unfold ownElements in Hm.
  apply in_flat_map in Hm as ([k' o'] & Hk' & Hm). cbn [fst snd] in Hm.
  destruct (array_index k') as [m|] eqn:Hk'n; [|contradiction].
  destruct Hm as [[= <- <-]|[]].
  rewrite (array_index_name _ _ Hn), <- (array_index_name _ _ Hk'n).
  change k' with (fst (k', o')). now apply in_map.
Qed.

(** What [forEach] visits of the accumulator: the groups of the index
    names that are array indices, by increasing index. *)
Lemma arrayElements_plain elem :
  arrayElements {| properties := fold_left store (index_definitions elem) [];
                   onPrototype := [] |}
  = List.map (fun k => Group (index_group elem k)) (index_keys elem).
Proof.
  unfold arrayElements, inheritedElements. cbn [properties onPrototype].
  cbn [List.length seq List.map combine flat_map]. rewrite app_nil_r.
  set (P := fold_left store (index_definitions elem) []).
  destruct (sortByIndex_sorted (ownElements P)) as [S Pm].
  { apply ownElements_keys.
    now destruct (store_invariant (index_definitions elem)) as (ND & _). }
  rewrite (sorted_unique fst (fold_right insertByIndex [] (ownElements P))
             (List.map (fun k => (k, Group (index_group elem k)))
                       (index_keys elem))).
  - rewrite map_map. reflexivity.
  - exact S.
  - pose proof (index_keys_sorted elem) as K.
    induction K as [|k r Kr IH Hk]; [constructor|].
    cbn [List.map]. constructor; [exact IH|].
    rewrite Forall_map. exact Hk.
  - intros [n e]. split.
    + intro H. apply (Permutation_in _ (Permutation_sym Pm)) in H.
      apply ownElements_in in H as [Hn ->].
      apply in_map_iff. now exists n.
    + intro H. apply in_map_iff in H as (k & [= <- <-] & Hk).
      apply (Permutation_in _ Pm). now apply ownElements_in.
Qed.

Lemma index_group_key elem k d :
  In d (index_group elem k) -> idx_idxName d = key_name k.
Proof.
  unfold index_group. intro H. apply filter_In in H as [_ H].
  destruct (array_index (idx_idxName d)) as [n|] eqn:E; [|discriminate].
  apply N.eqb_eq in H. subst n. now apply array_index_name.
Qed.

Lemma index_group_inhabited elem k :
  In k (index_keys elem) -> index_group elem k <> [].
Proof.
  intro H. apply index_keys_in in H as (key & Hk & Hn).
  rewrite <- index_definitions_names in Hk.
  apply in_map_iff in Hk as (d & E & Hd).
  assert (I : In d (index_group elem k)).
  { unfold index_group. apply filter_In. split; [exact Hd|].
    rewrite E, Hn. apply N.eqb_refl. }
  intro N. now rewrite N in I.
Qed.

Lemma appends_writeIndex table w elem k :
  In k (index_keys elem) ->
  appends w (writeIndex table w (index_group elem k))
    (indexStatement (margin w) (indentString w) table k (index_group elem k)).
Proof.
  intro Hk. unfold writeIndex, indexStatement.
  assert (Hn : match sortBySeq (index_group elem k) with
               | x :: _ => idx_idxName x
               | [] => ""
               end = key_name k).
  { pose proof (sortBySeq_perm (index_group elem k)) as P.
    destruct (sortBySeq (index_group elem k)) as [|x r] eqn:E.
    - apply Permutation_sym, Permutation_nil in P.
      now elim (index_group_inhabited elem k Hk).
    - apply (index_group_key elem k).
      apply (Permutation_in _ (Permutation_sym P)). now left. }
  rewrite Hn.
  eapply appends_as;
    [eapply appends_trans;
     [eapply appends_trans; [apply appends_writeLine|apply appends_writeLine]
     |apply (appends_indented
               (writeLine ("(" ++ join ", "
                                    (idxCols_render
                                       (sortBySeq (index_group elem k)))
                               ++ ");")));
      apply appends_writeLine]|].
  rewrite margin_indent.
  cbn [app writeLine margin indentations indentString].
  now rewrite append_assoc.
Qed.

Lemma writeElements_value table elem keys :
  (forall k, In k keys -> In k (index_keys elem)) ->
  forall w,
  exists w',
    outcome (forEach (writeElement table)
               (List.map (fun k => Group (index_group elem k)) keys) w)
    = Normal w'
    /\ appends w w'
         (flat_map (fun k => indexStatement (margin w) (indentString w) table k
                               (index_group elem k)) keys).
Proof.
  induction keys as [|k r IH]; intros H w.
  - exists w. split; [reflexivity | apply appends_refl].
  - cbn [List.map forEach flat_map]. rewrite outcome_bind.
    cbn [writeElement]. rewrite outcome_ret.
    pose proof (appends_writeIndex table w elem k (H k (or_introl eq_refl))) as S.
    destruct (IH (fun x Hx => H x (or_intror Hx))
                 (writeIndex table w (index_group elem k))) as (w' & Hw & A).
    exists w'. split; [exact Hw|].
    rewrite (appends_margin _ _ _ S) in A.
    pose proof S as (_ & S2 & _). rewrite S2 in A.
    exact (appends_trans _ _ _ _ _ S A).
Qed.

(** What [writeUserIndexes] writes for an entity whose index names are
    no inherited member of arrays. *)
Lemma writeUserIndexes_value w table elem :
  plain_indexes elem = true ->
  exists w',
    outcome (writeUserIndexes w table elem) = Normal w'
    /\ appends w w' (userIndexPart (margin w) (indentString w) table elem).
Proof.
  intro H. unfold writeUserIndexes, userIndexPart.
  rewrite outcome_bind, collectIdxDefs_outcome.
  rewrite outcome_bind, outcome_lift, (groupByName_plain elem H).
  rewrite arrayElements_plain, outcome_bind.
  destruct (writeElements_value table elem (index_keys elem) (fun k Hk => Hk) w)
    as (w' & Hw & A).
  rewrite Hw, outcome_ret. eexists. split; [reflexivity|].
  eapply appends_trans; [exact A | apply appends_writeEmpty].
Qed.

(** *** The whole of generateTable *)

Lemma rewritten_has_reference options table cols :
  Forall has_reference
         (List.map (rewritten table) (filter (referencing options) cols)).
Proof.
  apply Forall_forall. intros c' H. apply in_map_iff in H as (c & <- & Hc).
  pose proof (referencing_has_reference options cols) as F.
  rewrite Forall_forall in F. specialize (F c Hc).
  unfold has_reference, rewritten in *. now destruct (isEnum c).
Qed.

Lemma withPrimaryKey_body table cols cms ctr sc fks :
  withPrimaryKey
    {| lines := List.map (declaration table) (filter named cols);
       primaryKeys := primary_key_names cols; foreignKeys := fks;
       foreignKeyCtr := ctr; uniques := unique_names cols;
       comments := cms; scanned := sc |}
  = tableBody table cols.
Proof.
  unfold withPrimaryKey, tableBody, primary_key_clause. cbn [primaryKeys lines].
  destruct (primary_key_names cols); [now rewrite app_nil_r | reflexivity].
Qed.

(** The step from a buffer that has grown by [ls] to one that grows by
    a part laid out for its margin. *)
Lemma appends_step w0 w1 w2 ls (part : string -> string -> list string) :
  appends w0 w1 ls ->
  appends w1 w2 (part (margin w1) (indentString w1)) ->
  appends w0 w2 (ls ++ part (margin w0) (indentString w0)).
Proof.
  intros A S. rewrite (appends_margin _ _ _ A) in S.
  pose proof A as (_ & A2 & _). rewrite A2 in S.
  exact (appends_trans _ _ _ _ _ A S).
Qed.

Lemma generateTable_script b elem options schema prefix :
  well_typed elem = true -> seedable options elem = true ->
  plain_indexes elem = true ->
  exists g,
    outcome (generateTable b elem options schema prefix) = Normal g
    /\ appends (codeWriter b) (codeWriter (buffers g))
         (tableScript (margin (codeWriter b)) (indentString (codeWriter b))
                      schema prefix options elem)
    /\ appends (dropWriter b) (dropWriter (buffers g))
         (dropScript (margin (dropWriter b)) schema prefix elem)
    /\ refs (buffers g) = (refs b ++ constraints schema prefix options elem)%list
    /\ columnsAfter g
       = List.map (afterRun (qualifiedName elem schema prefix)) (ent_columns elem).
Proof.
  intros Hwt Hseed Hplain. unfold well_typed in Hwt. unfold generateTable.
  rewrite outcome_bind, tableName_outcome. cbv beta iota zeta.
  fold (shortName elem prefix). set (tbl := shortName elem prefix).
  assert (Ht : schema ++ "." ++ tbl = qualifiedName elem schema prefix)
    by reflexivity.
  destruct (createEnums_value (schema ++ "." ++ tbl) _ Hwt
              {| en_writer := codeWriter b; en_drop := []; en_columns := [] |})
    as (en & Hen & A1 & D1 & C1).
  cbn [en_writer en_drop en_columns app] in A1, D1, C1.
  rewrite outcome_bind, Hen. cbv beta iota zeta.
  rewrite C1, outcome_bind, (scan_rewritten options schema tbl _ Hwt).
  cbv beta iota zeta.
  cbn [lines primaryKeys foreignKeys foreignKeyCtr uniques comments scanned].
  rewrite withPrimaryKey_body.
  rewrite outcome_bind,
    (pushForeignKeys_value _ _ _ (rewritten_has_reference options _ _)).
  cbv beta iota zeta.
  set (m := margin (codeWriter b)). set (i := indentString (codeWriter b)).
  (* the create buffer, step by step *)
  remember (writeEmpty
              (writeLine ");"
                 (outdent
                    (writeBody (tableBody (schema ++ "." ++ tbl) (ent_columns elem))
                       (indent
                          (writeLine ("CREATE TABLE " ++ (schema ++ "." ++ tbl) ++ " (")
                             (en_writer en)))))))
    as w2 eqn:E2.
  assert (A2 : appends (codeWriter b) w2
                 (enumPart m (schema ++ "." ++ tbl) (ent_columns elem)
                  ++ tablePart m i (schema ++ "." ++ tbl) (ent_columns elem))).
  { subst w2.
    apply (appends_step _ _ _ _
             (fun m i => tablePart m i (schema ++ "." ++ tbl) (ent_columns elem))
             A1).
    apply (appends_tableStatement (schema ++ "." ++ tbl)). }
  clear E2.
  remember (writeUniques (schema ++ "." ++ tbl) (unique_names (ent_columns elem)) w2)
    as w3 eqn:E3.
  assert (A3 : appends (codeWriter b) w3
                 ((enumPart m (schema ++ "." ++ tbl) (ent_columns elem)
                   ++ tablePart m i (schema ++ "." ++ tbl) (ent_columns elem))
                  ++ unique_statement m i (schema ++ "." ++ tbl)
                       (unique_names (ent_columns elem)))).
  { subst w3.
    apply (appends_step _ _ _ _
             (fun m i => unique_statement m i (schema ++ "." ++ tbl)
                           (unique_names (ent_columns elem))) A2).
    apply appends_writeUniques. }
  clear E3.
  remember (writeForeignKeyIndexes (schema ++ "." ++ tbl)
              (foreign_key_names (ent_columns elem)) w3) as w4 eqn:E4.
  assert (A4 : appends (codeWriter b) w4
                 (((enumPart m (schema ++ "." ++ tbl) (ent_columns elem)
                    ++ tablePart m i (schema ++ "." ++ tbl) (ent_columns elem))
                   ++ unique_statement m i (schema ++ "." ++ tbl)
                        (unique_names (ent_columns elem)))
                  ++ foreignKeyIndexPart m i (schema ++ "." ++ tbl)
                       (foreign_key_names (ent_columns elem)))).
  { subst w4.
    apply (appends_step _ _ _ _
             (fun m i => foreignKeyIndexPart m i (schema ++ "." ++ tbl)
                           (foreign_key_names (ent_columns elem))) A3).
    apply appends_writeForeignKeyIndexes. }
  clear E4.
  destruct (writeUserIndexes_value w4 (schema ++ "." ++ tbl) elem Hplain)
    as (w5 & H5 & S5).
  rewrite outcome_bind, H5. cbv beta iota zeta.
  pose proof (appends_step _ _ _ _
                (fun m i => userIndexPart m i (schema ++ "." ++ tbl) elem)
                A4 S5) as A5.
  pose proof (appends_step _ _ _ _
                (fun m i => tableCommentPart m i (schema ++ "." ++ tbl)
                              options elem)
                A5 (appends_writeTableComment options _ elem w5)) as A6.
  pose proof (appends_step _ _ _ _
                (fun m i => columnCommentPart m i (schema ++ "." ++ tbl)
                              (ent_columns elem))
                A6 (appends_columnComments _ _ _)) as A7.
  remember (fold_left (writeColumnComment (schema ++ "." ++ tbl))
              (flat_map comment_of (filter named (ent_columns elem)))
              (writeTableComment options (schema ++ "." ++ tbl)
                 (ent_documentation elem) w5))
    as w7 eqn:E7.
  clear E7.
  destruct (writeTriggers_value options tbl (schema ++ "." ++ tbl)
              (ent_tags elem) w7) as (w8 & H8 & S8).
  rewrite outcome_bind, H8. cbv beta iota zeta.
  pose proof (appends_step _ _ _ _
                (fun m i => triggerPart m i (schema ++ "." ++ tbl) tbl options
                              (ent_tags elem)) A7 S8) as A8.
  destruct (generateInserts_value options (schema ++ "." ++ tbl) elem w8 Hseed)
    as (w9 & H9 & S9).
  rewrite outcome_bind, H9. cbv beta iota zeta.
  pose proof (appends_step _ _ _ _
                (fun m _ => insertPart m (schema ++ "." ++ tbl) options elem)
                A8 S9) as A9.
  rewrite outcome_ret. eexists. split; [reflexivity|].
  cbn [buffers codeWriter dropWriter refs columnsAfter].
  split; [|split; [|split]].
  - rewrite comments_empty.
    eapply appends_as.
    + eapply appends_trans; [exact A9|].
      instantiate (1 := closingPart elem). unfold closingPart.
      destruct (negb (truthy_opt (ent_documentation elem))
                && match filter commented (ent_columns elem) with
                   | [] => true
                   | _ => false
                   end);
        [apply appends_refl | apply appends_writeEmpty].
    + unfold tableScript, afterTable, afterUniques. rewrite <- Ht.
      fold tbl. rewrite <- !app_assoc. reflexivity.
  - rewrite D1. unfold dropScript. rewrite <- Ht.
    generalize (filter isEnum (ent_columns elem)). intro l.
    assert (G : forall (l : list string) w,
               appends w (fold_left (fun w l => writeLine l w) l w)
                 (List.map (fun x => margin w ++ x) l)).
    { clear. induction l as [|x l IH]; intro w; [apply appends_refl|].
      cbn [fold_left List.map].
      eapply appends_as;
        [eapply appends_trans; [apply appends_writeLine|apply IH]|].
      reflexivity. }
    eapply appends_as;
      [eapply appends_trans; [apply appends_writeLine|apply G]|].
    cbn [app writeLine margin indentations]. rewrite map_map. reflexivity.
  - f_equal. unfold constraints. rewrite <- Ht. fold tbl.
    rewrite flat_map_concat_map, map_map, <- flat_map_concat_map.
    apply flat_map_ext. intro c. apply foreignKeyStatement_rewritten.
  - rewrite <- Ht. reflexivity.
Qed.

(** *** The names that are written *)

Lemma toLowerCase_truthy s : truthy (toLowerCase s) = truthy s.
Proof. now destruct s. Qed.

(** A column is named exactly when the name it asks for is a valid
    identifier; its name is then that identifier in lower case. *)
Lemma colName_valid (c : Column) :
  named c = isValidIdentifier (requestedName c)
  /\ colName c = if isValidIdentifier (requestedName c)
                 then toLowerCase (requestedName c) else "".
Proof.
  unfold named, colName, resolved, columnName. fold (requestedName c).
  destruct (isValidIdentifier (requestedName c)) eqn:E; cbn; [|now split].
  split; [|reflexivity]. rewrite toLowerCase_truthy.
  unfold isValidIdentifier in E. now apply andb_true_iff in E as [E _].
Qed.

Lemma primary_key_names_valid cols :
  primary_key_names cols
  = List.map (fun c => toLowerCase (requestedName c))
      (filter (fun c => isValidIdentifier (requestedName c) && col_primaryKey c)
              cols).
Proof.
  unfold primary_key_names. induction cols as [|c r IH]; [reflexivity|].
  cbn [filter]. destruct (colName_valid c) as [-> Hc].
  destruct (isValidIdentifier (requestedName c) && col_primaryKey c) eqn:E;
    [|exact IH].
  cbn [List.map]. rewrite IH, Hc.
  apply andb_true_iff in E as [-> _]. reflexivity.
Qed.

Lemma unique_names_valid cols :
  unique_names cols
  = List.map (fun c => toLowerCase (requestedName c))
      (filter (fun c => isValidIdentifier (requestedName c)
                        && negb (col_primaryKey c) && col_unique c) cols).
Proof.
  unfold unique_names. induction cols as [|c r IH]; [reflexivity|].
  cbn [filter]. destruct (colName_valid c) as [-> Hc].
  destruct (isValidIdentifier (requestedName c) && negb (col_primaryKey c)
            && col_unique c) eqn:E; [|exact IH].
  cbn [List.map]. rewrite IH, Hc.
  apply andb_true_iff in E as [E _]. apply andb_true_iff in E as [-> _].
  reflexivity.
Qed.

Lemma trim_truthy d : trim d <> "" -> truthy d = true.
Proof. destruct d; [intro H; now elim H | reflexivity]. Qed.

Lemma throws_bind {A B} (m : M A) (f : A -> M B) :
  (forall a, throws (f a)) -> throws (bind m f).
Proof.
  intro H. unfold throws. rewrite outcome_bind.
  destruct (outcome m) as [a|e]; [apply H | now exists e].
Qed.

(** *** A group of entities *)

Lemma generable_parts options elem :
  generable options elem = true ->
  well_typed elem = true /\ seedable options elem = true
  /\ plain_indexes elem = true.
Proof.
  unfold generable. intro H. apply andb_true_iff in H as [H C].
  apply andb_true_iff in H as [A B]. now repeat split.
Qed.

Lemma generateDiagramEntity_script options schema prefix b elem :
  generable options elem = true ->
  exists b',
    outcome (generateDiagramEntity options schema prefix b elem) = Normal b'
    /\ appends (codeWriter b) (codeWriter b')
         (tableScript (margin (codeWriter b)) (indentString (codeWriter b))
                      schema prefix options elem)
    /\ appends (dropWriter b) (dropWriter b')
         (dropScript (margin (dropWriter b)) schema prefix elem)
    /\ refs b' = (refs b ++ constraints schema prefix options elem)%list.
Proof.
  intro H. apply generable_parts in H as (Hwt & Hseed & Hplain).
  destruct (generateTable_script b elem options schema prefix Hwt Hseed Hplain)
    as (g & Hg & A & D & R & _).
  exists (buffers g). unfold generateDiagramEntity.
  rewrite outcome_bind. cbn [emit outcome fst].
  rewrite outcome_bind.
  change (fst (generateTable b elem options schema prefix))
    with (outcome (generateTable b elem options schema prefix)).
  rewrite Hg, outcome_ret.
  split; [reflexivity|]. split; [exact A|]. split; [exact D | exact R].
Qed.

(** The entities of a group are written one after the other, each with
    its own script. *)
Lemma generateDiagramEntities_script options schema prefix entities :
  forallb (generable options) entities = true ->
  forall b,
  exists b',
    outcome (forEach (generateDiagramEntity options schema prefix) entities b)
    = Normal b'
    /\ appends (codeWriter b) (codeWriter b')
         (flat_map (tableScript (margin (codeWriter b))
                                (indentString (codeWriter b))
                                schema prefix options) entities)
    /\ appends (dropWriter b) (dropWriter b')
         (flat_map (dropScript (margin (dropWriter b)) schema prefix) entities)
    /\ refs b'
       = (refs b ++ flat_map (constraints schema prefix options) entities)%list.
Proof.
  induction entities as [|e r IH]; intros H b.
  - exists b. cbn [forEach flat_map]. rewrite app_nil_r.
    split; [reflexivity|]. split; [apply appends_refl|].
    split; [apply appends_refl | reflexivity].
  - cbn [forallb] in H. apply andb_true_iff in H as [He Hr].
    destruct (generateDiagramEntity_script options schema prefix b e He)
      as (b1 & H1 & A1 & D1 & R1).
    destruct (IH Hr b1) as (b' & H' & A' & D' & R').
    exists b'. cbn [forEach flat_map]. rewrite outcome_bind, H1.
    split; [exact H'|]. split; [|split].
    + exact (appends_step _ _ _ _
               (fun m i => flat_map (tableScript m i schema prefix options) r)
               A1 A').
    + exact (appends_step _ _ _ _
               (fun m _ => flat_map (dropScript m schema prefix) r) D1 D').
    + rewrite R', R1. now rewrite <- app_assoc.
Qed.
End Generation.

(* ================================================================== *)
(** ** The statements of a table *)

(** *** Rows and fields *)

Lemma split_plain (sep : ascii) (s : string) :
  has_char sep s = false -> split sep s = [s].
Proof.
  unfold has_char. rewrite negb_false_iff.
  induction s as [|c s IH]; [reflexivity|].
  cbn [all_chars split]. intro H. apply andb_true_iff in H as [Hc Hs].
  apply negb_true_iff in Hc. rewrite Hc, (IH Hs). reflexivity.
Qed.

Lemma split_app (sep : ascii) (s t : string) :
  has_char sep s = false ->
  split sep (s ++ String sep t) = s :: split sep t.
Proof.
  unfold has_char. rewrite negb_false_iff.
  induction s as [|c s IH]; intro H.
  - cbn [append split]. now rewrite Ascii.eqb_refl.
  - cbn [all_chars] in H. apply andb_true_iff in H as [Hc Hs].
    apply negb_true_iff in Hc. cbn [append split]. rewrite Hc, (IH Hs).
    reflexivity.
Qed.

(** Splitting undoes joining, when no part holds the separator. *)
Lemma split_join (sep : ascii) (parts : list string) :
  parts <> [] ->
  forallb (fun p => negb (has_char sep p)) parts = true ->
  split sep (join (String sep "") parts) = parts.
Proof.
  induction parts as [|p [|q r] IH]; intros N H; [contradiction| |].
  - cbn [forallb] in H. apply andb_true_iff in H as [H _].
    apply negb_true_iff in H. now apply split_plain.
  - cbn [forallb] in H. apply andb_true_iff in H as [Hp Hr].
    apply negb_true_iff in Hp.
    change (join (String sep "") (p :: q :: r))
      with (p ++ String sep (join (String sep "") (q :: r))).
    rewrite (split_app sep p _ Hp). f_equal. apply IH; [discriminate|exact Hr].
Qed.

Lemma has_char_app c s t :
  has_char c (s ++ t) = has_char c s || has_char c t.
Proof.
  unfold has_char. induction s as [|x s IH]; [reflexivity|].
  cbn [append all_chars]. rewrite negb_andb, negb_involutive.
  rewrite negb_andb, negb_involutive, <- orb_assoc. now rewrite <- IH.
Qed.

Lemma has_char_join c sep fields :
  has_char c sep = false ->
  forallb (fun f => negb (has_char c f)) fields = true ->
  has_char c (join sep fields) = false.
Proof.
  intros Hs. induction fields as [|f [|g r] IH]; intro H; [reflexivity| |].
  - cbn [forallb] in H. apply andb_true_iff in H as [H _].
    now apply negb_true_iff in H.
  - cbn [forallb] in H. apply andb_true_iff in H as [Hf Hr].
    apply negb_true_iff in Hf.
    change (join sep (f :: g :: r)) with (f ++ sep ++ join sep (g :: r)).
    rewrite !has_char_app, Hf, Hs. cbn [orb]. now apply IH.
Qed.

(** The lines of a text of rows are its rows, and the fields of a line
    are those of its row. *)
Lemma rows_text_lines rows :
  well_formed_rows rows = true ->
  split newline (rows_text rows) = List.map (join "|") rows
  /\ forall fields, In fields rows -> split pipe (join "|" fields) = fields.
Proof.
  unfold well_formed_rows, rows_text. intro H.
  destruct rows as [|r0 rs] eqn:E; [discriminate|]. rewrite <- E in *.
  assert (N : rows <> []) by (rewrite E; discriminate). clear E.
  rewrite forallb_forall in H. split.
  - apply (split_join newline).
    + destruct rows; [contradiction | discriminate].
    + apply forallb_forall. intros l Hl. apply in_map_iff in Hl as (fs & <- & Hfs).
      specialize (H fs Hfs). destruct fs as [|f fs']; [discriminate|].
      apply negb_true_iff. apply has_char_join; [reflexivity|].
      apply forallb_forall. intros x Hx. rewrite forallb_forall in H.
      specialize (H x Hx). now apply andb_true_iff in H as [_ H].
  - intros fs Hfs. specialize (H fs Hfs).
    destruct fs as [|f fs'] eqn:E; [discriminate|]. rewrite <- E in *.
    apply (split_join pipe); [rewrite E; discriminate|].
    apply forallb_forall. intros x Hx. rewrite forallb_forall in H.
    specialize (H x Hx). now apply andb_true_iff in H as [H _].
Qed.

Lemma split_inhabited (sep : ascii) (s : string) : split sep s <> [].
Proof.
  destruct s as [|c r]; [discriminate|]. cbn [split].
  destruct (Ascii.eqb c sep); [discriminate|].
  destruct (split sep r); discriminate.
Qed.

(** Joining undoes splitting. *)
Lemma join_split (sep : ascii) (s : string) :
  join (String sep "") (split sep s) = s.
Proof.
  induction s as [|c r IH]; [reflexivity|]. cbn [split].
  pose proof (split_inhabited sep r) as N.
  destruct (Ascii.eqb_spec c sep) as [->|_].
  - destruct (split sep r) as [|h t]; [contradiction|].
    change (join (String sep "") ("" :: h :: t))
      with (String sep (join (String sep "") (h :: t))).
    now rewrite IH.
  - destruct (split sep r) as [|h [|x t]]; [contradiction| |].
    + cbn [join] in *. now rewrite IH.
    + change (join (String sep "") (String c h :: x :: t))
        with (String c (join (String sep "") (h :: x :: t))).
      now rewrite IH.
Qed.

(** No part of a split holds a character that the whole does not hold,
    nor the separator. *)
Lemma split_parts (sep c : ascii) (s : string) :
  has_char c s = false \/ c = sep ->
  forallb (fun p => negb (has_char c p)) (split sep s) = true.
Proof.
  unfold has_char. induction s as [|x r IH]; intro H; [reflexivity|].
  assert (Hr : negb (all_chars (fun y => negb (Ascii.eqb y c)) r) = false
               \/ c = sep).
  { destruct H as [H|H]; [left | now right].
    cbn [all_chars] in H. rewrite negb_false_iff in *.
    now apply andb_true_iff in H as [_ H]. }
  specialize (IH Hr). cbn [split].
  destruct (Ascii.eqb_spec x sep) as [->|Nx]; [exact IH|].
  assert (Hx : Ascii.eqb x c = false).
  { destruct H as [H| ->]; [|now apply Ascii.eqb_neq].
    cbn [all_chars] in H. rewrite negb_false_iff in H.
    apply andb_true_iff in H as [H _]. now apply negb_true_iff in H. }
  destruct (split sep r) as [|h t]; cbn [forallb all_chars] in *;
    rewrite Hx; cbn [negb andb]; [reflexivity | exact IH].
Qed.

(** Every text is a text of rows: its lines, each split at the pipes. *)
Lemma rows_of_text (s : string) :
  well_formed_rows (List.map (split pipe) (split newline s)) = true
  /\ rows_text (List.map (split pipe) (split newline s)) = s.
Proof.
  split.
  - unfold well_formed_rows.
    pose proof (split_inhabited newline s) as N.
    pose proof (split_parts newline newline s (or_intror eq_refl)) as P.
    assert (F : forallb (fun fields =>
                           match fields with
                           | [] => false
                           | _ => forallb (fun f => negb (has_char pipe f)
                                                    && negb (has_char newline f))
                                          fields
                           end) (List.map (split pipe) (split newline s)) = true);
      [|destruct (split newline s); [contradiction | exact F]].
    apply forallb_forall. intros fs Hfs.
    apply in_map_iff in Hfs as (line & <- & Hl).
    rewrite forallb_forall in P. specialize (P line Hl).
    apply negb_true_iff in P.
    pose proof (split_inhabited pipe line) as Nf.
    destruct (split pipe line) as [|f fs] eqn:Ef; [contradiction|].
    rewrite <- Ef. apply forallb_forall. intros x Hx.
    pose proof (split_parts pipe pipe line (or_intror eq_refl)) as P1.
    pose proof (split_parts pipe newline line (or_introl P)) as P2.
    rewrite forallb_forall in P1, P2.
    now rewrite (P1 x Hx), (P2 x Hx).
  - unfold rows_text. rewrite map_map.
    rewrite (map_ext _ (fun l => l) (fun l => join_split pipe l)), map_id.
    apply join_split.
Qed.

Section Statements.
Context {Q : Quoting}.

Lemma tablePart_clause m i table cols :
  tablePart m i table cols
  = ([(m ++ "CREATE TABLE " ++ table ++ " (")%string]
     ++ declarationLines m i table cols
     ++ primary_key_clause (m ++ i) (primary_key_names cols)
     ++ [(m ++ ");")%string; ""])%list.
Proof.
  unfold tablePart, tableBody, declarationLines, primary_key_clause.
  destruct (primary_key_names cols) as [|k ks].
  - now rewrite app_nil_r.
  - rewrite commas_snoc, map_app. cbn [List.map].
    rewrite <- !app_assoc. cbn [app]. now rewrite !append_assoc.
Qed.

Lemma tableScript_parts m i schema prefix options elem :
  tableScript m i schema prefix options elem
  = (beforeInserts m i schema prefix options elem
     ++ insertPart m (qualifiedName elem schema prefix) options elem
     ++ closingPart elem)%list.
Proof.
  unfold tableScript, afterTable, afterUniques, beforeInserts.
  now rewrite <- !app_assoc.
Qed.

(** C7, amended. On every entity whose columns are well typed, which
    has a documentation when seed rows are wanted, and none of whose
    indexes is named like something an empty array has or inherits,
    [generateTable] returns, and the inline PRIMARY KEY clause lists
    exactly the columns flagged primary key whose name is a valid
    identifier, in declaration order; when there is such a column the
    clause is the last line of the table body, after the declarations
    and right before the closing parenthesis, and otherwise there is no
    clause. *)
Theorem generateTable_primary_key b elem options schema prefix :
  generable options elem = true ->
  exists g,
    outcome (generateTable b elem options schema prefix) = Normal g
    /\ codegen.lines (codeWriter (buffers g))
       = (codegen.lines (codeWriter b)
          ++ enumPart (margin (codeWriter b)) (qualifiedName elem schema prefix)
                      (ent_columns elem)
          ++ [(margin (codeWriter b) ++ "CREATE TABLE "
               ++ qualifiedName elem schema prefix ++ " (")%string]
          ++ declarationLines (margin (codeWriter b))
               (indentString (codeWriter b))
               (qualifiedName elem schema prefix) (ent_columns elem)
          ++ primary_key_clause
               (margin (codeWriter b) ++ indentString (codeWriter b))
               (primary_key_names (ent_columns elem))
          ++ [(margin (codeWriter b) ++ ");")%string; ""]
          ++ afterTable (margin (codeWriter b)) (indentString (codeWriter b))
                        schema prefix options elem)%list
    /\ primary_key_names (ent_columns elem)
       = List.map (fun c => toLowerCase (requestedName c))
           (filter (fun c => isValidIdentifier (requestedName c)
                             && col_primaryKey c) (ent_columns elem)).
Proof.
  intro H. apply generable_parts in H as (Hwt & Hseed & Hplain).
  destruct (generateTable_script b elem options schema prefix Hwt Hseed Hplain)
    as (g & Hg & (A & _) & _).
  exists g. split; [exact Hg|]. split; [|apply primary_key_names_valid].
  rewrite A. unfold tableScript. rewrite tablePart_clause.
  now rewrite <- !app_assoc.
Qed.

(** C9, amended. On every entity whose columns are well typed, which
    has a documentation when seed rows are wanted, and none of whose
    indexes is named like something an empty array has or inherits,
    [generateTable] returns, and one ALTER TABLE ... ADD UNIQUE
    statement follows the table statement when some column is flagged
    unique, is not a primary key and has a valid name; it lists all
    such columns together, in declaration order. When there is no such
    column, the statements that come next follow the table statement
    directly. *)
Theorem generateTable_unique b elem options schema prefix :
  generable options elem = true ->
  exists g,
    outcome (generateTable b elem options schema prefix) = Normal g
    /\ codegen.lines (codeWriter (buffers g))
       = (codegen.lines (codeWriter b)
          ++ enumPart (margin (codeWriter b)) (qualifiedName elem schema prefix)
                      (ent_columns elem)
          ++ tablePart (margin (codeWriter b)) (indentString (codeWriter b))
                       (qualifiedName elem schema prefix) (ent_columns elem)
          ++ unique_statement (margin (codeWriter b))
               (indentString (codeWriter b))
               (qualifiedName elem schema prefix)
               (unique_names (ent_columns elem))
          ++ afterUniques (margin (codeWriter b)) (indentString (codeWriter b))
                          schema prefix options elem)%list
    /\ unique_names (ent_columns elem)
       = List.map (fun c => toLowerCase (requestedName c))
           (filter (fun c => isValidIdentifier (requestedName c)
                             && negb (col_primaryKey c) && col_unique c)
                   (ent_columns elem)).
Proof.
  intro H. apply generable_parts in H as (Hwt & Hseed & Hplain).
  destruct (generateTable_script b elem options schema prefix Hwt Hseed Hplain)
    as (g & Hg & (A & _) & _).
  exists g. split; [exact Hg|]. split; [|apply unique_names_valid].
  rewrite A. reflexivity.
Qed.

(** C8, amended. In seed-insert mode the entity's documentation,
    trimmed, is read one line per row: when the trimmed text is not
    empty, each of its lines becomes one INSERT statement, followed by
    an empty line, whose values are the line's pipe-delimited fields
    taken by column position, a missing or empty field being written
    as null. The statements come after everything else of the table's
    script, between two empty lines. The rows are given by their
    fields; every text is the text of such rows ([rows_of_text]). The
    columns are well typed and no index is named like something an
    empty array has or inherits. *)
Theorem generateTable_seed_inserts b elem options schema prefix d rows :
  well_typed elem = true ->
  plain_indexes elem = true ->
  opt_tableInserts options = true ->
  ent_documentation elem = Some d ->
  well_formed_rows rows = true ->
  trim d = rows_text rows ->
  trim d <> "" ->
  exists g,
    outcome (generateTable b elem options schema prefix) = Normal g
    /\ codegen.lines (codeWriter (buffers g))
       = (codegen.lines (codeWriter b)
          ++ beforeInserts (margin (codeWriter b)) (indentString (codeWriter b))
                           schema prefix options elem
          ++ [""]
          ++ flat_map
               (fun fields =>
                  [(margin (codeWriter b)
                    ++ insert_statement (qualifiedName elem schema prefix)
                                        (ent_columns elem) fields)%string;
                   ""])
               rows
          ++ [""; ""])%list.
Proof.
  intros Hwt Hplain Hins Hdoc Hrows Htext Hne.
  assert (Hseed : seedable options elem = true).
  { unfold seedable. rewrite Hdoc. apply orb_true_r. }
  destruct (generateTable_script b elem options schema prefix Hwt Hseed Hplain)
    as (g & Hg & (A & _) & _).
  exists g. split; [exact Hg|].
  rewrite A, tableScript_parts. unfold insertPart, closingPart.
  rewrite Hins, Hdoc. cbn [truthy_opt].
  rewrite (trim_truthy d Hne). cbn [negb andb].
  destruct (rows_text_lines rows Hrows) as [Hl Hf].
  rewrite Htext in *.
  assert (Ht : truthy (rows_text rows) = true).
  { destruct (rows_text rows); [now elim Hne | reflexivity]. }
  rewrite Ht, Hl. do 2 f_equal. cbn [app]. f_equal.
  rewrite <- app_assoc. cbn [app]. f_equal.
  rewrite flat_map_concat_map, map_map, <- flat_map_concat_map.
  apply flat_map_ext_in. intros fields Hin.
  unfold insert_row, insert_statement. now rewrite (Hf fields Hin).
Qed.

(** C10. With the seed-insert option on, the generation of an entity
    whose documentation is absent throws; when nothing before it throws
    (the columns are well typed and no index is named like a member of
    arrays) the exception is the one raised by reading [trim] of the
    absent documentation, where the insert statements are built. *)
Theorem generateTable_absent_documentation b elem options schema prefix :
  opt_tableInserts options = true ->
  ent_documentation elem = None ->
  throws (generateTable b elem options schema prefix)
  /\ (well_typed elem = true -> plain_indexes elem = true ->
      outcome (generateTable b elem options schema prefix)
      = Throw (TypeError "Cannot read properties of undefined (reading 'trim')")).
Proof.
  intros Hins Hdoc. split.
  - unfold generateTable.
    do 6 (apply throws_bind; intro).
    unfold throws. rewrite outcome_bind.
    rewrite (generateInserts_throws options _ elem _ Hins Hdoc).
    eexists. reflexivity.
  - intros Hwt Hplain. unfold well_typed in Hwt. unfold generateTable.
    rewrite outcome_bind, tableName_outcome. cbv beta iota zeta.
    fold (shortName elem prefix). set (tbl := shortName elem prefix).
    destruct (createEnums_value (schema ++ "." ++ tbl) _ Hwt
                {| en_writer := codeWriter b; en_drop := []; en_columns := [] |})
      as (en & Hen & _ & _ & C1).
    cbn [en_columns app] in C1.
    rewrite outcome_bind, Hen. cbv beta iota zeta.
    rewrite C1, outcome_bind, (scan_rewritten options schema tbl _ Hwt).
    cbv beta iota zeta.
    cbn [lines primaryKeys foreignKeys foreignKeyCtr uniques comments scanned].
    rewrite outcome_bind,
      (pushForeignKeys_value _ _ _ (rewritten_has_reference options _ _)).
    cbv beta iota zeta.
    match goal with
    | |- context [writeUserIndexes ?w ?t elem] =>
        destruct (writeUserIndexes_value w t elem Hplain) as (w5 & H5 & _)
    end.
    rewrite outcome_bind, H5. cbv beta iota zeta.
    match goal with
    | |- context [forEach (writeTrigger options tbl ?t) ?tags ?w] =>
        destruct (writeTriggers_value options tbl t tags w) as (w8 & H8 & _)
    end.
    rewrite outcome_bind, H8. cbv beta iota zeta.
    rewrite outcome_bind.
    now rewrite (generateInserts_throws options _ elem _ Hins Hdoc).
Qed.

(** C4, amended. An entity named "Order Item!" without a table
    annotation fails validation: an error diagnostic is emitted and the
    table name resolves to the empty string. When its columns are well
    typed, it has a documentation if seed rows are wanted, and none of
    its indexes is named like something an empty array has or inherits,
    [generateTable] returns on it and the entity's statements are
    written all the same, for the empty name, in the create and in the
    drop buffer; the entities that follow it in the group, when they
    meet the same conditions, are written after it, each with its own
    script. The buffers [b] are what the entities before it have
    left. *)
Theorem generateTable_invalid_name b elem options schema prefix :
  ent_name elem = "Order Item!" ->
  tag "table" (ent_tags elem) = None ->
  generable options elem = true ->
  tableName (ent_name elem) (ent_tags elem)
  = (Normal "",
     [ToastError "Table name is not valid: Order_Item!, please edit the table tag for Order Item!"])
  /\ exists g later,
    outcome (generateTable b elem options schema prefix) = Normal g
    /\ events (generateTable b elem options schema prefix)
       = ToastError "Table name is not valid: Order_Item!, please edit the table tag for Order Item!"
         :: later
    /\ codegen.lines (codeWriter (buffers g))
       = (codegen.lines (codeWriter b)
          ++ enumPart (margin (codeWriter b)) (schema ++ "." ++ prefix)
                      (ent_columns elem)
          ++ [(margin (codeWriter b) ++ "CREATE TABLE " ++ schema ++ "."
               ++ prefix ++ " (")%string]
          ++ List.map (fun l => (margin (codeWriter b)
                                 ++ indentString (codeWriter b) ++ l)%string)
               (commas (tableBody (schema ++ "." ++ prefix) (ent_columns elem)))
          ++ [(margin (codeWriter b) ++ ");")%string; ""]
          ++ afterTable (margin (codeWriter b)) (indentString (codeWriter b))
                        schema prefix options elem)%list
    /\ codegen.lines (dropWriter (buffers g))
       = (codegen.lines (dropWriter b)
          ++ (margin (dropWriter b) ++ "DROP TABLE IF EXISTS " ++ schema ++ "."
              ++ prefix ++ " CASCADE;")%string
             :: List.map (fun c => (margin (dropWriter b)
                                    ++ dropType (schema ++ "." ++ prefix) c)%string)
                  (filter isEnum (ent_columns elem)))%list
    /\ forall siblings,
         forallb (generable options) siblings = true ->
         exists b',
           outcome (forEach (generateDiagramEntity options schema prefix)
                      (elem :: siblings) b) = Normal b'
           /\ codegen.lines (codeWriter b')
              = (codegen.lines (codeWriter (buffers g))
                 ++ flat_map (tableScript (margin (codeWriter b))
                                (indentString (codeWriter b))
                                schema prefix options) siblings)%list
           /\ codegen.lines (dropWriter b')
              = (codegen.lines (dropWriter (buffers g))
                 ++ flat_map (dropScript (margin (dropWriter b)) schema prefix)
                             siblings)%list.
Proof.
  intros Hname Htag Hgen.
  assert (Htn : tableName (ent_name elem) (ent_tags elem)
                = (Normal "",
                   [ToastError "Table name is not valid: Order_Item!, please edit the table tag for Order Item!"])).
  { unfold tableName. rewrite Htag, Hname. reflexivity. }
  split; [exact Htn|].
  pose proof (generable_parts _ _ Hgen) as (Hwt & Hseed & Hplain).
  destruct (generateTable_script b elem options schema prefix Hwt Hseed Hplain)
    as (g & Hg & A & D & R & _).
  assert (Hq : qualifiedName elem schema prefix = schema ++ "." ++ prefix).
  { unfold qualifiedName, resolved. rewrite Htn. cbn [outcome fst].
    now rewrite append_nil_r. }
  assert (Hev : exists later,
             events (generateTable b elem options schema prefix)
             = ToastError "Table name is not valid: Order_Item!, please edit the table tag for Order Item!"
               :: later).
  { unfold generateTable. rewrite events_bind, Htn.
    eexists. reflexivity. }
  destruct Hev as [later Hev].
  exists g, later. split; [exact Hg|]. split; [exact Hev|].
  split; [|split].
  - destruct A as (A & _). rewrite A. unfold tableScript, tablePart.
    rewrite Hq. rewrite <- !app_assoc. cbn [app].
    now rewrite (append_assoc schema ("." ++ prefix) " (").
  - destruct D as (D & _). rewrite D. unfold dropScript. rewrite Hq.
    now rewrite (append_assoc schema ("." ++ prefix) " CASCADE;").
  - intros siblings Hs.
    destruct (generateDiagramEntities_script options schema prefix siblings Hs
                (buffers g)) as (b' & Hb' & A' & D' & _).
    exists b'. split.
    + cbn [forEach]. rewrite outcome_bind.
      unfold generateDiagramEntity at 1.
      rewrite outcome_bind. cbn [emit outcome fst].
      rewrite outcome_bind.
      change (fst (generateTable b elem options schema prefix))
        with (outcome (generateTable b elem options schema prefix)).
      rewrite Hg, outcome_ret. exact Hb'.
    + rewrite (appends_margin _ _ _ A), (appends_margin _ _ _ D) in *.
      destruct A as (_ & A2 & _). rewrite A2 in A'.
      destruct A' as (A' & _). destruct D' as (D' & _). now split.
Qed.
End Statements.

(* ================================================================== *)
(** ** A run of the generator *)

Section Run.
Context {Q : Quoting}.

(** C5, amended. When the element handed to [generate] is not a project
    the database generator reports an error, writes no file and returns
    false, and the completion message of the database step is not
    shown; the run is not aborted: the schema generator, and with it the
    function, procedure and table generators, runs on the element's
    data models all the same. *)
Theorem generate_without_project elem path options :
  root_isProject elem = false ->
  generateDatabase elem path options
  = (Normal (false, elem),
     [ToastError "No project found, database DDL generator expects a main project"])
  /\ events (generate elem path options)
     = ToastError "No project found, database DDL generator expects a main project"
       :: events (try_catch
                    (generateSchema elem path options ;;;
                     emit (InfoDialog ("Project DDL files generated in " ++ path)))
                    (fun ex => emit (ErrorDialog ex) ;;; emit (ConsoleLog ex))).
Proof.
  intro H.
  assert (Hdb : generateDatabase elem path options
                = (Normal (false, elem),
                   [ToastError "No project found, database DDL generator expects a main project"])).
  { unfold generateDatabase. rewrite H. reflexivity. }
  split; [exact Hdb|].
  unfold generate. rewrite Hdb. cbn [bind fst snd ret].
  destruct (generateSchema elem path options) as [[r|ex] ev]; reflexivity.
Qed.
End Run.

(** C1: the deferred statements of one diagram reappear in the next.
  The data model [shop] has two diagrams; the constraint of
  [order_item], accumulated for the first, is written again at the end
  of the second diagram's create file. *)
Theorem generateTables_refs_reappear :
generateTables shop "out" (sampleOptions false) "public" "shop"
= (Normal true,
   [ ToastInfo "Generate table DDL for order_item";
     ToastInfo "Generate table DDL for orders";
     WriteFile "out/shop_orders_create.sql"
       (join nl
          [ "CREATE TABLE public.order_item (";
            "    id serial NOT NULL,";
            "    order_id integer,";
            "    PRIMARY KEY (id)";
            ");";
            "";
            "CREATE INDEX ON public.order_item";
            "    (order_id);";
            "";
            "";
            "CREATE TABLE public.orders (";
            "    id serial NOT NULL,";
            "    PRIMARY KEY (id)";
            ");";
            "";
            "";
            "ALTER TABLE public.order_item ADD CONSTRAINT FK_order_item__order_id FOREIGN KEY (order_id) REFERENCES public.orders(id);" ]);
     WriteFile "out/shop_orders_drop.sql"
       (join nl
          [ "DROP TABLE IF EXISTS public.order_item CASCADE;";
            "DROP TABLE IF EXISTS public.orders CASCADE;" ]);
     ToastInfo "Generate table DDL for product";
     WriteFile "out/shop_catalog_create.sql"
       (join nl
          [ "CREATE TABLE public.product (";
            "    id serial NOT NULL,";
            "    PRIMARY KEY (id)";
            ");";
            "";
            "";
            "ALTER TABLE public.order_item ADD CONSTRAINT FK_order_item__order_id FOREIGN KEY (order_id) REFERENCES public.orders(id);" ]);
     WriteFile "out/shop_catalog_drop.sql"
       "DROP TABLE IF EXISTS public.product CASCADE;" ]).
Proof. vm_compute. reflexivity. Qed.

(** C2: no index statement for an index named "idx1". The groups are
  stored under their name on an array, and the loop over the array
  visits array indices only: for columns A(seq 2) and B(seq 1,
  descending) of index "idx1" [writeUserIndexes] writes its closing
  empty line and nothing else, and so does the whole of
  [generateTable]; named "1" the same index is written. *)
Theorem writeUserIndexes_named_group_lost :
writeUserIndexes (newCodeWriter "    ") "public.t" (indexed "idx1")
= (Normal {| codegen.lines := [""]; indentString := "    ";
             indentations := [] |}, [])
/\ createLines (generateTable emptyBuffers (indexed "idx1")
                  (sampleOptions false) "public" "")
   = Some [ "CREATE TABLE public.t ("; "    a integer,"; "    b integer";
            ");"; ""; "" ]
/\ writeUserIndexes (newCodeWriter "    ") "public.t" (indexed "1")
   = (Normal {| codegen.lines :=
                  [ " -- Index: 1"; "CREATE INDEX ON public.t";
                    "    (b DESC, a);"; "" ];
                indentString := "    "; indentations := [] |}, []).
Proof. repeat split; vm_compute; reflexivity. Qed.

(** C3, as stated, fails: a column whose type is the string "serial" is
  none of the three integer kinds and maps to "serial". *)
Lemma dataType_serial_passes_through :
lookup (col_type serialTyped) integer_kinds = None
/\ dataType serialTyped = Normal (VString "serial")
/\ auto_increment "serial" = true.
Proof. repeat split. Qed.

Lemma dataType_auto_increment_witness :
dataType (column "id" "INTEGER" (Some (-1)%Z) true false [])
= Normal (VString "serial")
/\ dataType (column "n" "INTEGER" None false false [])
   = Normal (VString "integer")
/\ (forall s, dataType (column "n" "TEXT" None false false [])
              = Normal (VString s) ->
              auto_increment s = true -> s = "TEXT").
Proof.
split; [|split].
- exact (proj1 (proj1 (dataType_auto_increment
                         (column "id" "INTEGER" (Some (-1)%Z) true false []))
                      "integer" "serial" eq_refl)).
- exact (proj1 (proj1 (dataType_auto_increment
                         (column "n" "INTEGER" None false false []))
                      "integer" "serial" eq_refl)).
- exact (proj2 (dataType_auto_increment
                  (column "n" "TEXT" None false false [])) eq_refl).
Defined.

(** C4, as stated, fails: the table statement of "Order Item!" is
  written, for the empty name. *)
Lemma generateTable_order_item_statement :
ent_name orderItemBang = "Order Item!"
/\ tag "table" (ent_tags orderItemBang) = None
/\ generateTable emptyBuffers orderItemBang (sampleOptions false) "public" ""
   = (Normal
        {| buffers :=
             {| codeWriter :=
                  {| codegen.lines :=
                       [ "CREATE TABLE public. ("; "    id integer"; ");";
                         ""; "" ];
                     indentString := "    "; indentations := [] |};
                dropWriter :=
                  {| codegen.lines := ["DROP TABLE IF EXISTS public. CASCADE;"];
                     indentString := "    "; indentations := [] |};
                refs := [] |};
           columnsAfter := ent_columns orderItemBang |},
      [ToastError "Table name is not valid: Order_Item!, please edit the table tag for Order Item!"]).
Proof. repeat split. Qed.

(** C5, as stated, fails: handed an element that is not a project, the
  run goes on after the error and writes the table files. *)
Lemma generate_goes_on_without_project :
root_isProject notAProject = false
/\ generate notAProject "out" (sampleOptions false)
   = (Normal tt,
      [ ToastError "No project found, database DDL generator expects a main project";
        ToastInfo "Generate table DDL for product";
        WriteFile "out/shop_table_create.sql"
          (join nl [ "CREATE TABLE public.product (";
                     "    id serial NOT NULL,";
                     "    PRIMARY KEY (id)"; ");"; ""; "" ]);
        WriteFile "out/shop_table_drop.sql"
          "DROP TABLE IF EXISTS public.product CASCADE;";
        InfoDialog "Project DDL files generated in out" ]).
Proof. split; vm_compute; reflexivity. Qed.

Lemma generate_without_project_witness :
generateDatabase notAProject "out" (sampleOptions false)
= (Normal (false, notAProject),
   [ToastError "No project found, database DDL generator expects a main project"])
/\ events (generate notAProject "out" (sampleOptions false))
   = ToastError "No project found, database DDL generator expects a main project"
     :: events (try_catch
                  (generateSchema notAProject "out" (sampleOptions false) ;;;
                   emit (InfoDialog ("Project DDL files generated in " ++ "out")))
                  (fun ex => emit (ErrorDialog ex) ;;; emit (ConsoleLog ex))).
Proof.
exact (generate_without_project notAProject "out" (sampleOptions false) eq_refl).
Defined.

Lemma columnDeclaration_default_witness :
exists line comments' elem',
  columnDeclaration "phone"
    (column "phone" "VARCHAR" (Some 20%Z) false true
            [stringTagOf "default" "'n/a'"]) []
    (columnDefault (column "phone" "VARCHAR" (Some 20%Z) false true
                           [stringTagOf "default" "'n/a'"]))
  = Normal (line, comments', elem')
  /\ (occurs "serial" "varchar(20)" ->
      line = "phone" ++ " " ++ "varchar(20)"
             ++ not_null_clause (column "phone" "VARCHAR" (Some 20%Z) false true
                                        [stringTagOf "default" "'n/a'"]))
  /\ (~ occurs "serial" "varchar(20)" ->
      forall t, tag "default" [stringTagOf "default" "'n/a'"] = Some t ->
      line = "phone" ++ " " ++ "varchar(20)"
             ++ not_null_clause (column "phone" "VARCHAR" (Some 20%Z) false true
                                        [stringTagOf "default" "'n/a'"])
             ++ " DEFAULT " ++ tag_value t).
Proof.
exact (columnDeclaration_default "phone"
         (column "phone" "VARCHAR" (Some 20%Z) false true
                 [stringTagOf "default" "'n/a'"]) [] "varchar(20)" eq_refl).
Defined.

(** C7, as stated, fails: the only column flagged primary key has an
  invalid name, and the table body has no PRIMARY KEY clause. *)
Lemma generateTable_primary_key_skipped :
existsb col_primaryKey (ent_columns badKey) = true
/\ createLines (generateTable emptyBuffers badKey (sampleOptions false)
                  "public" "")
   = Some [ "CREATE TABLE public.account ("; "    name text"; ");"; ""; "" ].
Proof. split; vm_compute; reflexivity. Qed.

(** C9, as stated, fails: the only unique column that is not a primary
  key has an invalid name, and no ADD UNIQUE statement is written. *)
Lemma generateTable_unique_skipped :
existsb (fun c => col_unique c && negb (col_primaryKey c))
        (ent_columns badUnique) = true
/\ createLines (generateTable emptyBuffers badUnique (sampleOptions false)
                  "public" "")
   = Some [ "CREATE TABLE public.account ("; "    id integer NOT NULL,";
            "    PRIMARY KEY (id)"; ");"; ""; "" ].
Proof. split; vm_compute; reflexivity. Qed.

Lemma seedText_not_blank : trim seedText <> "".
Proof. vm_compute. discriminate. Defined.

Lemma generateTable_invalid_name_witness :
exists g b',
  outcome (generateTable emptyBuffers orderItemBang (sampleOptions false)
             "public" "") = Normal g
  /\ codegen.lines (codeWriter (buffers g))
     = [ "CREATE TABLE public. ("; "    id integer"; ");"; ""; "" ]
  /\ codegen.lines (dropWriter (buffers g))
     = [ "DROP TABLE IF EXISTS public. CASCADE;" ]
  /\ outcome (forEach (generateDiagramEntity (sampleOptions false) "public" "")
                [orderItemBang; product] emptyBuffers) = Normal b'
  /\ codegen.lines (codeWriter b')
     = [ "CREATE TABLE public. ("; "    id integer"; ");"; ""; "";
         "CREATE TABLE public.product ("; "    id serial NOT NULL,";
         "    PRIMARY KEY (id)"; ");"; ""; "" ].
Proof.
destruct (generateTable_invalid_name emptyBuffers orderItemBang
            (sampleOptions false) "public" "" eq_refl eq_refl eq_refl)
  as (_ & g & later & Hg & _ & Hc & Hd & Hs).
destruct (Hs [product] eq_refl) as (b' & Hb' & Hc' & _).
exists g, b'. split; [exact Hg|].
split; [rewrite Hc; vm_compute; reflexivity|].
split; [rewrite Hd; vm_compute; reflexivity|].
split; [exact Hb'|].
rewrite Hc', Hc. vm_compute. reflexivity.
Defined.

Lemma generateTable_primary_key_witness :
exists g,
  outcome (generateTable emptyBuffers account (sampleOptions false) "public" "")
  = Normal g
  /\ codegen.lines (codeWriter (buffers g))
     = [ "CREATE TABLE public.account ("; "    id serial NOT NULL,";
         "    email varchar(80),"; "    phone varchar(20) DEFAULT 'n/a',";
         "    PRIMARY KEY (id)"; ");"; ""; "ALTER TABLE public.account";
         "    ADD UNIQUE (email, phone);"; ""; "" ]
  /\ primary_key_names (ent_columns account) = ["id"].
Proof.
destruct (generateTable_primary_key emptyBuffers account (sampleOptions false)
            "public" "" eq_refl) as (g & Hg & Hl & Hn).
exists g. split; [exact Hg|].
split; [rewrite Hl; vm_compute; reflexivity | rewrite Hn; reflexivity].
Defined.

Lemma generateTable_unique_witness :
exists g,
  outcome (generateTable emptyBuffers account (sampleOptions false) "public" "")
  = Normal g
  /\ codegen.lines (codeWriter (buffers g))
     = [ "CREATE TABLE public.account ("; "    id serial NOT NULL,";
         "    email varchar(80),"; "    phone varchar(20) DEFAULT 'n/a',";
         "    PRIMARY KEY (id)"; ");"; ""; "ALTER TABLE public.account";
         "    ADD UNIQUE (email, phone);"; ""; "" ]
  /\ unique_names (ent_columns account) = ["email"; "phone"].
Proof.
destruct (generateTable_unique emptyBuffers account (sampleOptions false)
            "public" "" eq_refl) as (g & Hg & Hl & Hn).
exists g. split; [exact Hg|].
split; [rewrite Hl; vm_compute; reflexivity | rewrite Hn; reflexivity].
Defined.

(** C8, as stated, fails: the documentation is trimmed before it is
  split, so a documentation of two lines, the first of them empty,
  gives one INSERT statement. *)
Lemma generateTable_seed_blank_line :
split newline (nl ++ "Alice|30") = [""; "Alice|30"]
/\ createLines (generateTable emptyBuffers (person (Some (nl ++ "Alice|30")))
                  (sampleOptions true) "public" "")
   = Some [ "CREATE TABLE public.person ("; "    name varchar(20),";
            "    age integer"; ");"; ""; ""; "";
            "INSERT INTO public.person (name,age ) VALUES (  'Alice' , '30'  ); ";
            ""; ""; "" ].
Proof. split; vm_compute; reflexivity. Qed.

Lemma generateTable_seed_inserts_witness :
exists g,
  outcome (generateTable emptyBuffers (person (Some seedText))
             (sampleOptions true) "public" "") = Normal g
  /\ codegen.lines (codeWriter (buffers g))
     = [ "CREATE TABLE public.person ("; "    name varchar(20),";
         "    age integer"; ");"; ""; ""; "";
         "INSERT INTO public.person (name,age ) VALUES (  'Alice' , '30'  ); ";
         "";
         "INSERT INTO public.person (name,age ) VALUES (  'Bob' , null  ); ";
         ""; ""; "" ].
Proof.
destruct (generateTable_seed_inserts emptyBuffers (person (Some seedText))
            (sampleOptions true) "public" "" seedText
            [["Alice"; "30"]; ["Bob"; ""]]
            eq_refl eq_refl eq_refl eq_refl eq_refl eq_refl seedText_not_blank)
  as (g & Hg & Hl).
exists g. split; [exact Hg|]. rewrite Hl. vm_compute. reflexivity.
Defined.

Lemma generateTable_absent_documentation_witness :
throws (generateTable emptyBuffers (person None) (sampleOptions true)
          "public" "")
/\ outcome (generateTable emptyBuffers (person None) (sampleOptions true)
              "public" "")
   = Throw (TypeError "Cannot read properties of undefined (reading 'trim')").
Proof.
destruct (generateTable_absent_documentation emptyBuffers (person None)
            (sampleOptions true) "public" "" eq_refl eq_refl) as [T E].
split; [exact T | exact (E eq_refl eq_refl)].
Defined.

(** The seed rows of the spec's example, as the buffer holds them. *)
Example seed_rows_example :
createLines (generateTable emptyBuffers (person (Some seedText))
               (sampleOptions true) "public" "")
= Some [ "CREATE TABLE public.person ("; "    name varchar(20),";
         "    age integer"; ");"; ""; ""; "";
         "INSERT INTO public.person (name,age ) VALUES (  'Alice' , '30'  ); ";
         "";
         "INSERT INTO public.person (name,age ) VALUES (  'Bob' , null  ); ";
         ""; ""; "" ].
Proof. vm_compute. reflexivity. Qed.

(* ================================================================== *)
(** ** Further properties of the generator *)

(** *** Name resolution *)

Lemma lower_char_idempotent (c : ascii) : lower_char (lower_char c) = lower_char c.
Proof.
  destruct c as [[] [] [] [] [] [] [] []]; vm_compute; reflexivity.
Qed.

Lemma identifier_char_lower (c : ascii) :
  identifier_char (lower_char c) = identifier_char c.
Proof.
  destruct c as [[] [] [] [] [] [] [] []]; vm_compute; reflexivity.
Qed.

Lemma toLowerCase_idempotent (s : string) :
  toLowerCase (toLowerCase s) = toLowerCase s.
Proof.
  induction s as [|c s IH]; [reflexivity|].
  cbn [toLowerCase]. now rewrite lower_char_idempotent, IH.
Qed.

Lemma isValidIdentifier_lower (s : string) :
  isValidIdentifier (toLowerCase s) = isValidIdentifier s.
Proof.
  unfold isValidIdentifier. f_equal; [now destruct s|].
  induction s as [|c s IH]; [reflexivity|].
  cbn [toLowerCase all_chars]. now rewrite identifier_char_lower, IH.
Qed.

(** X1. A table or column name resolves either to the empty string,
    with one error diagnostic, or to a valid identifier in lower case,
    with no diagnostic at all. *)
Theorem resolved_name_shape (name : string) (tags : list Tag) :
  ((exists msg, columnName name tags = (Normal "", [ToastError msg]))
   \/ (exists v, columnName name tags = (Normal v, [])
                 /\ isValidIdentifier v = true /\ toLowerCase v = v))
  /\ ((exists msg, tableName name tags = (Normal "", [ToastError msg]))
      \/ (exists v, tableName name tags = (Normal v, [])
                    /\ isValidIdentifier v = true /\ toLowerCase v = v)).
Proof.
  split.
  - unfold columnName.
    destruct (isValidIdentifier _) eqn:E; cbn [negb].
    + right. eexists. split; [reflexivity|].
      now rewrite isValidIdentifier_lower, toLowerCase_idempotent.
    + left. eexists. reflexivity.
  - unfold tableName.
    destruct (isValidIdentifier _) eqn:E; cbn [negb].
    + right. eexists. split; [reflexivity|].
      now rewrite isValidIdentifier_lower, toLowerCase_idempotent.
    + left. eexists. reflexivity.
Qed.

Lemma all_chars_app (p : ascii -> bool) (a b : string) :
  all_chars p (a ++ b) = all_chars p a && all_chars p b.
Proof.
  induction a as [|c a IH]; [reflexivity|].
  cbn [append all_chars]. now rewrite IH, andb_assoc.
Qed.

(** X2. A routine name is never normalised: the replacement of spaces
    and dashes is applied to an empty name only, so a name that holds a
    space or a dash is rejected with an error diagnostic and resolves to
    the empty string. *)
Theorem routineName_rejects_spaces_and_dashes (t : Tag) (c : ascii)
    (pre post : string) :
  tag_name t = pre ++ String c post ->
  c = space \/ c = dash ->
  routineName t = (Normal "", [routineError (tag_name t)]).
Proof.
  intros Hn Hc. unfold routineName.
  assert (Hne : truthy (tag_name t) = true).
  { rewrite Hn. now destruct pre. }
  rewrite Hne. cbn [negb].
  assert (Hv : isValidIdentifier (tag_name t) = false).
  { unfold isValidIdentifier. rewrite Hne, Hn, all_chars_app.
    cbn [all_chars andb].
    destruct Hc as [-> | ->]; cbn; now rewrite andb_false_r. }
  rewrite Hv. reflexivity.
Qed.

(** *** schemaName *)

(** X3. The schema of an element is decided by the schema annotation
    of the data model that answers for it (the element itself, or the
    parent of a diagram): without such a data model, or with an empty
    or absent annotation, it is "public" and nothing is reported;
    otherwise it is the annotation as written, reported by one warning
    exactly when it is not a valid identifier.  It is never empty. *)
Theorem schemaName_shape (elem : Owner) :
  schemaName elem
  = (Normal (if truthy (schemaAnnotation elem) then schemaAnnotation elem
             else "public"),
     if truthy (schemaAnnotation elem)
        && negb (isValidIdentifier (schemaAnnotation elem))
     then [ToastWarning ("Schema name not valid: " ++ schemaAnnotation elem)]
     else [])
  /\ resolved (schemaName elem) <> "".
Proof.
  assert (T : forall tags,
             schemaName (OwnerDataModel tags)
             = (Normal (if truthy (stringTag "schema" tags)
                        then stringTag "schema" tags else "public"),
                if truthy (stringTag "schema" tags)
                   && negb (isValidIdentifier (stringTag "schema" tags))
                then [ToastWarning ("Schema name not valid: "
                                    ++ stringTag "schema" tags)]
                else [])).
  { intro tags. unfold schemaName.
    destruct (truthy (stringTag "schema" tags)); cbn [negb andb]; [|reflexivity].
    destruct (isValidIdentifier (stringTag "schema" tags)); reflexivity. }
  assert (E : schemaName elem
              = (Normal (if truthy (schemaAnnotation elem)
                         then schemaAnnotation elem else "public"),
                 if truthy (schemaAnnotation elem)
                    && negb (isValidIdentifier (schemaAnnotation elem))
                 then [ToastWarning ("Schema name not valid: "
                                     ++ schemaAnnotation elem)]
                 else [])).
  { destruct elem as [d [p|]|p|]; cbn [schemaAnnotation];
      [exact (T p) | reflexivity | exact (T p) | reflexivity]. }
  split; [exact E|]. rewrite E. cbn [resolved outcome fst].
  destruct (schemaAnnotation elem) as [|c s]; cbn; discriminate.
Qed.

(** *** dataType *)

(** X4. For the types with a length clause the mapper writes the
    column's length in parentheses as the number prints, without
    checking that there is one: an integer of at most 53 bits in its
    decimal digits, a greater one as the nearest double prints
    (1e+21 for ten to the power 21), an absent length as
    [(undefined)]. *)
Theorem dataType_length_clause (elem : Column) (ty sql : string) :
  In (ty, sql) length_kinds ->
  col_type elem = ty ->
  dataType elem
  = Normal (VString
              (sql ++ "("
               ++ match col_length elem with
                  | Some n =>
                      if (Z.abs n <=? 9007199254740991)%Z
                      then NilZero.string_of_int (Z.to_int n)
                      else number_to_string n
                  | None => "undefined"
                  end ++ ")")).
Proof.
  intros Hin Hty.
  assert (E : match col_length elem with
              | Some n =>
                  if (Z.abs n <=? 9007199254740991)%Z
                  then NilZero.string_of_int (Z.to_int n)
                  else number_to_string n
              | None => "undefined"
              end = opt_number_to_string (col_length elem)).
  { unfold opt_number_to_string. destruct (col_length elem) as [n|]; [|reflexivity].
    unfold number_to_string, decimal.
    now destruct (Z.abs n <=? 9007199254740991)%Z. }
  rewrite E. unfold dataType. rewrite Hty.
  cbn in Hin.
  repeat (destruct Hin as [Hin|Hin];
          [injection Hin as <- <-; reflexivity|]).
  destruct Hin.
Qed.

(** *** The index groups of writeUserIndexes *)

(** X5. The sort of an index group is a stable sort by sequence
    number: the result is in non-decreasing order of [seq], holds the
    same definitions, and keeps definitions of equal [seq] in the order
    they had. *)
Theorem sortBySeq_stable (o : list IdxDef) :
  StronglySorted by_seq (sortBySeq o)
  /\ Permutation o (sortBySeq o)
  /\ forall k, filter (fun d => (idx_seq d =? k)%Z) (sortBySeq o)
               = filter (fun d => (idx_seq d =? k)%Z) o.
Proof.
  unfold sortBySeq. induction o as [|x o (S & P & F)]; cbn [fold_right].
  - repeat split; constructor.
  - split; [now apply insertBySeq_sorted|]. split.
    + rewrite <- insertBySeq_perm. now constructor.
    + intro k. rewrite insertBySeq_filter. cbn [filter]. now rewrite F.
Qed.

Lemma forallb_plain (idxDef : list IdxDef) :
  (forall d, In d idxDef -> inherited_name (idx_idxName d) = false) ->
  forallb (fun d => negb (inherited_name (idx_idxName d))) idxDef = true.
Proof.
  intro H. apply forallb_forall. intros d Hd. now rewrite (H d Hd).
Qed.

(** X6. The reduce of [writeUserIndexes] groups the index definitions
    by index name when no name is one under which an empty array has
    or inherits something ([length], [__proto__], the methods of
    arrays and objects): it returns, nothing has gone to the
    prototype, the property keys are the names that occur, each once,
    and the property of a name holds exactly the definitions of that
    name, in the order they were collected. *)
Theorem groupByName_groups (idxDef : list IdxDef) :
  (forall d, In d idxDef -> inherited_name (idx_idxName d) = false) ->
  exists acc,
    groupByName idxDef = Normal acc
    /\ onPrototype acc = []
    /\ NoDup (List.map fst (properties acc))
    /\ (forall k o, In (k, o) (properties acc) ->
                    o <> [] /\ o = filter (named_like k) idxDef)
    /\ (forall d, In d idxDef ->
                  In (idx_idxName d) (List.map fst (properties acc))).
Proof.
  intro H. exists {| properties := fold_left store idxDef []; onPrototype := [] |}.
  split; [exact (reduce_plain idxDef (forallb_plain idxDef H) [])|].
  split; [reflexivity|]. exact (store_invariant idxDef).
Qed.

Lemma index_names_tags (elem : Entity) (key : string) :
  In key (index_names elem)
  <-> exists c t, In c (ent_columns elem) /\ In t (col_tags c)
                  /\ tag_value t = "index" /\ tag_name t = key.
Proof.
  unfold index_names. rewrite in_flat_map. split.
  - intros (c & Hc & Hk). apply in_map_iff in Hk as (t & <- & Ht).
    unfold tagsByValue in Ht. apply filter_In in Ht as [Ht Hv].
    apply String.eqb_eq in Hv. now exists c, t.
  - intros (c & t & Hc & Ht & Hv & <-). exists c. split; [exact Hc|].
    apply in_map. unfold tagsByValue. apply filter_In. split; [exact Ht|].
    now apply String.eqb_eq.
Qed.

Lemma index_keys_none (elem : Entity) :
  (forall key, In key (index_names elem) -> array_index key = None) ->
  index_keys elem = [].
Proof.
  intro H. destruct (index_keys elem) as [|n r] eqn:E; [reflexivity|].
  assert (Hn : In n (index_keys elem)) by (rewrite E; now left).
  apply index_keys_in in Hn as (key & Hk & Hn). rewrite (H key Hk) in Hn.
  discriminate.
Qed.

Section Indexes.
Context {Q : Quoting}.

(** X7. [writeUserIndexes] writes an index only when its name is an
    array index: when no index annotation of the entity has such a
    name, nor one under which an empty array has or inherits
    something, it returns and all it appends to the buffer is its
    closing empty line. *)
Theorem writeUserIndexes_skips_named_groups (w : CodeWriter) (table : string)
    (elem : Entity) :
  (forall c t, In c (ent_columns elem) -> In t (col_tags c) ->
               tag_value t = "index" ->
               array_index (tag_name t) = None
               /\ inherited_name (tag_name t) = false) ->
  outcome (writeUserIndexes w table elem) = Normal (writeEmpty w).
Proof.
  intro H.
  assert (Hp : plain_indexes elem = true).
  { unfold plain_indexes. apply forallb_forall. intros key Hk.
    apply index_names_tags in Hk as (c & t & Hc & Ht & Hv & <-).
    now destruct (H c t Hc Ht Hv) as [_ ->]. }
  assert (Hk : index_keys elem = []).
  { apply index_keys_none. intros key Hk.
    apply index_names_tags in Hk as (c & t & Hc & Ht & Hv & <-).
    now destruct (H c t Hc Ht Hv). }
  unfold writeUserIndexes.
  rewrite outcome_bind, collectIdxDefs_outcome.
  rewrite outcome_bind, outcome_lift, (groupByName_plain elem Hp).
  rewrite arrayElements_plain, Hk. reflexivity.
Qed.

(** X18. The indexes whose name is an array index are written in the
    increasing order of that index, whatever the order of the
    annotations, each once with the columns of its group by sequence
    number, and the closing empty line follows; an index of any other
    name is not written. *)
Theorem writeUserIndexes_by_index (w : CodeWriter) (table : string)
    (elem : Entity) :
  plain_indexes elem = true ->
  exists w',
    outcome (writeUserIndexes w table elem) = Normal w'
    /\ codegen.lines w'
       = (codegen.lines w
          ++ flat_map (fun k => indexStatement (margin w) (indentString w)
                                  table k (index_group elem k))
                      (index_keys elem)
          ++ [""])%list
    /\ StronglySorted N.lt (index_keys elem)
    /\ (forall n, In n (index_keys elem)
                  <-> exists key, In key (index_names elem)
                                  /\ array_index key = Some n)
    /\ (forall n, index_group elem n
                  = filter (fun d => match array_index (idx_idxName d) with
                                     | Some m => (m =? n)%N
                                     | None => false
                                     end) (index_definitions elem)).
Proof.
  intro H. destruct (writeUserIndexes_value w table elem H) as (w' & Hw & A & _).
  exists w'. split; [exact Hw|]. split; [exact A|].
  split; [apply index_keys_sorted|]. split; [apply index_keys_in|].
  reflexivity.
Qed.
End Indexes.

(** *** An index named like a member of arrays *)





Section Members.
Context {Q : Quoting}.

End Members.

(** *** What the generators leave on the sinks *)

Lemma all_events_ret {A} (P : Event -> Prop) (a : A) : all_events P (ret a).
Proof. constructor. Qed.

Lemma all_events_throw {A} (P : Event -> Prop) (e : Exn) :
  all_events P (@throw A e).
Proof. constructor. Qed.

Lemma all_events_lift {A} (P : Event -> Prop) (o : Outcome A) :
  all_events P (lift o).
Proof. constructor. Qed.

Lemma all_events_emit (P : Event -> Prop) (e : Event) :
  P e -> all_events P (emit e).
Proof. intro H. constructor; [exact H | constructor]. Qed.

Lemma all_events_bind {A B} (P : Event -> Prop) (m : M A) (f : A -> M B) :
  all_events P m -> (forall a, all_events P (f a)) -> all_events P (bind m f).
Proof.
  intros Hm Hf. unfold all_events in *. rewrite events_bind.
  apply Forall_app. split; [exact Hm|].
  destruct (outcome m); [apply Hf | constructor].
Qed.

Lemma all_events_forEach {A S} (P : Event -> Prop) (f : S -> A -> M S)
    (l : list A) :
  (forall s a, all_events P (f s a)) -> forall s, all_events P (forEach f l s).
Proof.
  intro H. induction l as [|a l IH]; intro s; cbn [forEach].
  - apply all_events_ret.
  - apply all_events_bind; [apply H | exact IH].
Qed.

Lemma all_events_impl {A} (P R : Event -> Prop) (m : M A) :
  (forall e, P e -> R e) -> all_events P m -> all_events R m.
Proof. intros H Hm. eapply Forall_impl; [exact H | exact Hm]. Qed.

Ltac diagnostics :=
  repeat first
    [ apply all_events_ret
    | apply all_events_throw
    | apply all_events_lift
    | apply all_events_emit; exact I
    | apply all_events_bind; [|intro]
    | apply all_events_forEach; intros
    | match goal with
      | |- all_events _ (if ?b then _ else _) => destruct b
      | |- all_events _ (match ?x with _ => _ end) => destruct x
      | |- all_events _ (let (_, _) := ?x in _) => destruct x
      end ].

Lemma columnName_diagnostics n t : all_events diagnostic (columnName n t).
Proof. unfold columnName. diagnostics. Qed.

Lemma tableName_diagnostics n t : all_events diagnostic (tableName n t).
Proof. unfold tableName. diagnostics. Qed.

Lemma routineName_diagnostics t : all_events diagnostic (routineName t).
Proof. unfold routineName. diagnostics. Qed.

Lemma schemaName_diagnostics o : all_events diagnostic (schemaName o).
Proof. unfold schemaName. diagnostics. Qed.

Section Sinks.
Context {Q : Quoting}.

Lemma generateTable_diagnostics b elem options schema prefix :
  all_events diagnostic (generateTable b elem options schema prefix).
Proof.
  unfold generateTable.
  apply all_events_bind; [apply tableName_diagnostics | intro name].
  apply all_events_bind; [|intro en].
  { apply all_events_forEach. intros st col. unfold createEnum.
    apply all_events_bind; [apply all_events_lift | intro v].
    destruct v; diagnostics; apply columnName_diagnostics. }
  apply all_events_bind; [|intro sc].
  { apply all_events_forEach. intros st col. unfold scanColumn.
    apply all_events_bind; [apply columnName_diagnostics | intro column].
    diagnostics. }
  apply all_events_bind; [|intro refs'].
  { apply all_events_forEach. intros st col. unfold pushForeignKey.
    destruct (col_referenceTo col); [|apply all_events_throw].
    apply all_events_bind; [apply columnName_diagnostics | intro].
    apply all_events_bind; [apply columnName_diagnostics | intro].
    apply all_events_bind; [apply tableName_diagnostics | intro].
    apply all_events_bind; [apply schemaName_diagnostics | intro].
    apply all_events_ret. }
  apply all_events_bind; [|intro cw].
  { unfold writeUserIndexes, collectIdxDefs.
    apply all_events_bind; [|intro].
    { apply all_events_forEach. intros st col.
      apply all_events_bind; [apply columnName_diagnostics | intro].
      apply all_events_ret. }
    apply all_events_bind; [apply all_events_lift | intro].
    apply all_events_bind; [|intro; apply all_events_ret].
    apply all_events_forEach. intros st e.
    destruct e; [apply all_events_ret | apply all_events_throw]. }
  apply all_events_bind; [|intro cw'].
  { apply all_events_forEach. intros st t. unfold writeTrigger.
    destruct (isTrigger options t); [|apply all_events_ret].
    apply all_events_bind; [apply routineName_diagnostics | intro].
    apply all_events_ret. }
  apply all_events_bind; [|intro; apply all_events_ret].
  unfold generateInserts.
  destruct (opt_tableInserts options); [|apply all_events_ret].
  destruct (ent_documentation elem); [|apply all_events_throw].
  destruct (_ <? _)%nat; [|apply all_events_ret].
  apply all_events_bind; [|intro; apply all_events_ret].
  unfold insertColumns.
  apply all_events_bind; [|intro; apply all_events_ret].
  apply all_events_forEach. intros [acc i] col.
  apply all_events_bind; [apply columnName_diagnostics | intro].
  apply all_events_ret.
Qed.
End Sinks.

Lemma ends_with_refl (suffix : string) : ends_with suffix suffix.
Proof. now exists "". Qed.

Lemma ends_with_app (suffix a s : string) :
  ends_with suffix s -> ends_with suffix (a ++ s).
Proof. intros [p ->]. exists (a ++ p). now rewrite append_assoc. Qed.

Lemma ends_with_cons (suffix : string) (c : ascii) (s : string) :
  ends_with suffix s -> ends_with suffix (String c s).
Proof. intros [p ->]. now exists (String c p). Qed.

Lemma diagnostic_generator (drop : bool) (e : Event) :
  diagnostic e -> generator_event drop e.
Proof. destruct e; cbn; tauto. Qed.

Ltac file_name :=
  repeat first [ apply ends_with_refl | apply ends_with_app | apply ends_with_cons ].

Section Files.
Context {Q : Quoting}.

Lemma writeFiles_events options create drop cw dw :
  ends_with "_create.sql" create -> ends_with "_drop.sql" drop ->
  all_events (generator_event (opt_dropStatements options))
             (writeFiles options create drop cw dw).
Proof.
  intros Hc Hd. unfold writeFiles.
  apply all_events_bind; [apply all_events_emit; now left | intros _].
  destruct (opt_dropStatements options) eqn:E; [|apply all_events_ret].
  apply all_events_emit. right. now split.
Qed.

Lemma generateRoutines_events what marker suffix elem path options dmn :
  all_events (generator_event (opt_dropStatements options))
             (generateRoutines what marker suffix elem path options dmn).
Proof.
  unfold generateRoutines.
  apply all_events_bind; [|intro st].
  { apply all_events_forEach. intros [cw dw] t. unfold writeRoutine.
    destruct (isRoutine marker t); [|apply all_events_ret].
    apply all_events_bind; [apply all_events_emit; exact I | intros _].
    apply all_events_ret. }
  apply all_events_bind; [|intros _; apply all_events_ret].
  destruct (hasContent (fst st)); [|apply all_events_ret].
  apply writeFiles_events; file_name.
Qed.

Lemma generateTables_events elem path options schema dmn :
  all_events (generator_event (opt_dropStatements options))
             (generateTables elem path options schema dmn).
Proof.
  unfold generateTables.
  apply all_events_bind; [|intro st].
  { apply all_events_forEach. intros st d. unfold generateTablesElement.
    destruct d as [d|e|].
    - apply all_events_bind; [|intro b].
      { apply all_events_forEach. intros b e. unfold generateDiagramEntity.
        apply all_events_bind; [apply all_events_emit; exact I | intros _].
        apply all_events_bind; [|intro; apply all_events_ret].
        eapply all_events_impl; [apply diagnostic_generator|].
        apply generateTable_diagnostics. }
      apply all_events_bind; [|intros _; apply all_events_ret].
      destruct (hasContent _); [|apply all_events_ret].
      apply writeFiles_events; file_name.
    - apply all_events_bind; [apply all_events_emit; exact I | intros _].
      apply all_events_bind; [|intro; apply all_events_ret].
      eapply all_events_impl; [apply diagnostic_generator|].
      apply generateTable_diagnostics.
    - apply all_events_ret. }
  apply all_events_bind; [|intros _; apply all_events_ret].
  destruct (hasContent _); [|apply all_events_ret].
  apply writeFiles_events; file_name.
Qed.

Lemma generateSchema_events elem path options :
  all_events (generator_event (opt_dropStatements options))
             (generateSchema elem path options).
Proof.
  unfold generateSchema.
  apply all_events_bind; [|intro st].
  { apply all_events_forEach. intros st e. unfold generateSchemaElement.
    destruct e as [e|]; [|apply all_events_ret].
    apply all_events_bind; [|intro name].
    { eapply all_events_impl; [apply diagnostic_generator|].
      apply schemaName_diagnostics. }
    apply all_events_bind; [apply generateRoutines_events | intros _].
    apply all_events_bind; [apply generateRoutines_events | intros _].
    apply all_events_bind; [apply generateTables_events | intros _].
    destruct (_ && _); apply all_events_ret. }
  apply all_events_bind; [|intros _; apply all_events_ret].
  destruct (hasContent _); [|apply all_events_ret].
  apply writeFiles_events.
  - apply ends_with_app. now exists "/schema".
  - apply ends_with_app. now exists "/schema".
Qed.

Lemma generateDatabase_events elem path options :
  all_events (generator_event (opt_dropStatements options))
             (generateDatabase elem path options)
  /\ exists r, outcome (generateDatabase elem path options) = Normal r.
Proof.
  unfold generateDatabase.
  destruct (root_isProject elem).
  - destruct (negb (isValidIdentifier _)).
    + split; [|eexists; reflexivity].
      apply all_events_bind; [apply all_events_emit; exact I | intros _].
      apply all_events_ret.
    + split.
      * apply all_events_bind; [|intros _].
        { apply all_events_emit. left. apply ends_with_app. now exists "/db". }
        apply all_events_bind; [|intros _; apply all_events_ret].
        destruct (opt_dropStatements options) eqn:E; [|apply all_events_ret].
        apply all_events_emit. right. split; [reflexivity|].
        apply ends_with_app. now exists "/db".
      * destruct (opt_dropStatements options); eexists; reflexivity.
  - split; [|eexists; reflexivity].
    apply all_events_bind; [apply all_events_emit; exact I | intros _].
    apply all_events_ret.
Qed.

(** The events of a run: those of the generators, then the closing
    dialog, or the error dialog and the log entry when a generator
    threw. *)
Lemma generate_events elem path options :
  outcome (generate elem path options) = Normal tt
  /\ exists ev,
       Forall (generator_event (opt_dropStatements options)) ev
       /\ (events (generate elem path options)
           = (ev ++ [InfoDialog ("Project DDL files generated in " ++ path)])%list
           \/ exists ex, events (generate elem path options)
                         = (ev ++ [ErrorDialog ex; ConsoleLog ex])%list).
Proof.
  destruct (generateDatabase_events elem path options) as (Hdb & [ok elem'] & Hr).
  pose proof (generateSchema_events elem' path options) as Hs.
  unfold all_events in Hdb, Hs. unfold generate.
  destruct (generateDatabase elem path options) as [o1 e1].
  cbn [outcome fst] in Hr. subst o1. cbn [events snd] in Hdb.
  destruct (generateSchema elem' path options) as [[b|ex] e2] eqn:E2;
    cbn [events snd] in Hs.
  - destruct ok; cbn [bind fst snd emit ret]; rewrite E2;
      cbn [bind emit try_catch outcome events fst snd];
      (split; [reflexivity|]).
    + exists (e1 ++ ToastInfo "Database creation files completed." :: e2)%list.
      split; [apply Forall_app; split; [exact Hdb | constructor; [exact I | exact Hs]]|].
      left. cbn [app]. now rewrite <- !app_assoc.
    + exists (e1 ++ e2)%list.
      split; [apply Forall_app; now split|].
      left. cbn [app]. now rewrite <- !app_assoc.
  - destruct ok; cbn [bind fst snd emit ret]; rewrite E2;
      cbn [bind emit try_catch outcome events fst snd];
      (split; [reflexivity|]).
    + exists (e1 ++ ToastInfo "Database creation files completed." :: e2)%list.
      split; [apply Forall_app; split; [exact Hdb | constructor; [exact I | exact Hs]]|].
      right. exists ex. cbn [app]. now rewrite <- !app_assoc.
    + exists (e1 ++ e2)%list.
      split; [apply Forall_app; now split|].
      right. exists ex. cbn [app]. now rewrite <- !app_assoc.
Qed.

(** The events of a run, in full. *)
Lemma generate_value elem path options :
  exists r,
    outcome (generateDatabase elem path options) = Normal r
    /\ outcome (generate elem path options) = Normal tt
    /\ events (generate elem path options)
       = (events (generateDatabase elem path options)
          ++ (if fst r then [ToastInfo "Database creation files completed."]
              else [])
          ++ events (generateSchema (snd r) path options)
          ++ match outcome (generateSchema (snd r) path options) with
             | Normal _ => [InfoDialog ("Project DDL files generated in " ++ path)]
             | Throw ex => [ErrorDialog ex; ConsoleLog ex]
             end)%list.
Proof.
  destruct (generateDatabase_events elem path options) as (_ & [ok elem'] & Hr).
  exists (ok, elem'). split; [exact Hr|]. unfold generate.
  destruct (generateDatabase elem path options) as [o1 e1].
  cbn [outcome fst] in Hr. subst o1. cbn [events outcome fst snd].
  destruct (generateSchema elem' path options) as [[b|ex] e2] eqn:E2;
    destruct ok; cbn [bind fst snd emit ret]; rewrite E2;
    cbn [bind emit try_catch outcome events fst snd app];
    (split; [reflexivity|]); now rewrite <- ?app_assoc, ?app_nil_r.
Qed.

(** X8. A run never throws: whatever a generator throws is caught.
    The database generator always returns; after its events, its
    completion toast when it answered true, and the events of the
    schema generator (which runs the other generators), none of them
    a dialog or a log entry, the run ends with the closing information
    dialog exactly when the schema generator returned, and with the
    error dialog and the log entry of the exception exactly when it
    threw that exception. *)
Theorem generate_never_throws elem path options :
  outcome (generate elem path options) = Normal tt
  /\ exists r before,
       outcome (generateDatabase elem path options) = Normal r
       /\ before
          = (events (generateDatabase elem path options)
             ++ (if fst r then [ToastInfo "Database creation files completed."]
                 else [])
             ++ events (generateSchema (snd r) path options))%list
       /\ Forall silent before
       /\ events (generate elem path options)
          = (before
             ++ match outcome (generateSchema (snd r) path options) with
                | Normal _ =>
                    [InfoDialog ("Project DDL files generated in " ++ path)]
                | Throw ex => [ErrorDialog ex; ConsoleLog ex]
                end)%list.
Proof.
  destruct (generate_value elem path options) as (r & Hr & Ho & He).
  split; [exact Ho|]. exists r. eexists. split; [exact Hr|].
  split; [reflexivity|]. split.
  - assert (S : forall e, generator_event (opt_dropStatements options) e ->
                          silent e).
    { intros [] H; cbn in *; tauto. }
    destruct (generateDatabase_events elem path options) as (Hdb & _).
    pose proof (generateSchema_events (snd r) path options) as Hs.
    unfold all_events in Hdb, Hs.
    apply Forall_app. split; [eapply Forall_impl; [exact S | exact Hdb]|].
    apply Forall_app. split; [|eapply Forall_impl; [exact S | exact Hs]].
    destruct (fst r); repeat constructor.
  - rewrite He. now rewrite <- !app_assoc.
Qed.

(** X9. With the drop-statements option off, every file a run writes
    has a name that ends in [_create.sql]: no drop file is written for
    any artifact. *)
Theorem generate_no_drop_file elem path options :
  opt_dropStatements options = false ->
  forall file data,
    In (WriteFile file data) (events (generate elem path options)) ->
    ends_with "_create.sql" file.
Proof.
  intros Hd file data Hin.
  destruct (generate_events elem path options) as (_ & ev & Hev & H).
  rewrite Hd in Hev.
  assert (Hin' : In (WriteFile file data) ev).
  { destruct H as [H|[ex H]]; rewrite H in Hin;
      apply in_app_or in Hin as [Hin|Hin]; try exact Hin;
      cbn in Hin; repeat (destruct Hin as [Hin|Hin]; [discriminate|]);
      destruct Hin. }
  rewrite Forall_forall in Hev. specialize (Hev _ Hin'). cbn in Hev.
  destruct Hev as [Hev|[Hev _]]; [exact Hev | discriminate].
Qed.
End Files.

(** *** generateDatabase *)

Lemma tag_app (key : string) (tags more : list Tag) :
  tag key (tags ++ more)
  = match tag key tags with Some t => Some t | None => tag key more end.
Proof.
  unfold tag. induction tags as [|t r IH]; [reflexivity|].
  cbn [app find]. now destruct (String.eqb (tag_name t) key).
Qed.

Section Database.
Context {Q : Quoting}.

(** X10. On a project the database generator returns, and changes
    nothing of the project but its annotations.  A project that has a
    database annotation is left as it is.  On a project without one,
    the annotation [database] is appended after those it had, with the
    project's name, underscores for spaces, in lower case, as value:
    once when the project's name is a valid identifier, and twice, the
    same annotation, when it is not.  Afterwards the annotation
    resolves to that value, and a second run on the result changes
    nothing. *)
Theorem generateDatabase_write_back elem path options :
  root_isProject elem = true ->
  exists ok elem',
    outcome (generateDatabase elem path options) = Normal (ok, elem')
    /\ elem' = with_tags elem (root_tags elem')
    /\ root_tags elem'
       = (root_tags elem
          ++ match tag "database" (root_tags elem) with
             | Some _ => []
             | None =>
                 if isValidIdentifier (root_name elem)
                 then [databaseTag (derivedName elem)]
                 else [databaseTag (derivedName elem);
                       databaseTag (derivedName elem)]
             end)%list
    /\ (tag "database" (root_tags elem) = None ->
        stringTag "database" (root_tags elem') = derivedName elem)
    /\ exists ok', outcome (generateDatabase elem' path options)
                   = Normal (ok', elem').
Proof.
  intro Hp.
  assert (Hkeep : forall e, root_isProject e = true ->
                            tag "database" (root_tags e) <> None ->
                            exists ok, outcome (generateDatabase e path options)
                                       = Normal (ok, e)).
  { intros e He Ht. unfold generateDatabase. rewrite He.
    destruct (tag "database" (root_tags e)) as [t|]; [|contradiction].
    cbn [negb andb].
    destruct (negb (isValidIdentifier _)); [eexists; reflexivity|].
    destruct (opt_dropStatements options); eexists; reflexivity. }
  destruct (tag "database" (root_tags elem)) as [t|] eqn:Et.
  - destruct (Hkeep elem Hp) as [ok Hok]; [rewrite Et; discriminate|].
    exists ok, elem. split; [exact Hok|].
    split; [now destruct elem|]. split; [now rewrite app_nil_r|].
    split; [discriminate|]. now exists ok.
  - set (v := derivedName elem).
    set (added := if isValidIdentifier (root_name elem)
                  then [databaseTag v] else [databaseTag v; databaseTag v]).
    assert (Hrun : exists ok,
               outcome (generateDatabase elem path options)
               = Normal (ok, with_tags elem (root_tags elem ++ added)%list)).
    { unfold generateDatabase. rewrite Hp, Et. cbn [negb andb truthy].
      fold (derivedName elem). fold v. unfold added.
      destruct (isValidIdentifier (root_name elem)); cbn [negb];
        destruct (isValidIdentifier (replaceAll (root_name elem) space underscore));
        cbn [negb]; destruct (opt_dropStatements options);
        eexists; cbn [root_tags with_tags]; unfold addStringTag, push;
        fold (databaseTag v); rewrite <- ?app_assoc; reflexivity. }
    destruct Hrun as (ok & Hrun).
    assert (Hsome : tag "database" (root_tags elem ++ added)%list
                    = Some (databaseTag v)).
    { rewrite tag_app, Et. unfold added.
      now destruct (isValidIdentifier (root_name elem)). }
    exists ok, (with_tags elem (root_tags elem ++ added)%list).
    split; [exact Hrun|]. split; [reflexivity|].
    split; [reflexivity|].
    split; [intros _; cbn [root_tags with_tags]; unfold stringTag;
            now rewrite Hsome|].
    apply Hkeep; [exact Hp|]. cbn [root_tags with_tags]. rewrite Hsome.
    discriminate.
Qed.
End Database.

(** *** generateFunctions and generateProcedures *)

Lemma bind_value {A B} (a : A) (ev : list Event) (f : A -> M B) :
  bind (Normal a, ev) f = (fst (f a), (ev ++ snd (f a))%list).
Proof. cbn [bind]. now destruct (f a). Qed.

Lemma writeRoutines_value (what marker : string) (tags : list Tag) :
  forall cw dw,
    indentations cw = [] -> indentations dw = [] ->
    forEach (writeRoutine what marker) tags (cw, dw)
    = (Normal
         ({| codegen.lines :=
               (codegen.lines cw
                ++ flat_map (routineText what) (filter (isRoutine marker) tags))%list;
             indentString := indentString cw; indentations := [] |},
          {| codegen.lines :=
               (codegen.lines dw
                ++ List.map (routineDrop what) (filter (isRoutine marker) tags))%list;
             indentString := indentString dw; indentations := [] |}),
       List.map (fun t => ToastInfo ("Generate " ++ toLowerCase what ++ " DDL for "
                                     ++ tag_name t))
                (filter (isRoutine marker) tags)).
Proof.
  induction tags as [|t r IH]; intros [lc ic nc] [ld id nd] Hc Hd;
    cbn [indentations] in Hc, Hd; subst nc nd.
  - cbn. now rewrite !app_nil_r.
  - cbn [forEach filter]. unfold writeRoutine at 1.
    destruct (isRoutine marker t).
    + unfold emit. rewrite bind_value. cbn [fst snd ret app].
      rewrite bind_value.
      unfold writeLine, writeEmpty, push, margin.
      cbn [codegen.lines indentString indentations join append].
      rewrite IH by reflexivity.
      cbn [fst snd codegen.lines indentString indentations flat_map List.map app].
      unfold routineText, routineDrop.
      rewrite <- !app_assoc. reflexivity.
    + unfold ret at 1. rewrite bind_value, IH by reflexivity.
      reflexivity.
Qed.

Section Routines.
Context {Q : Quoting}.

Lemma generateRoutines_value what marker suffix elem path options dmn :
  generateRoutines what marker suffix elem path options dmn
  = (Normal true,
     routineEvents what suffix path dmn (opt_dropStatements options)
                   (filter (isRoutine marker) (dm_tags elem))).
Proof.
  unfold generateRoutines.
  rewrite writeRoutines_value by reflexivity.
  rewrite bind_value. cbn [fst snd newCodeWriter codegen.lines app].
  unfold routineEvents, hasContent. cbn [codegen.lines].
  destruct (filter (isRoutine marker) (dm_tags elem)) as [|t rs] eqn:E.
  - reflexivity.
  - cbn [flat_map routineText app]. unfold writeFiles, emit.
    rewrite !bind_value.
    destruct (opt_dropStatements options); cbn [fst snd ret app];
      unfold getData; cbn [codegen.lines]; rewrite ?app_nil_r; reflexivity.
Qed.

(** X11. The function and procedure generators write one file pair
    per data model, and only when the data model has a routine: a
    reference annotation whose target bears the configured marker
    name. Each routine is announced, gets two empty lines, its
    CREATE OR REPLACE header and its body, verbatim, in the create
    file, and one DROP line in the drop file, which is written only
    when drop scripts are wanted. *)
Theorem generateRoutines_files elem path options schema dataModelName :
  generateFunctions elem path options schema dataModelName
  = (Normal true,
     routineEvents "FUNCTION" "function" path dataModelName
                   (opt_dropStatements options)
                   (filter (isRoutine (opt_function options)) (dm_tags elem)))
  /\ generateProcedures elem path options schema dataModelName
     = (Normal true,
        routineEvents "PROCEDURE" "procedure" path dataModelName
                      (opt_dropStatements options)
                      (filter (isRoutine (opt_procedure options)) (dm_tags elem))).
Proof.
  split; apply generateRoutines_value.
Qed.
End Routines.

(** *** The steps of generateTable *)

Section Steps.
Context {Q : Quoting}.

(** X12. The deferred constraints only grow: on an entity with
    well-typed columns, a documentation when seed rows are wanted, and
    no index named like something an empty array has or inherits,
    [generateTable] returns,
    keeps what [refs] held and appends one ALTER TABLE ... ADD
    CONSTRAINT FK_<table>__<column> statement for every column that
    has a reference target and a valid name, in declaration order, the
    referenced schema, prefix, table and column being resolved from
    the target; with the foreign-key option off nothing is
    appended. *)
Theorem generateTable_deferred_constraints b elem options schema prefix :
  generable options elem = true ->
  exists g,
    outcome (generateTable b elem options schema prefix) = Normal g
    /\ refs (buffers g)
       = (refs b
          ++ flat_map (foreignKeyStatement
                         (qualifiedName elem schema prefix)
                         (prefix ++ resolved (tableName (ent_name elem)
                                                        (ent_tags elem))))
                      (filter (referencing options) (ent_columns elem)))%list
    /\ (opt_foreignKeyConstraint options = false -> refs (buffers g) = refs b).
Proof.
  intro H. destruct (generable_parts options elem H) as (Hwt & Hseed & Hplain).
  destruct (generateTable_script b elem options schema prefix Hwt Hseed Hplain)
    as (g & Hg & _ & _ & Hr & _).
  exists g. split; [exact Hg|]. split; [exact Hr|].
  intro Hoff. rewrite Hr. unfold constraints.
  replace (filter (referencing options) (ent_columns elem)) with (@nil Column);
    [now rewrite app_nil_r|].
  symmetry. apply filter_none. intros c _. unfold referencing.
  now rewrite Hoff, andb_false_r.
Qed.

(** X13. On an entity with well-typed columns, a documentation when
    seed rows are wanted, and no index named like something an empty
    array has or inherits, [generateTable] returns and every enum
    column (type [enum] in any case, with a non-empty annotation named
    like the type) gets its CREATE TYPE and CREATE CAST statements
    before the table's CREATE TABLE line, in column order, and one
    matching DROP TYPE line right after the table's DROP TABLE line in
    the drop script; the table statement and what follows it come
    after, and a column that is no enum adds no such line. *)
Theorem generateTable_enum_types b elem options schema prefix :
  generable options elem = true ->
  exists g,
    outcome (generateTable b elem options schema prefix) = Normal g
    /\ codegen.lines (codeWriter (buffers g))
       = (codegen.lines (codeWriter b)
          ++ List.map (fun l => (margin (codeWriter b) ++ l)%string)
               (flat_map (enumStatement (qualifiedName elem schema prefix))
                  (filter isEnum (ent_columns elem)))
          ++ [(margin (codeWriter b) ++ "CREATE TABLE "
               ++ qualifiedName elem schema prefix ++ " (")%string]
          ++ List.map (fun l => (margin (codeWriter b)
                                 ++ indentString (codeWriter b) ++ l)%string)
               (commas (tableBody (qualifiedName elem schema prefix)
                                  (ent_columns elem)))
          ++ [(margin (codeWriter b) ++ ");")%string; ""]
          ++ afterTable (margin (codeWriter b)) (indentString (codeWriter b))
               schema prefix options elem)%list
    /\ codegen.lines (dropWriter (buffers g))
       = (codegen.lines (dropWriter b)
          ++ List.map (fun l => (margin (dropWriter b) ++ l)%string)
               (("DROP TABLE IF EXISTS " ++ qualifiedName elem schema prefix
                  ++ " CASCADE;")%string
                :: List.map (dropType (qualifiedName elem schema prefix))
                     (filter isEnum (ent_columns elem))))%list.
Proof.
  intro H. destruct (generable_parts options elem H) as (Hwt & Hseed & Hplain).
  destruct (generateTable_script b elem options schema prefix Hwt Hseed Hplain)
    as (g & Hg & (Hc & _) & (Hd & _) & _).
  exists g. split; [exact Hg|]. split.
  - rewrite Hc. unfold tableScript, tablePart, enumPart.
    now rewrite <- !app_assoc.
  - rewrite Hd. unfold dropScript. cbn [List.map]. now rewrite map_map.
Qed.

(** X14. The columns a run of [generateTable] leaves behind, on an
    entity with well-typed columns, a documentation when seed rows are
    wanted, and no index named like something an empty array has or
    inherits, where it returns: a column that is no enum and carries
    no marker is untouched; an enum column whose name resolves ends
    with the type [enum] in lower case and the marker set, whatever
    the case of its type was; an enum column whose name does not
    resolve keeps the name of the type created for it. *)
Theorem generateTable_columns_after b elem options schema prefix :
  generable options elem = true ->
  exists g,
    outcome (generateTable b elem options schema prefix) = Normal g
    /\ columnsAfter g
       = List.map (afterRun (qualifiedName elem schema prefix))
                  (ent_columns elem).
Proof.
  intro H. destruct (generable_parts options elem H) as (Hwt & Hseed & Hplain).
  destruct (generateTable_script b elem options schema prefix Hwt Hseed Hplain)
    as (g & Hg & _ & _ & _ & Hc).
  exists g. now split.
Qed.
End Steps.

(** *** The schema script *)

(** An invariant that every returning step keeps holds of the state a
    loop returns. *)
Lemma forEach_returned {A S} (f : S -> A -> M S) (I : list A -> S -> Prop)
  (l : list A) :
  forall (pre : list A) (s s' : S),
    I pre s ->
    (forall p a s s', I p s -> outcome (f s a) = Normal s' ->
                      I (p ++ [a])%list s') ->
    outcome (forEach f l s) = Normal s' ->
    I (pre ++ l)%list s'.
Proof.
  induction l as [|a l IH]; intros pre s s' HI Hstep H.
  - cbn in H. injection H as <-. now rewrite app_nil_r.
  - cbn [forEach] in H. rewrite outcome_bind in H.
    destruct (outcome (f s a)) as [s1|e] eqn:E; [|discriminate].
    replace (pre ++ a :: l)%list with ((pre ++ [a]) ++ l)%list
      by now rewrite <- app_assoc.
    apply (IH _ s1 s'); [now apply (Hstep pre a s)|exact Hstep|exact H].
Qed.

Lemma existsb_eqb_In (s : string) (l : list string) :
  existsb (String.eqb s) l = true <-> In s l.
Proof.
  rewrite existsb_exists. split.
  - intros (x & Hx & E). apply String.eqb_eq in E. now subst.
  - intro H. exists s. split; [exact H | apply String.eqb_refl].
Qed.

Lemma dataModels_app a b : dataModels (a ++ b) = (dataModels a ++ dataModels b)%list.
Proof. unfold dataModels. apply flat_map_app. Qed.

Lemma hasContent_writeLine l w : hasContent (writeLine l w) = true.
Proof.
  unfold hasContent, writeLine, push. cbn [codegen.lines].
  now destruct (codegen.lines w).
Qed.

Lemma hasContent_extends w w' :
  extends w w' -> hasContent w = true -> hasContent w' = true.
Proof.
  intros (_ & _ & r & E). unfold hasContent. rewrite E.
  now destruct (codegen.lines w).
Qed.

Section Schemas.
Context {Q : Quoting}.

(** X15. When the loop of [generateSchema] returns, the schemas it
    has declared are pairwise distinct and never [public]; they are
    exactly the lower-cased schema names of the data models other
    than [public], and the drop script holds one DROP SCHEMA line for
    each, in the same order. [generateSchema] then returns [true],
    and writes its files after the loop only when some schema was
    declared, the drop file only with the drop option. *)
Theorem generateSchema_schemas_once elem path options st :
  outcome (forEach (generateSchemaElement path options)
             (root_ownedElements elem) (noSchemas options)) = Normal st ->
  NoDup (schemas st)
  /\ (forall s, In s (schemas st)
                <-> s <> "public"
                    /\ In s (List.map schemaOf
                               (dataModels (root_ownedElements elem))))
  /\ codegen.lines (schemaDropWriter st) = List.map dropSchema (schemas st)
  /\ outcome (generateSchema elem path options) = Normal true
  /\ events (generateSchema elem path options)
     = (events (forEach (generateSchemaElement path options)
                  (root_ownedElements elem) (noSchemas options))
        ++ match schemas st with
           | [] => []
           | _ =>
               WriteFile (path ++ "/schema_create.sql")
                         (getData (schemaWriter st))
               :: if opt_dropStatements options
                  then [WriteFile (path ++ "/schema_drop.sql")
                                  (JS.join nl (List.map dropSchema (schemas st)))]
                  else []
           end)%list.
Proof.
  intro H.
  pose (I := fun (pre : list RootElement) (st : SchemaState) =>
               NoDup (schemas st)
               /\ (forall s, In s (schemas st)
                             <-> s <> "public"
                                 /\ In s (List.map schemaOf (dataModels pre)))
               /\ codegen.lines (schemaDropWriter st)
                  = List.map dropSchema (schemas st)
               /\ indentations (schemaDropWriter st) = []
               /\ hasContent (schemaWriter st)
                  = match schemas st with [] => false | _ => true end).
  assert (G : I ([] ++ root_ownedElements elem)%list st).
  { apply (forEach_returned (generateSchemaElement path options) I
             (root_ownedElements elem) [] (noSchemas options) st);
      [| |exact H].
    - unfold I. cbn. repeat split; try constructor; tauto.
    - clear. intros p a s s' (N & M & L & D & C) E.
      unfold I. rewrite dataModels_app, map_app.
      destruct a as [m|]; cbn [generateSchemaElement] in E.
      + rewrite outcome_bind, schemaName_outcome in E.
        fold (schemaOf m) in E.
        unfold generateFunctions, generateProcedures in E.
        rewrite outcome_bind, generateRoutines_value in E.
        cbn [outcome fst] in E.
        rewrite outcome_bind, generateRoutines_value in E.
        cbn [outcome fst] in E.
        rewrite outcome_bind in E.
        destruct (outcome (generateTables m path options (schemaOf m) _));
          [|discriminate].
        cbn [dataModels flat_map List.map app].
        destruct (String.eqb (schemaOf m) "public") eqn:Ep.
        * cbn [negb andb] in E. rewrite outcome_ret in E. injection E as <-.
          apply String.eqb_eq in Ep.
          split; [exact N|].
          split; [|split; [exact L|split; [exact D|exact C]]].
          intro x. rewrite (M x), !in_app_iff. cbn [In].
          split; [tauto|].
          intros (Hx & [Hin|[Hm|[]]]); [tauto|]. congruence.
        * apply String.eqb_neq in Ep. cbn [negb andb] in E.
          destruct (existsb (String.eqb (schemaOf m)) (schemas s)) eqn:Ex.
          -- cbn [negb] in E. rewrite outcome_ret in E. injection E as <-.
             apply existsb_eqb_In in Ex. apply M in Ex.
             split; [exact N|].
             split; [|split; [exact L|split; [exact D|exact C]]].
             intro x. rewrite (M x), !in_app_iff. cbn [In].
             split; [tauto|].
             intros (Hx & [Hin|[Hm|[]]]); [tauto|].
             subst x. tauto.
          -- cbn [negb] in E. rewrite outcome_ret in E. injection E as <-.
             cbn [schemas schemaDropWriter schemaWriter].
             assert (Hnot : ~ In (schemaOf m) (schemas s)).
             { intro Hin. apply existsb_eqb_In in Hin. congruence. }
             unfold push. split; [|split; [|split; [|split]]].
             ++ apply NoDup_app; [exact N | repeat constructor; intros [] |].
                intros x Hx [<-|[]]. now apply Hnot.
             ++ intro x. rewrite !in_app_iff, (M x). cbn [In].
                split.
                ** intros [Hx|[<-|[]]]; [tauto|]. split; [exact Ep|tauto].
                ** intros (Hx & [Hin|[Hm|[]]]); [tauto|]. now right; left.
             ++ cbn [writeLine codegen.lines]. unfold push, margin.
                rewrite D, L, map_app. reflexivity.
             ++ exact D.
             ++ replace (match (schemas s ++ [schemaOf m])%list with
                         | [] => false | _ => true end) with true
                  by now destruct (schemas s).
                eapply hasContent_extends;
                  [|apply (hasContent_writeLine ("-- Schema for: " ++ dm_name m)
                             (schemaWriter s))].
                eapply extends_trans; [apply extends_writeLine|].
                eapply extends_trans;
                  [apply (extends_indented
                            (writeLine ("AUTHORIZATION " ++ opt_owner options ++ ";")));
                   apply extends_writeLine|].
                destruct (dm_documentation m) as [d|]; [|apply extends_refl].
                destruct (truthy d); [|apply extends_refl].
                eapply extends_trans; [apply extends_writeEmpty|].
                eapply extends_trans; [apply extends_writeLine|].
                apply (extends_indented
                         (writeLine ("IS " ++ asComment d ++ ";"))).
                apply extends_writeLine.
      + rewrite outcome_ret in E. injection E as <-.
        cbn [dataModels flat_map List.map app]. rewrite app_nil_r.
        split; [exact N|]. split; [exact M|].
        split; [exact L|split; [exact D|exact C]]. }
  destruct G as (N & M & L & _ & C). cbn [app] in M.
  split; [exact N|]. split; [exact M|]. split; [exact L|].
  unfold generateSchema. fold (noSchemas options).
  split.
  - rewrite outcome_bind, H, outcome_bind.
    destruct (hasContent (schemaWriter st)); [|reflexivity].
    unfold writeFiles. rewrite outcome_bind. cbn [emit outcome fst].
    destruct (opt_dropStatements options); reflexivity.
  - rewrite events_bind, H. f_equal. rewrite events_bind.
    rewrite C. destruct (schemas st) as [|x r] eqn:Es.
    + reflexivity.
    + unfold writeFiles. rewrite outcome_bind. cbn [emit outcome fst].
      rewrite events_bind. cbn [emit outcome events fst snd].
      unfold getData at 2. rewrite L.
      destruct (opt_dropStatements options); cbn [outcome events fst snd ret emit app];
        reflexivity.
Qed.
End Schemas.

(** *** The indentation unit *)

Lemma join_spaces (n : nat) :
  String.length (JS.join "" (repeat " " n)) = n
  /\ all_chars (Ascii.eqb space) (JS.join "" (repeat " " n)) = true.
Proof.
  induction n as [|n [IHl IHc]]; [now split|].
  cbn [repeat]. destruct n as [|n]; [now split|].
  change (JS.join "" (" " :: repeat " " (S n)))
    with (" " ++ "" ++ JS.join "" (repeat " " (S n))).
  cbn [append String.length all_chars]. rewrite IHl, IHc. now split.
Qed.

(** X16. The indentation unit is one tab with the tab option, and
    otherwise exactly [indentSpaces] spaces: nothing else than spaces,
    and none at all when the number is zero or negative. *)
Theorem getIndentString_width (options : Options) :
  if opt_useTab options then getIndentString options = tab
  else String.length (getIndentString options)
       = Z.to_nat (opt_indentSpaces options)
       /\ all_chars (Ascii.eqb space) (getIndentString options) = true
       /\ ((opt_indentSpaces options <= 0)%Z -> getIndentString options = "").
Proof.
  unfold getIndentString. destruct (opt_useTab options); [reflexivity|].
  destruct (join_spaces (Z.to_nat (opt_indentSpaces options))) as [Hl Hc].
  split; [exact Hl|]. split; [exact Hc|].
  intro H. replace (Z.to_nat (opt_indentSpaces options)) with 0%nat by lia.
  reflexivity.
Qed.

(** *** The further properties on sample inputs *)

Lemma routineName_rejects_spaces_and_dashes_witness :
  routineName (referenceTag "my func" "function" "body")
  = (Normal "", [routineError "my func"]).
Proof.
  exact (routineName_rejects_spaces_and_dashes
           (referenceTag "my func" "function" "body") space "my" "func"
           eq_refl (or_introl eq_refl)).
Defined.

Lemma dataType_length_clause_witness :
  dataType (column "code" "VARCHAR" (Some 80%Z) false false [])
  = Normal (VString "varchar(80)").
Proof.
  exact (dataType_length_clause (column "code" "VARCHAR" (Some 80%Z) false false [])
           "VARCHAR" "varchar" (or_introl eq_refl) eq_refl).
Defined.

(** A length without a value, and lengths beyond the integers that
    print digit by digit. *)
Example dataType_length_samples :
  dataType (column "code" "VARCHAR" None false false [])
  = Normal (VString "varchar(undefined)")
  /\ dataType (column "code" "VARCHAR" (Some (10 ^ 21)%Z) false false [])
     = Normal (VString "varchar(1e+21)")
  /\ dataType (column "code" "VARCHAR" (Some (2 ^ 64)%Z) false false [])
     = Normal (VString "varchar(18446744073709552000)").
Proof. repeat split; vm_compute; reflexivity. Qed.

Lemma groupByName_groups_witness :
  exists acc,
    groupByName
      [ {| idx_column := "a"; idx_idxName := "by_name";
           idx_seq := 2; idx_desc := false |};
        {| idx_column := "b"; idx_idxName := "customer_idx";
           idx_seq := 1; idx_desc := false |};
        {| idx_column := "c"; idx_idxName := "by_name";
           idx_seq := 1; idx_desc := true |} ]
    = Normal acc
    /\ List.map fst (properties acc) = ["by_name"; "customer_idx"]
    /\ NoDup (List.map fst (properties acc)).
Proof.
  destruct (groupByName_groups
              [ {| idx_column := "a"; idx_idxName := "by_name";
                   idx_seq := 2; idx_desc := false |};
                {| idx_column := "b"; idx_idxName := "customer_idx";
                   idx_seq := 1; idx_desc := false |};
                {| idx_column := "c"; idx_idxName := "by_name";
                   idx_seq := 1; idx_desc := true |} ])
    as (acc & Hacc & _ & ND & _).
  { intros d [<-|[<-|[<-|[]]]]; reflexivity. }
  exists acc. split; [exact Hacc|]. split; [|exact ND].
  vm_compute in Hacc. injection Hacc as <-. reflexivity.
Defined.

Lemma writeUserIndexes_skips_named_groups_witness :
  outcome (writeUserIndexes (newCodeWriter "    ") "public.t"
             (indexed "customer_idx"))
  = Normal (writeEmpty (newCodeWriter "    ")).
Proof.
  apply (writeUserIndexes_skips_named_groups (newCodeWriter "    ")
           "public.t" (indexed "customer_idx")).
  intros c t [<-|[<-|[]]] [<-|[]] _; split; reflexivity.
Defined.


Lemma writeUserIndexes_by_index_witness :
  exists w',
    outcome (writeUserIndexes (newCodeWriter "    ") "public.t" numbered)
    = Normal w'
    /\ codegen.lines w'
       = [ " -- Index: 1"; "CREATE INDEX ON public.t"; "    (c, b DESC);";
           " -- Index: 2"; "CREATE INDEX ON public.t"; "    (a);"; "" ].
Proof.
  destruct (writeUserIndexes_by_index (newCodeWriter "    ") "public.t" numbered
              eq_refl) as (w' & Hw & Hl & _).
  exists w'. split; [exact Hw|]. rewrite Hl. vm_compute. reflexivity.
Defined.

Lemma generate_no_drop_file_witness :
  opt_dropStatements createOnly = false
  /\ ends_with "_create.sql" "out/schema_create.sql".
Proof.
  split; [reflexivity|].
  apply (generate_no_drop_file shopProject "out" createOnly eq_refl
           "out/schema_create.sql"
           ("-- Schema for: Front" ++ nl ++ "CREATE SCHEMA sales" ++ nl
            ++ "    AUTHORIZATION postgres;")).
  vm_compute. do 7 right. left. reflexivity.
Defined.

Lemma generateDatabase_write_back_witness :
  exists ok elem',
    outcome (generateDatabase shopProject "out" createOnly) = Normal (ok, elem')
    /\ root_tags elem' = [databaseTag "my_shop"; databaseTag "my_shop"]
    /\ stringTag "database" (root_tags elem') = "my_shop".
Proof.
  destruct (generateDatabase_write_back shopProject "out" createOnly eq_refl)
    as (ok & elem' & Ho & _ & Ht & Hs & _).
  exists ok, elem'. split; [exact Ho|]. split; [exact Ht | exact (Hs eq_refl)].
Defined.

Lemma generateTable_deferred_constraints_witness :
  exists g,
    outcome (generateTable emptyBuffers orderItem (sampleOptions false)
               "public" "") = Normal g
    /\ refs (buffers g)
       = [ "ALTER TABLE public.order_item ADD CONSTRAINT FK_order_item__order_id"
           ++ " FOREIGN KEY (order_id) REFERENCES public.orders(id);" ].
Proof.
  destruct (generateTable_deferred_constraints emptyBuffers orderItem
              (sampleOptions false) "public" "" eq_refl)
    as (g & Hg & Hrefs & _).
  exists g. split; [exact Hg|]. rewrite Hrefs. reflexivity.
Defined.

Lemma generateTable_enum_types_witness :
  exists g,
    outcome (generateTable emptyBuffers mood (sampleOptions false) "public" "")
    = Normal g
    /\ codegen.lines (codeWriter (buffers g))
       = [ ("CREATE TYPE public.person_mood AS ENUM('sad','ok');" ++ nl)%string;
           ("CREATE CAST (CHARACTER VARYING AS public.person_mood) WITH INOUT AS IMPLICIT;"
            ++ nl)%string;
           ("CREATE TYPE public.person_ AS ENUM('a','b');" ++ nl)%string;
           ("CREATE CAST (CHARACTER VARYING AS public.person_) WITH INOUT AS IMPLICIT;"
            ++ nl)%string;
           "CREATE TABLE public.person (";
           "    id integer NOT NULL,";
           "    mood public.person_mood,";
           "    PRIMARY KEY (id)";
           ");"; ""; "" ]
    /\ codegen.lines (dropWriter (buffers g))
       = [ "DROP TABLE IF EXISTS public.person CASCADE;";
           "DROP TYPE public.person_mood CASCADE;";
           "DROP TYPE public.person_ CASCADE;" ].
Proof.
  destruct (generateTable_enum_types emptyBuffers mood (sampleOptions false)
              "public" "" eq_refl)
    as (g & Hg & Hc & Hd).
  exists g. split; [exact Hg|].
  split; [rewrite Hc | rewrite Hd]; vm_compute; reflexivity.
Defined.

Lemma generateTable_columns_after_witness :
  exists g,
    outcome (generateTable emptyBuffers mood (sampleOptions false) "public" "")
    = Normal g
    /\ List.map (fun c => (col_type c, col_is_enum c)) (columnsAfter g)
       = [ ("INTEGER", false); ("enum", true); ("public.person_", true) ].
Proof.
  destruct (generateTable_columns_after emptyBuffers mood (sampleOptions false)
              "public" "" eq_refl)
    as (g & Hg & Hc).
  exists g. split; [exact Hg|]. rewrite Hc. reflexivity.
Defined.

Lemma generateSchema_schemas_once_witness :
  match outcome (forEach (generateSchemaElement "out" createOnly)
                   (root_ownedElements shopProject) (noSchemas createOnly)) with
  | Normal st =>
      schemas st = ["sales"]
      /\ NoDup (schemas st)
      /\ codegen.lines (schemaDropWriter st) = List.map dropSchema (schemas st)
      /\ outcome (generateSchema shopProject "out" createOnly) = Normal true
  | Throw _ => False
  end.
Proof.
  destruct (outcome (forEach (generateSchemaElement "out" createOnly)
                       (root_ownedElements shopProject) (noSchemas createOnly)))
    as [st|ex] eqn:E.
  - destruct (generateSchema_schemas_once shopProject "out" createOnly st E)
      as (N & _ & L & O & _).
    split; [|split; [exact N|split; [exact L|exact O]]].
    vm_compute in E. injection E as <-. reflexivity.
  - vm_compute in E. discriminate E.
Defined.
